(** * KodoBashke: mutual-like matching, chat session and match list

    A shallow embedding of the parts of the repository that decide its
    matching and messaging behaviour:

    - the tables [swipes] and [matches] with their constraints, and the two
      definitions of the trigger function [create_match_on_mutual_like]
      (the schema's, src/fix-rls-policies.sql, and its redefinition in
      src/fix-matches.sql);
    - the fixed-window [RateLimiter] (lib/rate-limiter.ts);
    - the Discover screen's [fetchProfiles] and [handleSwipe];
    - the Chat screen's realtime handler, [fetchMessages] and [sendMessage];
    - the Matches screen's [fetchMatches];
    - [handleError] and [getErrorMessage] (lib/error-handler.ts), the auth
      schemas of lib/validators.ts, the Login and Signup screens, the
      skill and interest toggles, and the Profile screen.

    Conventions.  On the database side a uuid is the 128-bit number its
    sixteen bytes spell (PostgreSQL compares uuids bytewise, which is the
    order of these numbers) and a timestamptz is a number of microseconds.
    On the client side ids are the strings the TypeScript interfaces
    declare; [created_at] stays a number (the client never inspects its
    text).  [gen_random_uuid()] is taken to return an id not yet used in the
    table, [now()] and [Date.now()] are inputs.  Statements run one after
    the other; the interleaving of concurrent transactions is outside
    this model.  The database is modelled at two levels.  [Db] first gives
    the constraints of the two tables and the bodies of the trigger
    function as they run for the owner of the tables, to whom row-level
    security does not apply, on rows whose users have profiles.
    [Db.Secured] then gives the same statements as the server runs them
    for any role: with the row-level policies on [swipes] and [matches],
    the foreign keys into [profiles], and the trigger function run with
    the rights of the inserting role (the schema's) or of its owner
    (SECURITY DEFINER, fix-matches.sql). *)

From Stdlib Require Import NArith List Bool String Ascii Lia Permutation Sorted.
From stdpp Require Import gmap strings list pretty.

Local Open Scope N_scope.

(** ** The database: tables, constraints and the match-derivation trigger *)

Module Db.

Definition uuid := N.
Definition timestamptz := N.
Bind Scope N_scope with uuid timestamptz.

(** [swipes], src/fix-rls-policies.sql:98-105. *)
Record swipe := Swipe {
  swipe_id : uuid;
  user_id : uuid;
  target_user_id : uuid;
  is_like : bool;
  swipe_created_at : timestamptz
}.

(** [matches], src/fix-rls-policies.sql:120-126. *)
Record match_row := Match {
  match_id : uuid;
  user1_id : uuid;
  user2_id : uuid;
  match_created_at : timestamptz
}.

(** The error conditions the modelled statements can raise. *)
Inductive sqlstate :=
  | unique_violation
  | check_violation
  | foreign_key_violation
  | insufficient_privilege.

(** [notices] collects what RAISE WARNING emits. *)
Record db := Database {
  swipes : list swipe;
  matches : list match_row;
  notices : list sqlstate
}.

Definition empty_db : db := Database [] [] [].

(** A statement either completes with a new state or raises. *)
Inductive exec (A : Type) :=
  | Done (a : A)
  | Raised (e : sqlstate).
Arguments Done {A} a.
Arguments Raised {A} e.

(** An id no row of the table carries. *)
Definition gen_random_uuid (used : list uuid) : uuid :=
  N.succ (fold_right N.max 0 used).

Definition LEAST (a b : uuid) : uuid := N.min a b.
Definition GREATEST (a b : uuid) : uuid := N.max a b.

(** [INSERT INTO matches (user1_id, user2_id) VALUES (u1, u2)], with or
    without [ON CONFLICT DO NOTHING].  The table's constraints are
    [CHECK (user1_id < user2_id)] and the primary key on [id]; there is no
    unique constraint on the pair, so the primary key is the only thing
    ON CONFLICT can react to. *)
Definition insert_into_matches (on_conflict_do_nothing : bool)
    (now : timestamptz) (u1 u2 : uuid) (s : db) : exec db :=
  let id := gen_random_uuid (List.map match_id (matches s)) in
  if negb (u1 <? u2) then Raised check_violation
  else if existsb (fun m => match_id m =? id) (matches s) then
    if on_conflict_do_nothing then Done s else Raised unique_violation
  else
    Done (Database (swipes s)
                   (matches s ++ [Match id u1 u2 now])
                   (notices s)).

(** [EXISTS (SELECT 1 FROM swipes WHERE user_id = NEW.target_user_id
    AND target_user_id = NEW.user_id AND is_like = true)]. *)
Definition reverse_like_exists (NEW : swipe) (s : db) : bool :=
  existsb (fun w => (user_id w =? target_user_id NEW)
                    && (target_user_id w =? user_id NEW)
                    && is_like w)
          (swipes s).

(** The body of the schema's trigger function,
    src/fix-rls-policies.sql:181-201, as it runs for the owner of the
    tables, who sees every row; [Secured.Schema] below is the function
    for whichever role fires it. *)
Module Schema.
Definition create_match_on_mutual_like (now : timestamptz) (NEW : swipe)
    (s : db) : exec db :=
  if is_like NEW then
    if reverse_like_exists NEW s then
      insert_into_matches true now
        (LEAST (user_id NEW) (target_user_id NEW))
        (GREATEST (user_id NEW) (target_user_id NEW)) s
    else Done s
  else Done s.
End Schema.

(** The redefinition in src/fix-matches.sql:13-51. *)
Module FixMatches.

(** Lines 19-44, the block before EXCEPTION. *)
Definition body (now : timestamptz) (NEW : swipe) (s : db) : exec db :=
  if is_like NEW then
    if reverse_like_exists NEW s then
      let match_exists :=
        existsb (fun m =>
                   (user1_id m =? LEAST (user_id NEW) (target_user_id NEW))
                   && (user2_id m =? GREATEST (user_id NEW) (target_user_id NEW)))
                (matches s) in
      if negb match_exists then
        insert_into_matches false now
          (LEAST (user_id NEW) (target_user_id NEW))
          (GREATEST (user_id NEW) (target_user_id NEW)) s
      else Done s
    else Done s
  else Done s.

(** [EXCEPTION WHEN OTHERS THEN RAISE WARNING ...; RETURN NEW;]: the
    block's own changes are undone, the warning is emitted and the
    function returns normally. *)
Definition exception_when_others (block : db -> exec db) (s : db) : exec db :=
  match block s with
  | Done s' => Done s'
  | Raised e => Done (Database (swipes s) (matches s) (notices s ++ [e]))
  end.

Definition create_match_on_mutual_like (now : timestamptz) (NEW : swipe)
    (s : db) : exec db :=
  exception_when_others (body now NEW) s.

End FixMatches.

(** Which definition of the trigger function is installed. *)
Inductive deployment :=
  | schema_sql
  | fix_matches_sql.

Definition trigger_create_match_on_mutual_like (d : deployment) :
    timestamptz -> swipe -> db -> exec db :=
  match d with
  | schema_sql => Schema.create_match_on_mutual_like
  | fix_matches_sql => FixMatches.create_match_on_mutual_like
  end.

(** [INSERT INTO swipes (user_id, target_user_id, is_like)]: the row must
    pass [UNIQUE(user_id, target_user_id)] and the primary key; the AFTER
    INSERT trigger then runs on a state that already holds the row.  This
    is the statement of the owner of the tables for users who have
    profiles; [Secured.insert_into_swipes] below adds the INSERT policy
    and the foreign keys. *)
Definition insert_into_swipes (d : deployment) (now : timestamptz)
    (u t : uuid) (l : bool) (s : db) : exec db :=
  let id := gen_random_uuid (List.map swipe_id (swipes s)) in
  if existsb (fun w => (user_id w =? u) && (target_user_id w =? t)) (swipes s)
  then Raised unique_violation
  else if existsb (fun w => swipe_id w =? id) (swipes s)
  then Raised unique_violation
  else
    let NEW := Swipe id u t l now in
    trigger_create_match_on_mutual_like d now NEW
      (Database (swipes s ++ [NEW]) (matches s) (notices s)).

(** A statement is atomic: when it raises, the database is as before. *)
Definition execute (stmt : db -> exec db) (s : db) : db * option sqlstate :=
  match stmt s with
  | Done s' => (s', None)
  | Raised e => (s, Some e)
  end.

(** What a client can send. *)
Inductive statement :=
  | InsertSwipe (now : timestamptz) (u t : uuid) (l : bool)
  | InsertMatch (now : timestamptz) (u1 u2 : uuid).

Definition step (d : deployment) (s : db) (q : statement) : db :=
  match q with
  | InsertSwipe now u t l => fst (execute (insert_into_swipes d now u t l) s)
  | InsertMatch now u1 u2 => fst (execute (insert_into_matches true now u1 u2) s)
  end.

Definition run (d : deployment) (h : list statement) (s : db) : db :=
  fold_left (step d) h s.

Definition is_swipe_insert (q : statement) : bool :=
  match q with
  | InsertSwipe _ _ _ _ => true
  | InsertMatch _ _ _ => false
  end.

(** Queries used to state the properties. *)
Definition likes (s : db) (a b : uuid) : bool :=
  existsb (fun w => (user_id w =? a) && (target_user_id w =? b) && is_like w)
          (swipes s).

Definition swiped (s : db) (a b : uuid) : bool :=
  existsb (fun w => (user_id w =? a) && (target_user_id w =? b)) (swipes s).

Definition has_key (a b : uuid) (m : match_row) : bool :=
  (user1_id m =? a) && (user2_id m =? b).

(** A row for the unordered pair {a, b}, whichever way round it is stored. *)
Definition of_pair (a b : uuid) (m : match_row) : bool :=
  has_key a b m || has_key b a m.

(** The directed swipe (a, b, like) is in the table. *)
Definition directed_like (s : db) (a b : uuid) : Prop :=
  exists w, In w (swipes s)
            /\ user_id w = a /\ target_user_id w = b /\ is_like w = true.

(** The CHECK constraint of [matches], for the whole table. *)
Definition ordered (s : db) : Prop :=
  Forall (fun m => user1_id m < user2_id m) (matches s).

Definition count_key (a b : uuid) (s : db) : nat :=
  length (List.filter (has_key a b) (matches s)).

Definition both_like (s : db) (a b : uuid) : bool :=
  likes s a b && likes s b a.

(** Every canonical key is stored once if both likes are there, and not
    at all otherwise. *)
Definition derived (s : db) : Prop :=
  forall a b, a < b ->
    count_key a b s = if both_like s a b then 1%nat else 0%nat.

(** A like of oneself, the one swipe whose match insert fails. *)
Definition is_self_like (q : statement) : bool :=
  match q with
  | InsertSwipe _ u t l => (u =? t) && l
  | InsertMatch _ _ _ => false
  end.

(** The ordered pair a swipe row is unique on. *)
Definition pair_of (w : swipe) : uuid * uuid := (user_id w, target_user_id w).

(** *** Roles, row-level policies and foreign keys

    Who sends a statement: the owner of the tables (the role the SQL
    editor runs as, and the owner of the functions created there), a
    signed-in user of the app, whose id [auth.uid()] returns, or a client
    that is not signed in. *)
Inductive role :=
  | postgres
  | authenticated (uid : uuid)
  | anon.

(** The rows of [swipes] a role's SELECT sees.  "Users can view their
    own swipes": TO authenticated USING (auth.uid() = user_id). *)
Definition select_swipes (r : role) (s : db) : list swipe :=
  match r with
  | postgres => swipes s
  | authenticated uid => List.filter (fun w => uid =? user_id w) (swipes s)
  | anon => []
  end.

(** The rows of [matches] a role's SELECT sees.  "Users can view their
    own matches": TO authenticated
    USING (auth.uid() = user1_id OR auth.uid() = user2_id). *)
Definition select_matches (r : role) (s : db) : list match_row :=
  match r with
  | postgres => matches s
  | authenticated uid =>
      List.filter (fun m => (uid =? user1_id m) || (uid =? user2_id m)) (matches s)
  | anon => []
  end.

(** "Users can create their own swipes": FOR INSERT TO authenticated
    WITH CHECK (auth.uid() = user_id). *)
Definition swipes_with_check (r : role) (user_id : uuid) : bool :=
  match r with
  | postgres => true
  | authenticated uid => uid =? user_id
  | anon => false
  end.

(** INSERT on [matches]: the schema defines no policy, so row-level
    security turns every insert of a client down; fix-matches.sql adds
    "System can create matches", FOR INSERT TO authenticated
    WITH CHECK (true). *)
Definition matches_with_check (d : deployment) (r : role) : bool :=
  match r with
  | postgres => true
  | authenticated _ =>
      match d with
      | schema_sql => false
      | fix_matches_sql => true
      end
  | anon => false
  end.

(** [REFERENCES profiles]: [profiles] lists the ids of the rows of that
    table, which none of the modelled statements changes. *)
Definition references (profiles : list uuid) (id : uuid) : bool :=
  existsb (N.eqb id) profiles.

(** The statements as the server runs them for a role.  The checks come
    in PostgreSQL's order: the policy's WITH CHECK before the row is
    stored, then CHECK and the unique indexes, then, AFTER the insert,
    the foreign keys and last the trigger of the repository (AFTER ROW
    triggers fire in the order of their names, and those of the foreign
    keys are called RI_ConstraintTrigger_...). *)
Module Secured.

Definition insert_into_matches (r : role) (d : deployment) (profiles : list uuid)
    (on_conflict_do_nothing : bool) (now : timestamptz) (u1 u2 : uuid) (s : db)
    : exec db :=
  let id := gen_random_uuid (List.map match_id (matches s)) in
  if negb (matches_with_check d r) then Raised insufficient_privilege
  else if negb (u1 <? u2) then Raised check_violation
  else if existsb (fun m => match_id m =? id) (matches s) then
    if on_conflict_do_nothing then Done s else Raised unique_violation
  else if negb (references profiles u1 && references profiles u2)
  then Raised foreign_key_violation
  else
    Done (Database (swipes s)
                   (matches s ++ [Match id u1 u2 now])
                   (notices s)).

(** The EXISTS of both trigger functions, over the rows the role sees. *)
Definition reverse_like_exists (r : role) (NEW : swipe) (s : db) : bool :=
  existsb (fun w => (user_id w =? target_user_id NEW)
                    && (target_user_id w =? user_id NEW)
                    && is_like w)
          (select_swipes r s).

(** The schema's function, src/fix-rls-policies.sql:181-201, is
    [LANGUAGE plpgsql] without SECURITY DEFINER: it reads and writes with
    the rights of the role whose insert fired it. *)
Module Schema.
Definition create_match_on_mutual_like (r : role) (profiles : list uuid)
    (now : timestamptz) (NEW : swipe) (s : db) : exec db :=
  if is_like NEW then
    if reverse_like_exists r NEW s then
      insert_into_matches r schema_sql profiles true now
        (LEAST (user_id NEW) (target_user_id NEW))
        (GREATEST (user_id NEW) (target_user_id NEW)) s
    else Done s
  else Done s.
End Schema.

(** The function of src/fix-matches.sql:13-51 is SECURITY DEFINER: its
    body runs with the rights of the function's owner, whoever inserts. *)
Module FixMatches.

Definition body (r : role) (profiles : list uuid) (now : timestamptz)
    (NEW : swipe) (s : db) : exec db :=
  if is_like NEW then
    if reverse_like_exists r NEW s then
      let match_exists :=
        existsb (fun m =>
                   (user1_id m =? LEAST (user_id NEW) (target_user_id NEW))
                   && (user2_id m =? GREATEST (user_id NEW) (target_user_id NEW)))
                (select_matches r s) in
      if negb match_exists then
        insert_into_matches r fix_matches_sql profiles false now
          (LEAST (user_id NEW) (target_user_id NEW))
          (GREATEST (user_id NEW) (target_user_id NEW)) s
      else Done s
    else Done s
  else Done s.

Definition create_match_on_mutual_like (profiles : list uuid)
    (now : timestamptz) (NEW : swipe) (s : db) : exec db :=
  Db.FixMatches.exception_when_others (body postgres profiles now NEW) s.

End FixMatches.

Definition trigger_create_match_on_mutual_like (d : deployment) (r : role)
    (profiles : list uuid) : timestamptz -> swipe -> db -> exec db :=
  match d with
  | schema_sql => Schema.create_match_on_mutual_like r profiles
  | fix_matches_sql => FixMatches.create_match_on_mutual_like profiles
  end.

Definition insert_into_swipes (r : role) (d : deployment) (profiles : list uuid)
    (now : timestamptz) (u t : uuid) (l : bool) (s : db) : exec db :=
  let id := gen_random_uuid (List.map swipe_id (swipes s)) in
  if negb (swipes_with_check r u) then Raised insufficient_privilege
  else if existsb (fun w => (user_id w =? u) && (target_user_id w =? t)) (swipes s)
  then Raised unique_violation
  else if existsb (fun w => swipe_id w =? id) (swipes s)
  then Raised unique_violation
  else if negb (references profiles u && references profiles t)
  then Raised foreign_key_violation
  else
    let NEW := Swipe id u t l now in
    trigger_create_match_on_mutual_like d r profiles now NEW
      (Database (swipes s ++ [NEW]) (matches s) (notices s)).

End Secured.

(** A statement together with the role that sends it. *)
Record request := Request {
  issuer : role;
  query : statement
}.

Definition serve (d : deployment) (profiles : list uuid) (s : db) (q : request)
    : db :=
  match query q with
  | InsertSwipe now u t l =>
      fst (execute (Secured.insert_into_swipes (issuer q) d profiles now u t l) s)
  | InsertMatch now u1 u2 =>
      fst (execute (Secured.insert_into_matches (issuer q) d profiles true now u1 u2) s)
  end.

Definition serve_all (d : deployment) (profiles : list uuid) (h : list request)
    (s : db) : db :=
  fold_left (serve d profiles) h s.

Definition is_swipe_request (q : request) : bool := is_swipe_insert (query q).

(** Requests of the app's clients, signed in or not. *)
Definition from_client (q : request) : bool :=
  match issuer q with
  | postgres => false
  | authenticated _ | anon => true
  end.

End Db.

(** ** Row-level policies on [profiles]

    The USING expressions of the three SELECT policies the repository
    defines for [profiles], as tests on the database state: [uid] is
    [auth.uid()], [id] the id of the profile row. *)

Module Policies.
Import Db.

(** [SELECT target_user_id FROM swipes WHERE user_id = auth.uid()]. *)
Definition swiped_targets (uid : uuid) (s : db) : list uuid :=
  List.map target_user_id (List.filter (fun w => user_id w =? uid) (swipes s)).

(** [SELECT user1_id FROM matches WHERE user2_id = auth.uid() UNION
    SELECT user2_id FROM matches WHERE user1_id = auth.uid()]. *)
Definition matched_ids (uid : uuid) (s : db) : list uuid :=
  List.map user1_id (List.filter (fun m => user2_id m =? uid) (matches s))
  ++ List.map user2_id (List.filter (fun m => user1_id m =? uid) (matches s)).

(** "Users can view profiles they haven't swiped on",
    src/fix-rls-policies.sql:170-178. *)
Definition view_unswiped (uid id : uuid) (s : db) : bool :=
  (id =? uid) || negb (existsb (N.eqb id) (swiped_targets uid s)).

(** "Users can view profiles", src/unnamed/part_003:5-18. *)
Definition view_profiles (uid id : uuid) (s : db) : bool :=
  (id =? uid)
  || negb (existsb (N.eqb id) (swiped_targets uid s))
  || existsb (N.eqb id) (matched_ids uid s).

(** "Authenticated users can view all profiles",
    src/fix-rls-policies.sql:10-13. *)
Definition view_all (uid id : uuid) (s : db) : bool := true.

End Policies.

(** ** Client side: shared pieces *)

Module Client.

(** The authenticated user, of which the screens use the id only. *)
Record User := { user_id : string }.

(** What the screens do to the outside world, in the order they do it. *)
Inductive effect :=
  | LoggerInfo (message : string)
  | LoggerWarn (message : string)
  | LoggerError (message : string)
  | ConsoleError (message : string)
  | CaptureException (context : string)
  | InsertIntoSwipes (user_id target_user_id : string) (is_like : bool)
  | InsertIntoMessages (match_id sender_id content : string).

(** What [await supabase.from(t).insert(row)] comes back with: a result
    whose [error] is null, a result carrying an error, or a rejection. *)
Inductive insert_reply :=
  | InsertOk
  | InsertError (message : string)
  | InsertRejected (message : string).

(** The [{ data, error }] of a select. *)
Record response (A : Type) := Response {
  data : option A;
  error : option string
}.
Arguments Response {A} data error.
Arguments data {A} r.
Arguments error {A} r.

(** [ORDER BY] on one column.  PostgreSQL leaves the order of rows that
    tie open; the model keeps them in the order of the table (a stable
    insertion sort). *)
Fixpoint insert_by {A} (le : A -> A -> bool) (x : A) (l : list A) : list A :=
  match l with
  | [] => [x]
  | y :: l' => if le x y then x :: l else y :: insert_by le x l'
  end.

Definition order_by {A} (le : A -> A -> bool) (l : list A) : list A :=
  fold_right (insert_by le) [] l.

End Client.

(** ** lib/rate-limiter.ts *)

Module RateLimiter.

Record RateLimitConfig := {
  maxAttempts : N;
  windowMs : N
}.

Record RateLimitEntry := {
  count : N;
  resetTime : N
}.

Record RateLimitResult := {
  allowed : bool;
  retryAfter : option N
}.

(** [check(key, config)] at time [now = Date.now()]; the limiter's map is
    threaded through. *)
Definition check (key : string) (config : RateLimitConfig) (now : N)
    (limits : gmap string RateLimitEntry)
    : gmap string RateLimitEntry * RateLimitResult :=
  let limits :=
    match limits !! key with
    | Some entry => if resetTime entry <=? now then delete key limits else limits
    | None => limits
    end in
  match limits !! key with
  | None =>
      (<[key := {| count := 1; resetTime := now + windowMs config |}]> limits,
       {| allowed := true; retryAfter := None |})
  | Some current =>
      if maxAttempts config <=? count current then
        (limits,
         {| allowed := false;
            retryAfter := Some ((resetTime current - now + 999) / 1000) |})
      else
        (<[key := {| count := count current + 1;
                     resetTime := resetTime current |}]> limits,
         {| allowed := true; retryAfter := None |})
  end.

Definition MESSAGE : RateLimitConfig := {| maxAttempts := 30; windowMs := 60 * 1000 |}.
Definition SWIPE : RateLimitConfig := {| maxAttempts := 100; windowMs := 60 * 1000 |}.
Definition LOGIN : RateLimitConfig := {| maxAttempts := 5; windowMs := 15 * 60 * 1000 |}.
Definition SIGNUP : RateLimitConfig := {| maxAttempts := 3; windowMs := 60 * 60 * 1000 |}.
Definition PROFILE_UPDATE : RateLimitConfig := {| maxAttempts := 10; windowMs := 60 * 1000 |}.
Definition IMAGE_UPLOAD : RateLimitConfig := {| maxAttempts := 5; windowMs := 5 * 60 * 1000 |}.

(** [reset(key)] and [clear()]. *)
Definition reset (key : string) (limits : gmap string RateLimitEntry)
    : gmap string RateLimitEntry := delete key limits.

Definition clear (limits : gmap string RateLimitEntry)
    : gmap string RateLimitEntry := ∅.

(** [check] called for the same key at each of [times] in turn; the
    [allowed] flags come back in that order. *)
Fixpoint attempts (key : string) (config : RateLimitConfig) (times : list N)
    (limits : gmap string RateLimitEntry)
    : gmap string RateLimitEntry * list bool :=
  match times with
  | [] => (limits, [])
  | now :: times =>
      let (limits, r) := check key config now limits in
      let (limits, flags) := attempts key config times limits in
      (limits, allowed r :: flags)
  end.

(** No window is open for [key] at time [now]. *)
Definition no_window (key : string) (now : N)
    (limits : gmap string RateLimitEntry) : Prop :=
  match limits !! key with
  | Some entry => resetTime entry <= now
  | None => True
  end.

End RateLimiter.

(** ** The Discover screen: [fetchProfiles] and [handleSwipe] *)

Module Discover.
Import Client.

Record Profile := {
  profile_id : string;
  name : string;
  bio : string;
  skills : list string;
  interests : list string;
  github_url : string;
  portfolio_url : string;
  photo_url : string
}.

Record DiscoverState := {
  profiles : list Profile;
  currentIndex : nat;
  loading : bool;
  swiping : bool
}.

Definition setProfiles (v : list Profile) (st : DiscoverState) :=
  {| profiles := v; currentIndex := currentIndex st;
     loading := loading st; swiping := swiping st |}.
Definition setCurrentIndex (v : nat) (st : DiscoverState) :=
  {| profiles := profiles st; currentIndex := v;
     loading := loading st; swiping := swiping st |}.
Definition setLoading (v : bool) (st : DiscoverState) :=
  {| profiles := profiles st; currentIndex := currentIndex st;
     loading := v; swiping := swiping st |}.
Definition setSwiping (v : bool) (st : DiscoverState) :=
  {| profiles := profiles st; currentIndex := currentIndex st;
     loading := loading st; swiping := v |}.

Definition nil_uuid : string := "00000000-0000-0000-0000-000000000000".

(** The id list the second query excludes:
    [swipedIds.length > 0 ? swipedIds.join(',') : '0000...']. *)
Definition excluded_ids (swipedIds : list string) : list string :=
  match swipedIds with
  | [] => [nil_uuid]
  | _ => swipedIds
  end.

Definition mem (x : string) (l : list string) : bool :=
  existsb (String.eqb x) l.

(** [from('profiles').select('*').neq('id', uid).not('id', 'in', excluded)
    .limit(20)]. *)
Definition select_candidates (uid : string) (excluded : list string)
    (table : list Profile) : list Profile :=
  firstn 20
    (List.filter (fun p => negb (String.eqb (profile_id p) uid)
                           && negb (mem (profile_id p) excluded))
                 table).

(** [fetchProfiles], given the reply to the first query and the server's
    answer to the second as a function of the excluded ids. *)
Definition fetchProfiles (user : option User)
    (swipedUsers : response (list string))
    (candidates : list string -> response (list Profile))
    (st : DiscoverState) : DiscoverState * list effect :=
  match user with
  | None => (st, [])
  | Some u =>
      let st := setLoading true st in
      let failed := [LoggerError "Failed to fetch profiles";
                     CaptureException "fetch-profiles"] in
      match error swipedUsers with
      | Some _ => (setLoading false st, failed)
      | None =>
          let swipedIds := default [] (data swipedUsers) in
          let r := candidates (excluded_ids swipedIds) in
          match error r with
          | Some _ => (setLoading false st, failed)
          | None =>
              match data r with
              | Some rows =>
                  (setLoading false (setCurrentIndex 0 (setProfiles rows st)), [])
              | None => (setLoading false st, [])
              end
          end
      end
  end.

(** [handleSwipe(isLike)]. *)
Definition handleSwipe (user : option User) (isLike : bool) (now : N)
    (reply : insert_reply) (st : DiscoverState)
    (limits : gmap string RateLimiter.RateLimitEntry)
    : DiscoverState * gmap string RateLimiter.RateLimitEntry * list effect :=
  match user with
  | None => (st, limits, [])
  | Some u =>
      if swiping st then (st, limits, [])
      else
        match profiles st !! currentIndex st with
        | None => (st, limits, [])
        | Some targetProfile =>
            let (limits, rateLimit) :=
              RateLimiter.check ("swipe:" +:+ user_id u) RateLimiter.SWIPE now limits in
            if negb (RateLimiter.allowed rateLimit) then
              (st, limits, [LoggerWarn "Swipe rate limit exceeded"])
            else
              let st := setSwiping true st in
              let sent := [LoggerInfo "Swipe action";
                           InsertIntoSwipes (user_id u) (profile_id targetProfile) isLike] in
              match reply with
              | InsertOk =>
                  (setSwiping false (setCurrentIndex (S (currentIndex st)) st),
                   limits, sent)
              | InsertError _ | InsertRejected _ =>
                  (setSwiping false st, limits,
                   sent ++ [LoggerError "Swipe failed"; CaptureException "swipe"])
              end
        end
  end.

(** A session of the screen: it starts with no profiles and then fetches
    and swipes in any order.  [FetchProfiles] carries the reply to the
    first query and the [profiles] table the second query is answered
    from, or [None] if that query fails. *)
Definition initial : DiscoverState :=
  {| profiles := []; currentIndex := 0; loading := true; swiping := false |}.

Inductive action :=
  | FetchProfiles (swipedUsers : response (list string))
                  (table : option (list Profile))
  | HandleSwipe (isLike : bool) (now : N) (reply : insert_reply).

Definition candidates_from (uid : string) (table : option (list Profile))
    (excluded : list string) : response (list Profile) :=
  match table with
  | Some rows => Response (Some (select_candidates uid excluded rows)) None
  | None => Response None (Some "error")
  end.

Definition act (u : User)
    (x : DiscoverState * gmap string RateLimiter.RateLimitEntry * list effect)
    (a : action)
    : DiscoverState * gmap string RateLimiter.RateLimitEntry * list effect :=
  let '(st, limits, log) := x in
  match a with
  | FetchProfiles swipedUsers table =>
      let (st, done) :=
        fetchProfiles (Some u) swipedUsers (candidates_from (user_id u) table) st in
      (st, limits, log ++ done)
  | HandleSwipe isLike now reply =>
      let '(st, limits, done) := handleSwipe (Some u) isLike now reply st limits in
      (st, limits, log ++ done)
  end.

Definition session (u : User) (actions : list action)
    : DiscoverState * gmap string RateLimiter.RateLimitEntry * list effect :=
  fold_left (act u) actions (initial, ∅, []).

(** The user's own profile is not among the candidates, and every insert
    into [swipes] in a log is by the user on somebody else. *)
Definition no_self (u : User) (st : DiscoverState) : Prop :=
  forall p, In p (profiles st) -> profile_id p <> user_id u.

Definition only_others (u : User) (log : list effect) : Prop :=
  forall actor target l,
    In (InsertIntoSwipes actor target l) log ->
    actor = user_id u /\ target <> actor.

(** A profile of which only the id matters, for examples. *)
Definition person (id : string) : Profile :=
  {| profile_id := id; name := id; bio := ""; skills := []; interests := [];
     github_url := ""; portfolio_url := ""; photo_url := "" |}.

End Discover.

(** ** The Chat screen: realtime handler, [fetchMessages], [sendMessage] *)

Module Chat.
Import Client.

(** A row of [messages] as [select('*')] and the realtime payload carry it. *)
Record Message := {
  message_id : string;
  match_id : string;
  sender_id : string;
  content : string;
  created_at : N
}.

Record ChatState := {
  messages : list Message;
  newMessage : string;
  loading : bool;
  sending : bool
}.

Definition setMessages (v : list Message) (st : ChatState) :=
  {| messages := v; newMessage := newMessage st;
     loading := loading st; sending := sending st |}.
Definition setNewMessage (v : string) (st : ChatState) :=
  {| messages := messages st; newMessage := v;
     loading := loading st; sending := sending st |}.
Definition setLoading (v : bool) (st : ChatState) :=
  {| messages := messages st; newMessage := newMessage st;
     loading := v; sending := sending st |}.
Definition setSending (v : bool) (st : ChatState) :=
  {| messages := messages st; newMessage := newMessage st;
     loading := loading st; sending := v |}.

(** The subscription's callback: [setMessages(prev => prev.some(m => m.id
    === newMsg.id) ? prev : [...prev, newMsg])]. *)
Definition on_insert (newMsg : Message) (st : ChatState) : ChatState :=
  setMessages
    (if existsb (fun m => String.eqb (message_id m) (message_id newMsg))
                (messages st)
     then messages st
     else messages st ++ [newMsg])
    st.

(** [from('messages').select('*').eq('match_id', id)
    .order('created_at', { ascending: true })]. *)
Definition select_messages (id : string) (table : list Message) : list Message :=
  order_by (fun a b => created_at a <=? created_at b)
           (List.filter (fun m => String.eqb (match_id m) id) table).

(** [fetchMessages], given the [data] of the reply. *)
Definition fetchMessages (reply : option (list Message)) (st : ChatState)
    : ChatState :=
  let st := setLoading true st in
  let st := match reply with
            | Some rows => setMessages rows st
            | None => st
            end in
  setLoading false st.

(** [String.prototype.trim] on strings of code units below 256. *)
Definition is_white_space (c : ascii) : bool :=
  let n := N_of_ascii c in
  (n =? 9) || (n =? 10) || (n =? 11) || (n =? 12) || (n =? 13)
  || (n =? 32) || (n =? 160).

Fixpoint trimStart (s : string) : string :=
  match s with
  | EmptyString => EmptyString
  | String c s' => if is_white_space c then trimStart s' else s
  end.

Fixpoint trimEnd (s : string) : string :=
  match s with
  | EmptyString => EmptyString
  | String c s' =>
      match trimEnd s' with
      | EmptyString => if is_white_space c then EmptyString else String c EmptyString
      | r => String c r
      end
  end.

Definition trim (s : string) : string := trimEnd (trimStart s).

Definition all_white_space (s : string) : Prop :=
  forall c, In c (list_ascii_of_string s) -> is_white_space c = true.

Section Send.

(** zod's [z.string().uuid()] test, a dependency of the repository. *)
Variable uuid_format : string -> bool.

(** [messageSchema.safeParse({ content, match_id })], lib/validators.ts. *)
Definition messageSchema (content match_id : string) : bool :=
  (1 <=? String.length content)%nat
  && (String.length content <=? 500)%nat
  && uuid_format match_id.

(** [sendMessage] for the chat of match [id]. *)
Definition sendMessage (user : option User) (id : string) (now : N)
    (reply : insert_reply) (st : ChatState)
    (limits : gmap string RateLimiter.RateLimitEntry)
    : ChatState * gmap string RateLimiter.RateLimitEntry * list effect :=
  match user with
  | None => (st, limits, [])
  | Some u =>
      if sending st then (st, limits, [])
      else
        let content := trim (newMessage st) in
        if String.eqb content "" then (st, limits, [])
        else if negb (messageSchema content id) then
          (st, limits, [LoggerWarn "Invalid message format"])
        else
          let (limits, rateLimit) :=
            RateLimiter.check ("message:" +:+ user_id u) RateLimiter.MESSAGE now limits in
          if negb (RateLimiter.allowed rateLimit) then
            (st, limits, [LoggerWarn "Message rate limit exceeded"])
          else
            let st := setSending true (setNewMessage "" st) in
            let sent := [LoggerInfo "Sending message";
                         InsertIntoMessages id (user_id u) content] in
            match reply with
            | InsertOk => (setSending false st, limits, sent)
            | InsertError _ | InsertRejected _ =>
                (setSending false (setNewMessage content st), limits,
                 sent ++ [LoggerError "Failed to send message";
                          CaptureException "send-message"])
            end
  end.

End Send.

(** The order the specification asks of the displayed list: ascending
    [created_at], ties by ascending id. *)
Definition before (a b : Message) : Prop :=
  created_at a < created_at b
  \/ (created_at a = created_at b /\ String.le (message_id a) (message_id b)).

Definition not_later (a b : Message) : Prop := created_at a <= created_at b.

(** The id of [newMsg] is already in the list. *)
Definition known (newMsg : Message) (st : ChatState) : Prop :=
  exists m, In m (messages st) /\ message_id m = message_id newMsg.

(** A message and a freshly opened session, for examples. *)
Definition msg (id : string) (at_ : N) : Message :=
  {| message_id := id; match_id := "m"; sender_id := "u"; content := "hi";
     created_at := at_ |}.

Definition idle : ChatState :=
  {| messages := []; newMessage := ""; loading := true; sending := false |}.

(** The realtime events of a session, handled one after the other. *)
Definition receive (events : list Message) (st : ChatState) : ChatState :=
  fold_left (fun st newMsg => on_insert newMsg st) events st.

(** A draft of [n] letters. *)
Fixpoint letters (n : nat) : string :=
  match n with
  | O => EmptyString
  | S n => String "a" (letters n)
  end.

End Chat.

(** ** The Matches screen: [fetchMatches] *)

Module Matches.
Import Client.

Record ProfileSummary := {
  profile_id : string;
  name : string;
  bio : string;
  skills : list string;
  photo_url : string
}.

(** A row of the first query: [matches.*] with the two joined profiles. *)
Record MatchRow := {
  match_id : string;
  user1_id : string;
  user2_id : string;
  created_at : N;
  profile1 : option ProfileSummary;
  profile2 : option ProfileSummary
}.

(** A row of the second query. *)
Record MessageRow := {
  msg_match_id : string;
  msg_content : string;
  msg_created_at : N;
  msg_sender_id : string
}.

Record LastMessage := {
  last_content : string;
  last_created_at : N
}.

(** An element of the [matches] state, interface [Match]. *)
Record Match := {
  row : MatchRow;
  profile : ProfileSummary;
  lastMessage : option LastMessage;
  unreadCount : nat
}.

Record MatchesState := {
  matches : list Match;
  loading : bool
}.

(** [match?.user1_id === user.id ? match?.user2_id : match?.user1_id];
    [None] is [undefined]. *)
Definition otherUserId (uid : string) (m : option MatchRow) : option string :=
  match m with
  | Some m => Some (if String.eqb (user1_id m) uid then user2_id m else user1_id m)
  | None => None
  end.

(** One round of [messagesData.forEach]: the two Maps are updated. *)
Definition group (uid : string) (rows : list MatchRow)
    (acc : gmap string MessageRow * gmap string nat) (msg : MessageRow)
    : gmap string MessageRow * gmap string nat :=
  let messagesByMatch :=
    match acc.1 !! msg_match_id msg with
    | None => <[msg_match_id msg := msg]> acc.1
    | Some _ => acc.1
    end in
  let found := find (fun m => String.eqb (match_id m) (msg_match_id msg)) rows in
  let unreadCountByMatch :=
    match otherUserId uid found with
    | Some other =>
        if String.eqb (msg_sender_id msg) other then
          let current := default 0%nat (acc.2 !! msg_match_id msg) in
          <[msg_match_id msg := (current + 1)%nat]> acc.2
        else acc.2
    | None => acc.2
    end in
  (messagesByMatch, unreadCountByMatch).

Definition unknown_profile (id : string) : ProfileSummary :=
  {| profile_id := id; name := "Unknown"; bio := ""; skills := [];
     photo_url := "" |}.

(** The body of [data.map((match) => ...)]. *)
Definition with_profile (uid : string)
    (maps : gmap string MessageRow * gmap string nat) (m : MatchRow) : Match :=
  let other := if String.eqb (user1_id m) uid then user2_id m else user1_id m in
  let p := if String.eqb (user1_id m) uid then profile2 m else profile1 m in
  {| row := m;
     profile := default (unknown_profile other) p;
     lastMessage :=
       match maps.1 !! match_id m with
       | Some msg => Some {| last_content := msg_content msg;
                             last_created_at := msg_created_at msg |}
       | None => None
       end;
     unreadCount := default 0%nat (maps.2 !! match_id m) |}.

Definition aggregate (uid : string) (rows : list MatchRow)
    (messagesData : option (list MessageRow)) : list Match :=
  let maps := fold_left (group uid rows) (default [] messagesData) (∅, ∅) in
  List.map (with_profile uid maps) rows.

(** [fetchMatches], given the reply to the first query and the server's
    answer to the second as a function of [matchIds]. *)
Definition fetchMatches (user : option User)
    (first : response (list MatchRow))
    (second : list string -> option (list MessageRow))
    (st : MatchesState) : MatchesState * list effect :=
  match user with
  | None => (st, [])
  | Some u =>
      match error first with
      | Some _ =>
          ({| matches := matches st; loading := false |},
           [ConsoleError "Error fetching matches:"])
      | None =>
          match data first with
          | Some rows =>
              let matchIds := List.map match_id rows in
              ({| matches := aggregate (user_id u) rows (second matchIds);
                  loading := false |}, [])
          | None => ({| matches := matches st; loading := false |}, [])
          end
      end
  end.

(** The two queries over the tables.
    [from('matches').select(...).or('user1_id.eq.uid,user2_id.eq.uid')
    .order('created_at', { ascending: false })] and
    [from('messages').select(...).in('match_id', matchIds)
    .order('created_at', { ascending: false })]. *)
Definition select_matches (uid : string) (table : list MatchRow) : list MatchRow :=
  order_by (fun a b => created_at b <=? created_at a)
           (List.filter (fun m => String.eqb (user1_id m) uid
                                  || String.eqb (user2_id m) uid) table).

Definition select_messages (matchIds : list string) (table : list MessageRow)
    : list MessageRow :=
  order_by (fun a b => msg_created_at b <=? msg_created_at a)
           (List.filter (fun x => existsb (String.eqb (msg_match_id x)) matchIds)
                        table).

(** The test [group] applies before it counts [msg] for the match [k]. *)
Definition counted (uid : string) (rows : list MatchRow) (k : string)
    (msg : MessageRow) : bool :=
  String.eqb (msg_match_id msg) k
  && match otherUserId uid
             (find (fun m => String.eqb (match_id m) (msg_match_id msg)) rows) with
     | Some other => String.eqb (msg_sender_id msg) other
     | None => false
     end.

(** The rows of [messages] that belong to match [k] and were sent by
    [sender]. *)
Definition sent_in (k sender : string) (msg : MessageRow) : bool :=
  String.eqb (msg_match_id msg) k && String.eqb (msg_sender_id msg) sender.

(** Two matches of "me" and their messages, for examples. *)
Definition sample_matches : list MatchRow :=
  [ {| match_id := "k1"; user1_id := "ann"; user2_id := "me"; created_at := 10;
       profile1 := None; profile2 := None |};
    {| match_id := "k2"; user1_id := "me"; user2_id := "zoe"; created_at := 20;
       profile1 := None; profile2 := None |};
    {| match_id := "k3"; user1_id := "ann"; user2_id := "zoe"; created_at := 30;
       profile1 := None; profile2 := None |} ].

Definition sample_messages : list MessageRow :=
  [ {| msg_match_id := "k1"; msg_content := "hello"; msg_created_at := 11;
       msg_sender_id := "ann" |};
    {| msg_match_id := "k1"; msg_content := "hi"; msg_created_at := 12;
       msg_sender_id := "me" |};
    {| msg_match_id := "k1"; msg_content := "project?"; msg_created_at := 13;
       msg_sender_id := "ann" |};
    {| msg_match_id := "k2"; msg_content := "hey"; msg_created_at := 21;
       msg_sender_id := "me" |};
    {| msg_match_id := "k3"; msg_content := "psst"; msg_created_at := 31;
       msg_sender_id := "ann" |} ].

End Matches.

(** ** lib/error-handler.ts *)

Module ErrorHandler.

(** A value caught by [catch]: an [AppError], any other [Error], a string,
    or something else. *)
Inductive thrown :=
  | AppError (message : string) (code : option string) (statusCode : option N)
  | Error (message : string)
  | Text (s : string)
  | Other.

Inductive effect :=
  | LoggerError (message context : string) (errorCode : option string)
  | CaptureException (context : string) (errorCode : option string)
  | Alert (title message : string).

Definition unexpected : string := "An unexpected error occurred".

(** [handleError(error, context, showAlert)]. *)
Definition handleError (error : thrown) (context : string) (showAlert : bool)
    : list effect :=
  let '(errorMessage, errorCode) :=
    match error with
    | AppError m c _ => (m, c)
    | Error m => (m, None)
    | Text s => (s, None)
    | Other => (unexpected, None)
    end in
  [LoggerError ("Error in " +:+ context) context errorCode;
   CaptureException context errorCode]
  ++ (if showAlert then [Alert "Error" errorMessage] else []).

(** [getErrorMessage(error)]. *)
Definition getErrorMessage (error : thrown) : string :=
  match error with
  | AppError m _ _ => m
  | Error m => m
  | Text s => s
  | Other => unexpected
  end.

End ErrorHandler.

(** ** lib/validators.ts: the auth schemas *)

Module Validators.

Definition in_range (lo hi : N) (c : ascii) : bool :=
  (lo <=? N_of_ascii c) && (N_of_ascii c <=? hi).

(** [/[A-Z]/], [/[a-z]/] and [/[0-9]/] found somewhere in the string. *)
Definition has_upper (s : string) : bool :=
  existsb (in_range 65 90) (list_ascii_of_string s).
Definition has_lower (s : string) : bool :=
  existsb (in_range 97 122) (list_ascii_of_string s).
Definition has_digit (s : string) : bool :=
  existsb (in_range 48 57) (list_ascii_of_string s).

Section Zod.

(** zod's [z.string().email()] test, a dependency of the repository. *)
Variable email_format : string -> bool.

(** The messages of the issues [loginSchema] raises, email first. *)
Definition login_issues (email password : string) : list string :=
  (if email_format email then [] else ["Invalid email address"])
  ++ (if (6 <=? String.length password)%nat then []
      else ["Password must be at least 6 characters"]).

Definition loginSchema (email password : string) : bool :=
  email_format email && (6 <=? String.length password)%nat.

Definition signupSchema (email password confirmPassword : string) : bool :=
  email_format email
  && (8 <=? String.length password)%nat
  && has_upper password && has_lower password && has_digit password
  && String.eqb password confirmPassword.

End Zod.

End Validators.

(** ** The Login and Signup screens *)

Module Auth.

Inductive effect :=
  | Alert (title message : string)
  | LoggerInfo (message : string)
  | LoggerError (message : string)
  | CaptureException (context : string)
  | SignInWithPassword (email password : string)
  | SignUp (email password : string)
  | SelectProfile (id : string)
  | RouterReplace (href : string).

(** What [supabase.auth.signInWithPassword] comes back with: an error, a
    user, neither, or a rejection. *)
Inductive sign_in_reply :=
  | SignInError (message : string)
  | SignedIn (id : string)
  | NoUser
  | SignInThrows.

(** The reply to the profile lookup: whether [data] and whether [error]
    are set, or a rejection. *)
Inductive profile_reply :=
  | ProfileReply (found failed : bool)
  | ProfileThrows.

Inductive sign_up_reply :=
  | SignUpError (message : string)
  | SignedUp (hasUser : bool).

Definition newline : string := String (ascii_of_nat 10) EmptyString.

Definition unexpected : list effect :=
  [LoggerError "Unexpected login error"; CaptureException "login";
   Alert "Error" "An unexpected error occurred"].

Section Login.

Variable email_format : string -> bool.

(** [handleLogin], src/unnamed/part_005:541-606; [loading] and the
    limiter's map are threaded through. *)
Definition handleLogin (email password : string) (now : N)
    (reply : sign_in_reply) (lookup : profile_reply) (loading : bool)
    (limits : gmap string RateLimiter.RateLimitEntry)
    : bool * gmap string RateLimiter.RateLimitEntry * list effect :=
  if negb (Validators.loginSchema email_format email password) then
    (loading, limits,
     [Alert "Validation Error"
        (String.concat newline (Validators.login_issues email_format email password))])
  else
    let (limits, rateLimit) :=
      RateLimiter.check ("login:" +:+ email) RateLimiter.LOGIN now limits in
    if negb (RateLimiter.allowed rateLimit) then
      (loading, limits,
       [Alert "Too Many Attempts"
          ("Please try again in "
           +:+ match RateLimiter.retryAfter rateLimit with
               | Some n => pretty n
               | None => "undefined"
               end
           +:+ " seconds")])
    else
      let attempt := [LoggerInfo "Login attempt"; SignInWithPassword email password] in
      match reply with
      | SignInError message =>
          (false, limits,
           attempt ++ [LoggerError "Login failed"; CaptureException "login";
                       Alert "Login Failed" message])
      | SignedIn id =>
          let found := attempt ++ [LoggerInfo "Login successful"; SelectProfile id] in
          match lookup with
          | ProfileReply profile failed =>
              (false, RateLimiter.reset ("login:" +:+ email) limits,
               found
               ++ (if failed then [LoggerError "Profile fetch failed"] else [])
               ++ [RouterReplace (if profile then "/(tabs)" else "/(auth)/onboarding")])
          | ProfileThrows => (false, limits, found ++ unexpected)
          end
      | NoUser => (false, limits, attempt)
      | SignInThrows => (false, limits, attempt ++ unexpected)
      end.

(** Logins tried one after the other with the same credentials, each
    answered by a sign-in error; for each, whether the server was
    asked. *)
Definition asks_server (done : list effect) : bool :=
  existsb (fun e => match e with SignInWithPassword _ _ => true | _ => false end) done.

Fixpoint failed_logins (email password : string) (tries : list (N * string))
    (limits : gmap string RateLimiter.RateLimitEntry) : list bool :=
  match tries with
  | [] => []
  | (now, message) :: tries =>
      let '(_, limits, done) :=
        handleLogin email password now (SignInError message) (ProfileReply false false)
          false limits in
      asks_server done :: failed_logins email password tries limits
  end.

End Login.

(** [handleSignup], src/app/(auth)/signup.tsx:20-43. *)
Definition handleSignup (email password : string) (reply : sign_up_reply)
    (loading : bool) : bool * list effect :=
  if String.eqb email "" || String.eqb password "" then
    (loading, [Alert "Error" "Please fill in all fields"])
  else if (String.length password <? 6)%nat then
    (loading, [Alert "Error" "Password must be at least 6 characters"])
  else
    match reply with
    | SignUpError message =>
        (false, [SignUp email password; Alert "Signup Failed" message])
    | SignedUp true =>
        (false, [SignUp email password; RouterReplace "/(auth)/onboarding"])
    | SignedUp false => (false, [SignUp email password])
    end.

End Auth.

(** ** Choosing skills and interests *)

Module Onboarding.

Definition SKILL_OPTIONS : list string :=
  ["React"; "React Native"; "TypeScript"; "Node.js"; "Python"; "Go"; "Rust";
   "Swift"; "Kotlin"; "Design"; "Product"; "Marketing"].

Definition INTEREST_OPTIONS : list string :=
  ["Mobile Apps"; "Web Apps"; "SaaS"; "Open Source"; "AI/ML"; "Crypto/Web3";
   "Gaming"; "DevTools"; "E-commerce"; "Social"].

(** [toggleSkill] and [toggleInterest], in the Onboarding and the Profile
    screen alike: [prev.includes(x) ? prev.filter(s => s !== x)
    : [...prev, x]]. *)
Definition toggle (x : string) (prev : list string) : list string :=
  if existsb (String.eqb x) prev
  then List.filter (fun s => negb (String.eqb s x)) prev
  else prev ++ [x].

Definition toggleSkill := toggle.
Definition toggleInterest := toggle.

(** The selection after a series of taps, starting with nothing
    selected. *)
Definition taps (xs : list string) : list string :=
  fold_left (fun prev x => toggle x prev) xs [].

End Onboarding.

(** ** The Profile screen, src/app/(tabs)/_layout.tsx *)

Module ProfileScreen.
Import Client.

(** The fields of the edit form, which are also the [profileData] that
    [handleSave] validates and writes. *)
Record ProfileData := {
  name : string;
  bio : string;
  skills : list string;
  interests : list string;
  github_url : string;
  portfolio_url : string;
  photo_url : string
}.

(** A row of [profiles] as a select returns it: every column but [name]
    may be null. *)
Record ProfileRow := {
  row_name : string;
  row_bio : option string;
  row_skills : option (list string);
  row_interests : option (list string);
  row_github_url : option string;
  row_portfolio_url : option string;
  row_photo_url : option string
}.

(** [x || ''] and [x || []]. *)
Definition or_empty (x : option string) : string :=
  match x with Some s => s | None => "" end.

Definition or_nil (x : option (list string)) : list string :=
  match x with Some l => l | None => [] end.

(** The values [fetchProfile] and [handleCancel] put into the form. *)
Definition loaded (data : ProfileRow) : ProfileData :=
  {| name := row_name data;
     bio := or_empty (row_bio data);
     skills := or_nil (row_skills data);
     interests := or_nil (row_interests data);
     github_url := or_empty (row_github_url data);
     portfolio_url := or_empty (row_portfolio_url data);
     photo_url := or_empty (row_photo_url data) |}.

(** The row an update with [validation.data] leaves in the table. *)
Definition written (d : ProfileData) : ProfileRow :=
  {| row_name := name d;
     row_bio := Some (bio d);
     row_skills := Some (skills d);
     row_interests := Some (interests d);
     row_github_url := Some (github_url d);
     row_portfolio_url := Some (portfolio_url d);
     row_photo_url := Some (photo_url d) |}.

(** The screen's state; [edit] groups [editName], [editBio], [editSkills],
    [editInterests], [editGithubUrl], [editPortfolioUrl] and
    [editPhotoUrl]. *)
Record ProfileState := {
  profile : option ProfileRow;
  loading : bool;
  isEditing : bool;
  saving : bool;
  uploading : bool;
  edit : ProfileData
}.

Definition initial : ProfileState :=
  {| profile := None; loading := true; isEditing := false; saving := false;
     uploading := false;
     edit := {| name := ""; bio := ""; skills := []; interests := [];
                github_url := ""; portfolio_url := ""; photo_url := "" |} |}.

Definition setLoading (b : bool) (st : ProfileState) : ProfileState :=
  {| profile := profile st; loading := b; isEditing := isEditing st;
     saving := saving st; uploading := uploading st; edit := edit st |}.

Definition setIsEditing (b : bool) (st : ProfileState) : ProfileState :=
  {| profile := profile st; loading := loading st; isEditing := b;
     saving := saving st; uploading := uploading st; edit := edit st |}.

Definition setSaving (b : bool) (st : ProfileState) : ProfileState :=
  {| profile := profile st; loading := loading st; isEditing := isEditing st;
     saving := b; uploading := uploading st; edit := edit st |}.

Definition setUploading (b : bool) (st : ProfileState) : ProfileState :=
  {| profile := profile st; loading := loading st; isEditing := isEditing st;
     saving := saving st; uploading := b; edit := edit st |}.

Definition setEdit (d : ProfileData) (st : ProfileState) : ProfileState :=
  {| profile := profile st; loading := loading st; isEditing := isEditing st;
     saving := saving st; uploading := uploading st; edit := d |}.

Definition setEditPhotoUrl (url : string) (st : ProfileState) : ProfileState :=
  setEdit {| name := name (edit st); bio := bio (edit st);
             skills := skills (edit st); interests := interests (edit st);
             github_url := github_url (edit st);
             portfolio_url := portfolio_url (edit st);
             photo_url := url |} st.

(** What the user types or taps in the form. *)
Inductive input :=
  | SetEditName (s : string)
  | SetEditBio (s : string)
  | ToggleSkill (s : string)
  | ToggleInterest (s : string)
  | SetEditGithubUrl (s : string)
  | SetEditPortfolioUrl (s : string).

Definition change (i : input) (d : ProfileData) : ProfileData :=
  match i with
  | SetEditName s =>
      {| name := s; bio := bio d; skills := skills d; interests := interests d;
         github_url := github_url d; portfolio_url := portfolio_url d;
         photo_url := photo_url d |}
  | SetEditBio s =>
      {| name := name d; bio := s; skills := skills d; interests := interests d;
         github_url := github_url d; portfolio_url := portfolio_url d;
         photo_url := photo_url d |}
  | ToggleSkill s =>
      {| name := name d; bio := bio d; skills := Onboarding.toggleSkill s (skills d);
         interests := interests d;
         github_url := github_url d; portfolio_url := portfolio_url d;
         photo_url := photo_url d |}
  | ToggleInterest s =>
      {| name := name d; bio := bio d; skills := skills d;
         interests := Onboarding.toggleInterest s (interests d);
         github_url := github_url d; portfolio_url := portfolio_url d;
         photo_url := photo_url d |}
  | SetEditGithubUrl s =>
      {| name := name d; bio := bio d; skills := skills d; interests := interests d;
         github_url := s; portfolio_url := portfolio_url d;
         photo_url := photo_url d |}
  | SetEditPortfolioUrl s =>
      {| name := name d; bio := bio d; skills := skills d; interests := interests d;
         github_url := github_url d; portfolio_url := s;
         photo_url := photo_url d |}
  end.

Inductive effect :=
  | Alert (title message : string)
  | LoggerInfo (message : string)
  | LoggerError (message : string)
  | CaptureException (context : string)
  | SelectProfile (id : string)
  | UpdateProfile (id : string) (data : ProfileData)
  | StorageUpload (filePath uri : string).

(** The [{ data, error }] of the profile select, or a rejection. *)
Inductive fetch_reply :=
  | FetchReply (failed : bool) (data : option ProfileRow)
  | FetchThrows.

(** [fetchProfile]; a rejected select leaves [loading] set. *)
Definition fetchProfile (user : option User) (reply : fetch_reply)
    (st : ProfileState) : ProfileState :=
  match user with
  | None => st
  | Some _ =>
      match reply with
      | FetchReply false (Some data) =>
          setLoading false
            {| profile := Some data; loading := true; isEditing := isEditing st;
               saving := saving st; uploading := uploading st;
               edit := loaded data |}
      | FetchReply _ _ => setLoading false (setLoading true st)
      | FetchThrows => setLoading true st
      end
  end.

Definition handleEdit (st : ProfileState) : ProfileState := setIsEditing true st.

Definition handleCancel (st : ProfileState) : ProfileState :=
  setIsEditing false
    match profile st with
    | Some p => setEdit (loaded p) st
    | None => st
    end.

(** [optimizeImage] of lib/image-utils.ts, given what
    [ImageManipulator.manipulateAsync] comes back with: the new uri, or
    nothing when it rejects. *)
Definition optimizeImage (manipulated : option string)
    : option string * list effect :=
  match manipulated with
  | Some uri =>
      (Some uri, [LoggerInfo "Optimizing image"; LoggerInfo "Image optimized successfully"])
  | None =>
      (None, [LoggerInfo "Optimizing image"; LoggerError "Failed to optimize image";
              CaptureException "image-optimization"])
  end.

Definition upload_failed : list effect :=
  [LoggerError "Image upload failed"; CaptureException "image-upload";
   Alert "Error" "Failed to upload photo"].

(** [uploadImage]: [now] is the time of the limiter's check, [stamp] the
    [Date.now()] of the file name, [uploadError] whether the upload came
    back with an error or rejected. *)
Definition uploadImage (user : option User) (now stamp : N)
    (manipulated : option string) (uploadError : bool) (publicUrl : string)
    (st : ProfileState) (limits : gmap string RateLimiter.RateLimitEntry)
    : ProfileState * gmap string RateLimiter.RateLimitEntry * list effect :=
  match user with
  | None => (st, limits, [])
  | Some user =>
      let (limits, rateLimit) :=
        RateLimiter.check ("image-upload:" +:+ user_id user)
          RateLimiter.IMAGE_UPLOAD now limits in
      if negb (RateLimiter.allowed rateLimit) then
        (st, limits,
         [Alert "Upload Limit"
            ("Please wait "
             +:+ match RateLimiter.retryAfter rateLimit with
                 | Some n => pretty n
                 | None => "undefined"
                 end
             +:+ " seconds before uploading again")])
      else
        let (optimizedUri, logged) := optimizeImage manipulated in
        let started := LoggerInfo "Optimizing image" :: logged in
        match optimizedUri with
        | None => (setUploading false st, limits, started ++ upload_failed)
        | Some "" => (setUploading false st, limits, started ++ upload_failed)
        | Some optimizedUri =>
            let filePath := user_id user +:+ "-" +:+ pretty stamp +:+ ".jpg" in
            let sent := started ++ [LoggerInfo "Uploading image to storage";
                                    StorageUpload filePath optimizedUri] in
            if uploadError then (setUploading false st, limits, sent ++ upload_failed)
            else
              (setUploading false (setEditPhotoUrl publicUrl st), limits,
               sent ++ [LoggerInfo "Image uploaded successfully";
                        Alert "Success" "Photo uploaded! Remember to save your profile."])
        end
  end.

Section Save.

(** zod's [z.string().url()] test and its rendering of the issues of a
    rejected form, dependencies of the repository. *)
Variable url_format : string -> bool.
Variable profile_issues : ProfileData -> string.

Definition url_or_empty (s : string) : bool := url_format s || String.eqb s "".

(** [profileSchema]. *)
Definition profileSchema (d : ProfileData) : bool :=
  (1 <=? String.length (name d))%nat && (String.length (name d) <=? 100)%nat
  && (String.length (bio d) <=? 500)%nat
  && (1 <=? length (skills d))%nat && (length (skills d) <=? 20)%nat
  && (1 <=? length (interests d))%nat && (length (interests d) <=? 20)%nat
  && url_or_empty (github_url d)
  && url_or_empty (portfolio_url d)
  && url_or_empty (photo_url d).

(** [handleSave]; [updateError] is whether the update came back with an
    error or rejected, [refetch] the reply to the [fetchProfile] it
    starts after a successful update.  [fetchProfile()] is not awaited:
    its select leaves once [handleSave] has come to its end, so after
    the alert. *)
Definition handleSave (user : option User) (now : N) (updateError : bool)
    (refetch : fetch_reply) (st : ProfileState)
    (limits : gmap string RateLimiter.RateLimitEntry)
    : ProfileState * gmap string RateLimiter.RateLimitEntry * list effect :=
  match user with
  | None => (st, limits, [])
  | Some u =>
      let profileData := edit st in
      if negb (profileSchema profileData) then
        (st, limits, [Alert "Validation Error" (profile_issues profileData)])
      else
        let (limits, rateLimit) :=
          RateLimiter.check ("profile-update:" +:+ user_id u)
            RateLimiter.PROFILE_UPDATE now limits in
        if negb (RateLimiter.allowed rateLimit) then
          (st, limits,
           [Alert "Too Fast" "Please wait a moment before updating again"])
        else
          let sent := [LoggerInfo "Updating profile";
                       UpdateProfile (user_id u) profileData] in
          if updateError then
            (setSaving false st, limits,
             sent ++ [LoggerError "Profile update failed";
                      CaptureException "profile-update";
                      Alert "Error" "Failed to update profile"])
          else
            (setSaving false (fetchProfile user refetch (setIsEditing false st)),
             limits,
             sent ++ [LoggerInfo "Profile updated successfully";
                      Alert "Success" "Profile updated successfully";
                      SelectProfile (user_id u)])
  end.

(** What happens on the screen, one event after the other. *)
Inductive event :=
  | Fetch (reply : fetch_reply)
  | Edit
  | Cancel
  | Input (i : input)
  | Upload (now stamp : N) (manipulated : option string) (uploadError : bool)
           (publicUrl : string)
  | Save (now : N) (updateError : bool) (refetch : fetch_reply).

Definition react (user : option User) (e : event)
    (s : ProfileState * gmap string RateLimiter.RateLimitEntry)
    : ProfileState * gmap string RateLimiter.RateLimitEntry :=
  let (st, limits) := s in
  match e with
  | Fetch reply => (fetchProfile user reply st, limits)
  | Edit => (handleEdit st, limits)
  | Cancel => (handleCancel st, limits)
  | Input i => (setEdit (change i (edit st)) st, limits)
  | Upload now stamp manipulated uploadError publicUrl =>
      (uploadImage user now stamp manipulated uploadError publicUrl st limits).1
  | Save now updateError refetch =>
      (handleSave user now updateError refetch st limits).1
  end.

Definition session (user : option User) (events : list event)
    (s : ProfileState * gmap string RateLimiter.RateLimitEntry)
    : ProfileState * gmap string RateLimiter.RateLimitEntry :=
  fold_left (fun s e => react user e s) events s.

(** Events without a successful fetch: entering edit mode, input,
    uploads, and saves that are turned away or whose update fails. *)
Definition unsaved (e : event) : bool :=
  match e with
  | Input _ | Upload _ _ _ _ _ | Edit => true
  | Save _ updateError _ => updateError
  | Fetch _ | Cancel => false
  end.

End Save.

End ProfileScreen.

(** * Properties *)

(** ** The database *)

Module DbFacts.
Import Db.

(** Case analysis on every comparison of ids in the goal. *)
Ltac split_eqb :=
  repeat match goal with
         | |- context [N.eqb ?x ?y] => destruct (N.eqb_spec x y); subst; simpl
         end.

(** *** Fresh ids and the two inserts *)

Lemma fold_max_bound (l : list uuid) (x : uuid) :
  In x l -> x <= fold_right N.max 0 l.
Proof.
  induction l as [|y l IH]; simpl; [tauto|].
  intros [->|Hx]; [lia|]. specialize (IH Hx). lia.
Qed.

Lemma gen_random_uuid_fresh {A} (f : A -> uuid) (l : list A) :
  existsb (fun r => f r =? gen_random_uuid (List.map f l)) l = false.
Proof.
  apply not_true_is_false. intros H.
  apply existsb_exists in H as (r & Hr & Heq).
  apply N.eqb_eq in Heq.
  assert (f r <= fold_right N.max 0 (List.map f l))
    by (apply fold_max_bound, in_map, Hr).
  unfold gen_random_uuid in Heq. lia.
Qed.

Lemma insert_into_matches_ok c now u1 u2 s :
  u1 < u2 ->
  insert_into_matches c now u1 u2 s =
  Done (Database (swipes s)
          (matches s ++ [Match (gen_random_uuid (List.map match_id (matches s))) u1 u2 now])
          (notices s)).
Proof.
  intros H. unfold insert_into_matches.
  apply N.ltb_lt in H. rewrite H. simpl.
  now rewrite gen_random_uuid_fresh.
Qed.

Lemma insert_into_matches_check c now u1 u2 s :
  ~ u1 < u2 -> insert_into_matches c now u1 u2 s = Raised check_violation.
Proof.
  intros H. unfold insert_into_matches.
  apply N.ltb_nlt in H. now rewrite H.
Qed.

Lemma LEAST_lt_GREATEST u t : u <> t -> LEAST u t < GREATEST u t.
Proof. unfold LEAST, GREATEST. lia. Qed.

(** *** The CHECK constraint holds in every reachable state *)

Lemma insert_into_matches_ordered c now u1 u2 s s' :
  ordered s -> insert_into_matches c now u1 u2 s = Done s' -> ordered s'.
Proof.
  unfold insert_into_matches, ordered. intros Hs.
  destruct (u1 <? u2) eqn:Hlt; simpl; [|discriminate].
  destruct (existsb _ _); [destruct c; [|discriminate]|];
    intros [= <-]; simpl; [assumption|].
  apply Forall_app. split; [assumption|].
  constructor; [|constructor]. simpl. now apply N.ltb_lt.
Qed.

Lemma trigger_ordered d now NEW s s' :
  ordered s -> trigger_create_match_on_mutual_like d now NEW s = Done s' ->
  ordered s'.
Proof.
  intros Hs. destruct d; simpl.
  - unfold Schema.create_match_on_mutual_like.
    destruct (is_like NEW), (reverse_like_exists NEW s);
      try (intros [= <-]; assumption).
    apply insert_into_matches_ordered, Hs.
  - unfold FixMatches.create_match_on_mutual_like,
      FixMatches.exception_when_others.
    destruct (FixMatches.body now NEW s) as [s1|e] eqn:Hb;
      intros [= <-]; [|exact Hs].
    revert Hb. unfold FixMatches.body.
    destruct (is_like NEW), (reverse_like_exists NEW s);
      try (intros [= <-]; assumption).
    destruct (existsb _ _); simpl; [intros [= <-]; assumption|].
    apply insert_into_matches_ordered, Hs.
Qed.

Lemma step_ordered d s q : ordered s -> ordered (step d s q).
Proof.
  intros Hs. destruct q as [now u t l|now u1 u2]; simpl; unfold execute.
  - destruct (insert_into_swipes d now u t l s) as [s'|e] eqn:E; simpl; [|exact Hs].
    revert E. unfold insert_into_swipes.
    destruct (existsb _ _); [discriminate|].
    destruct (existsb _ _); [discriminate|].
    apply trigger_ordered. exact Hs.
  - destruct (insert_into_matches true now u1 u2 s) as [s'|e] eqn:E; simpl; [|exact Hs].
    eapply insert_into_matches_ordered; eassumption.
Qed.

Lemma run_ordered d h s : ordered s -> ordered (run d h s).
Proof.
  revert s. induction h as [|q h IH]; intros s Hs; simpl; [exact Hs|].
  apply IH, step_ordered, Hs.
Qed.

(** *** Matches are derived from mutual likes *)

Lemma likes_spec s a b : likes s a b = true <-> directed_like s a b.
Proof.
  unfold likes, directed_like. rewrite existsb_exists.
  split; intros (w & Hw & H); exists w; (split; [exact Hw|]).
  - apply andb_true_iff in H as [H Hl]. apply andb_true_iff in H as [Hu Ht].
    apply N.eqb_eq in Hu, Ht. auto.
  - destruct H as (-> & -> & ->). now rewrite !N.eqb_refl.
Qed.

Lemma likes_le_swiped s a b : swiped s a b = false -> likes s a b = false.
Proof.
  unfold swiped, likes. intros H. apply not_true_is_false. intros H'.
  apply existsb_exists in H' as (w & Hw & Hb).
  apply andb_true_iff in Hb as [Hb _].
  assert (existsb (fun w => (user_id w =? a) && (target_user_id w =? b)) (swipes s) = true)
    by (apply existsb_exists; eauto).
  congruence.
Qed.

Lemma likes_snoc sw w ms ns a b :
  likes (Database (sw ++ [w]) ms ns) a b =
  likes (Database sw ms ns) a b
  || ((user_id w =? a) && (target_user_id w =? b) && is_like w).
Proof. unfold likes. simpl. rewrite existsb_app. simpl. now rewrite orb_false_r. Qed.

Lemma likes_swipes_only s s' a b :
  swipes s' = swipes s -> likes s' a b = likes s a b.
Proof. unfold likes. now intros ->. Qed.

Lemma count_key_snoc sw ms m ns a b :
  count_key a b (Database sw (ms ++ [m]) ns) =
  (count_key a b (Database sw ms ns) + if has_key a b m then 1 else 0)%nat.
Proof.
  unfold count_key. simpl. rewrite List.filter_app, length_app. simpl.
  now destruct (has_key a b m).
Qed.

Lemma count_key_matches_only s s' a b :
  matches s' = matches s -> count_key a b s' = count_key a b s.
Proof. unfold count_key. now intros ->. Qed.

Lemma count_key_zero a b s :
  count_key a b s = 0%nat -> existsb (has_key a b) (matches s) = false.
Proof.
  unfold count_key. intros H. apply not_true_is_false. intros He.
  apply existsb_exists in He as (m & Hm & Hk).
  assert (In m (List.filter (has_key a b) (matches s))) as Hin
    by (apply filter_In; auto).
  destruct (List.filter (has_key a b) (matches s)); [destruct Hin | discriminate].
Qed.

Lemma reverse_like_exists_likes NEW s :
  reverse_like_exists NEW s = likes s (target_user_id NEW) (user_id NEW).
Proof. reflexivity. Qed.

Lemma both_like_false_no_key s a b :
  derived s -> a < b -> both_like s a b = false ->
  existsb (has_key a b) (matches s) = false.
Proof.
  intros Hd Hab Hb. apply count_key_zero. rewrite (Hd a b Hab). now rewrite Hb.
Qed.

(** What a committed swipe insert does to the two tables: the row is
    appended, and a match row is appended exactly when the swipe is a like
    of somebody else who already liked back. *)
Lemma insert_into_swipes_effect d now u t l s s' :
  derived s ->
  insert_into_swipes d now u t l s = Done s' ->
  swiped s u t = false
  /\ swipes s' =
     swipes s ++ [Swipe (gen_random_uuid (List.map swipe_id (swipes s))) u t l now]
  /\ matches s' =
     matches s ++
       (if l && likes s t u && negb (u =? t)
        then [Match (gen_random_uuid (List.map match_id (matches s)))
                    (LEAST u t) (GREATEST u t) now]
        else []).
Proof.
  intros Hd. unfold insert_into_swipes.
  fold (swiped s u t). destruct (swiped s u t) eqn:Hsw; [discriminate|].
  rewrite gen_random_uuid_fresh.
  set (NEW := Swipe _ u t l now). set (s1 := Database _ _ _).
  assert (Hrev : reverse_like_exists NEW s1 = likes s t u || ((u =? t) && l)).
  { rewrite reverse_like_exists_likes. unfold s1, NEW. rewrite likes_snoc. simpl.
    rewrite (likes_swipes_only s (Database (swipes s) (matches s) (notices s))) by reflexivity.
    rewrite (N.eqb_sym t u). now destruct (u =? t), l. }
  intros H. split; [reflexivity|].
  assert (Hno : u <> t -> existsb (has_key (LEAST u t) (GREATEST u t)) (matches s) = false).
  { intros Hne. apply both_like_false_no_key; [exact Hd|now apply LEAST_lt_GREATEST|].
    apply likes_le_swiped in Hsw. unfold both_like, LEAST, GREATEST.
    destruct (N.min_spec u t) as [[? ->]|[? ->]], (N.max_spec u t) as [[? ->]|[? ->]];
      try lia; rewrite Hsw; [reflexivity | apply andb_false_r]. }
  destruct d; simpl in H.
  - unfold Schema.create_match_on_mutual_like in H. simpl in H.
    rewrite Hrev in H.
    destruct l; simpl in *; [|injection H as <-; simpl; rewrite app_nil_r; auto].
    destruct (N.eqb_spec u t) as [->|Hne]; simpl in *.
    + rewrite orb_true_r in H.
      rewrite insert_into_matches_check in H by (unfold LEAST, GREATEST; lia).
      discriminate.
    + rewrite orb_false_r in H. rewrite andb_true_r.
      destruct (likes s t u); simpl in *;
        [|injection H as <-; simpl; rewrite app_nil_r; auto].
      rewrite insert_into_matches_ok in H by now apply LEAST_lt_GREATEST.
      injection H as <-. simpl. auto.
  - unfold FixMatches.create_match_on_mutual_like,
      FixMatches.exception_when_others, FixMatches.body in H.
    simpl in H. rewrite Hrev in H.
    destruct l; simpl in *; [|injection H as <-; simpl; rewrite app_nil_r; auto].
    destruct (N.eqb_spec u t) as [->|Hne]; simpl in *.
    + rewrite orb_true_r, andb_false_r in *. simpl.
      rewrite insert_into_matches_check in H by (unfold LEAST, GREATEST; lia).
      destruct (existsb _ (matches s)); simpl in H; injection H as <-; simpl;
        rewrite app_nil_r; auto.
    + rewrite orb_false_r in H. rewrite andb_true_r.
      destruct (likes s t u); simpl in *;
        [|injection H as <-; simpl; rewrite app_nil_r; auto].
      fold (has_key (LEAST u t) (GREATEST u t)) in H.
      change (existsb _ (matches s)) with
        (existsb (has_key (LEAST u t) (GREATEST u t)) (matches s)) in H.
      rewrite (Hno Hne) in H. simpl in H.
      rewrite insert_into_matches_ok in H by now apply LEAST_lt_GREATEST.
      injection H as <-. simpl. auto.
Qed.

Lemma likes_after_append s s' w a b :
  swipes s' = swipes s ++ [w] ->
  likes s' a b =
  likes s a b || ((user_id w =? a) && (target_user_id w =? b) && is_like w).
Proof.
  intros H. unfold likes. rewrite H, existsb_app. simpl. now rewrite orb_false_r.
Qed.

Lemma insert_into_swipes_derived d now u t l s s' :
  derived s -> insert_into_swipes d now u t l s = Done s' -> derived s'.
Proof.
  intros Hd H. destruct (insert_into_swipes_effect _ _ _ _ _ _ _ Hd H)
    as (Hsw & Hswipes & Hmatches).
  apply likes_le_swiped in Hsw.
  intros a b Hab. specialize (Hd a b Hab).
  unfold count_key in *. rewrite Hmatches, List.filter_app, length_app, Hd.
  unfold both_like.
  rewrite !(likes_after_append s s' _ _ _ Hswipes). simpl.
  unfold has_key, LEAST, GREATEST.
  destruct l; simpl; rewrite ?andb_false_r, ?orb_false_r; simpl;
    [|now rewrite Nat.add_0_r].
  destruct (likes s t u) eqn:Htu; simpl.
  - destruct (N.min_spec u t) as [[? ->]|[? ->]], (N.max_spec u t) as [[? ->]|[? ->]];
      try lia; split_eqb; try lia;
      rewrite ?Hsw, ?Htu; simpl; rewrite ?andb_false_r, ?orb_false_r, ?andb_true_r;
      try reflexivity; try lia.
  - split_eqb; try lia;
      rewrite ?Hsw, ?Htu; simpl; rewrite ?andb_false_r, ?orb_false_r, ?andb_true_r;
      try reflexivity; try lia.
Qed.

Lemma step_derived d s q :
  is_swipe_insert q = true -> derived s -> derived (step d s q).
Proof.
  destruct q as [now u t l|]; [intros _ Hd|discriminate]. simpl. unfold execute.
  destruct (insert_into_swipes d now u t l s) eqn:E; simpl; [|exact Hd].
  eapply insert_into_swipes_derived; eassumption.
Qed.

Lemma run_derived d h s :
  forallb is_swipe_insert h = true -> derived s -> derived (run d h s).
Proof.
  revert s. induction h as [|q h IH]; intros s Hh Hd; simpl; [exact Hd|].
  simpl in Hh. apply andb_true_iff in Hh as [Hq Hh].
  apply IH; [exact Hh|]. now apply step_derived.
Qed.

Lemma empty_db_derived : derived empty_db.
Proof. intros a b _. reflexivity. Qed.

Lemma empty_db_ordered : ordered empty_db.
Proof. constructor. Qed.

Lemma of_pair_key A B m :
  user1_id m < user2_id m ->
  of_pair A B m = has_key (LEAST A B) (GREATEST A B) m.
Proof.
  intros Hm. unfold of_pair, has_key, LEAST, GREATEST.
  destruct (N.min_spec A B) as [[? ->]|[? ->]], (N.max_spec A B) as [[? ->]|[? ->]];
    try lia; split_eqb; try reflexivity; lia.
Qed.

Lemma filter_of_pair A B s :
  ordered s ->
  List.filter (of_pair A B) (matches s) =
  List.filter (has_key (LEAST A B) (GREATEST A B)) (matches s).
Proof.
  intros Ho. apply filter_ext_in. intros m Hm.
  apply of_pair_key. exact (proj1 (List.Forall_forall _ _) Ho m Hm).
Qed.

Lemma both_like_canonical s A B :
  both_like s (LEAST A B) (GREATEST A B) = both_like s A B.
Proof.
  unfold both_like, LEAST, GREATEST.
  destruct (N.min_spec A B) as [[? ->]|[? ->]], (N.max_spec A B) as [[? ->]|[? ->]];
    try lia; subst; try reflexivity; apply andb_comm.
Qed.

(** In a state that satisfies the CHECK constraint and in which matches
    are derived from mutual likes, and for two distinct users A and B: a
    match row for the pair {A, B} exists exactly when both directed likes
    exist; there is at most one such row, and it carries the key
    (min, max). *)
Lemma derived_match_iff_mutual_like (s : db) (A B : uuid) :
  ordered s ->
  derived s ->
  A <> B ->
  ((exists m, In m (matches s) /\ of_pair A B m = true)
   <-> (directed_like s A B /\ directed_like s B A))
  /\ (length (List.filter (of_pair A B) (matches s)) <= 1)%nat
  /\ (forall m, In m (matches s) -> of_pair A B m = true ->
        user1_id m = N.min A B /\ user2_id m = N.max A B).
Proof.
  intros Ho Hd HAB.
  specialize (Hd _ _ (LEAST_lt_GREATEST A B HAB)).
  unfold count_key in Hd. rewrite <- (filter_of_pair A B s Ho) in Hd.
  rewrite both_like_canonical in Hd.
  rewrite <- !likes_spec. unfold both_like in Hd.
  split; [split|split].
  - intros (m & Hm & Hp).
    assert (In m (List.filter (of_pair A B) (matches s))) as Hin
      by (apply filter_In; auto).
    destruct (likes s A B), (likes s B A); simpl in Hd; auto;
      destruct (List.filter (of_pair A B) (matches s)); try discriminate;
      destruct Hin.
  - intros [H1 H2]. rewrite H1, H2 in Hd. simpl in Hd.
    destruct (List.filter (of_pair A B) (matches s)) as [|m ms] eqn:E;
      [discriminate|].
    assert (In m (List.filter (of_pair A B) (matches s))) as Hin
      by (rewrite E; left; reflexivity).
    apply filter_In in Hin. eauto.
  - rewrite Hd. destruct (likes s A B && likes s B A); lia.
  - intros m Hin Hp.
    pose proof (proj1 (List.Forall_forall _ _) Ho m Hin) as Hm.
    rewrite (of_pair_key A B m Hm) in Hp. unfold has_key, LEAST, GREATEST in Hp.
    apply andb_true_iff in Hp as [H1 H2]. apply N.eqb_eq in H1, H2. auto.
Qed.

(** C3.  In every state reached from the empty database by swipe
    insertions and direct insertions into [matches], every match row has
    user1_id < user2_id. *)
Theorem match_key_strictly_ordered (d : deployment) (h : list statement) :
  Forall (fun m => user1_id m < user2_id m) (matches (run d h empty_db)).
Proof. apply run_ordered, empty_db_ordered. Qed.

(** *** Resubmitting a swipe *)

Lemma trigger_keeps_swipes d now NEW s s' :
  trigger_create_match_on_mutual_like d now NEW s = Done s' ->
  swipes s' = swipes s.
Proof.
  assert (Hi : forall c u1 u2 s1, insert_into_matches c now u1 u2 s = Done s1 ->
                                  swipes s1 = swipes s).
  { intros c u1 u2 s1. unfold insert_into_matches.
    destruct (u1 <? u2); simpl; [|discriminate].
    destruct (existsb _ _); [destruct c; [|discriminate]|]; now intros [= <-]. }
  destruct d; simpl.
  - unfold Schema.create_match_on_mutual_like.
    destruct (is_like NEW), (reverse_like_exists NEW s); try (now intros [= <-]).
    apply Hi.
  - unfold FixMatches.create_match_on_mutual_like,
      FixMatches.exception_when_others.
    destruct (FixMatches.body now NEW s) as [s1|e] eqn:Hb;
      intros [= <-]; [|reflexivity].
    revert Hb. unfold FixMatches.body.
    destruct (is_like NEW), (reverse_like_exists NEW s); try (now intros [= <-]).
    destruct (existsb _ _); simpl; [now intros [= <-]|]. apply Hi.
Qed.

Lemma committed_swipe_is_stored d now u t l s s' :
  insert_into_swipes d now u t l s = Done s' ->
  swiped s u t = false
  /\ swipes s' =
     swipes s ++ [Swipe (gen_random_uuid (List.map swipe_id (swipes s))) u t l now].
Proof.
  unfold insert_into_swipes. fold (swiped s u t).
  destruct (swiped s u t); [discriminate|].
  rewrite gen_random_uuid_fresh. intros H.
  apply trigger_keeps_swipes in H. auto.
Qed.

Lemma swiped_after_append s s' w :
  swipes s' = swipes s ++ [w] ->
  swiped s' (user_id w) (target_user_id w) = true.
Proof.
  intros H. unfold swiped. rewrite H, existsb_app. simpl.
  rewrite !N.eqb_refl. apply orb_true_r.
Qed.

(** C5.  Once a swipe row for the ordered pair (actor, target) is in the
    table, submitting a swipe for the same pair again, whatever its
    decision, fails with a unique violation and leaves the whole
    database, swipes and matches alike, as it was. *)
Theorem resubmitted_swipe_conflicts (d : deployment) (s : db) (w : swipe)
    (now : timestamptz) (l : bool) :
  In w (swipes s) ->
  execute (insert_into_swipes d now (user_id w) (target_user_id w) l) s
  = (s, Some unique_violation).
Proof.
  intros Hw. unfold execute, insert_into_swipes.
  replace (existsb _ (swipes s)) with true; [reflexivity|].
  symmetry. apply existsb_exists. exists w. now rewrite !N.eqb_refl.
Qed.

Lemma resubmitted_swipe_conflicts_witness :
  let first := Swipe 1 1 2 true 10 in
  let s1 := Database [first] [] [] in
  execute (insert_into_swipes schema_sql 10 1 2 true) empty_db = (s1, None)
  /\ In first (swipes s1)
  /\ execute (insert_into_swipes schema_sql 11 1 2 false) s1
     = (s1, Some unique_violation).
Proof.
  intros first s1. split; [reflexivity|]. split; [now left|].
  apply (resubmitted_swipe_conflicts schema_sql s1 first 11 false). now left.
Defined.

(** A committed swipe is in the table, so the same pair cannot be
    committed twice in a row. *)
Lemma committed_then_resubmitted d s s1 now now' u t l l' :
  execute (insert_into_swipes d now u t l) s = (s1, None) ->
  execute (insert_into_swipes d now' u t l') s1 = (s1, Some unique_violation).
Proof.
  unfold execute at 1.
  destruct (insert_into_swipes d now u t l s) as [s2|e] eqn:E; [|discriminate].
  intros [= <-]. apply committed_swipe_is_stored in E as [_ E].
  apply swiped_after_append in E. simpl in E.
  unfold execute, insert_into_swipes. fold (swiped s2 u t). now rewrite E.
Qed.

(** *** Failures inside the trigger *)

(** Whatever the guarded block raises, the handler of fix-matches.sql
    turns it into a warning and a normal return. *)
Lemma exception_when_others_catches (block : db -> exec db) (s : db) (e : sqlstate) :
  block s = Raised e ->
  FixMatches.exception_when_others block s =
  Done (Database (swipes s) (matches s) (notices s ++ [e])).
Proof. intros H. unfold FixMatches.exception_when_others. now rewrite H. Qed.

Lemma exception_when_others_returns (block : db -> exec db) (s : db) :
  exists s', FixMatches.exception_when_others block s = Done s'.
Proof.
  unfold FixMatches.exception_when_others. destruct (block s); eauto.
Qed.

(** With the trigger function of fix-matches.sql installed, a swipe that
    passes the constraints of [swipes] is always committed. *)
Lemma fix_matches_swipe_commits now u t l s :
  swiped s u t = false ->
  exists s',
    execute (insert_into_swipes fix_matches_sql now u t l) s = (s', None)
    /\ swipes s' =
       swipes s ++ [Swipe (gen_random_uuid (List.map swipe_id (swipes s))) u t l now].
Proof.
  intros Hsw. unfold execute.
  destruct (insert_into_swipes fix_matches_sql now u t l s) as [s'|e] eqn:E.
  - exists s'. split; [reflexivity|]. now apply committed_swipe_is_stored in E.
  - exfalso. revert E. unfold insert_into_swipes. fold (swiped s u t).
    rewrite Hsw, gen_random_uuid_fresh. simpl.
    unfold FixMatches.create_match_on_mutual_like.
    match goal with
    | |- FixMatches.exception_when_others ?b ?x = _ -> _ =>
        destruct (exception_when_others_returns b x) as [s' ->]
    end.
    discriminate.
Qed.

(** C9.  The schema's trigger function has no exception handler: when its
    insert into [matches] raises, here on the CHECK constraint for a like
    of oneself, the swipe insert is aborted and nothing is stored.  The
    function as redefined in fix-matches.sql catches the same failure,
    and the swipe is committed with a warning. *)
Theorem schema_trigger_failure_aborts_swipe :
  execute (insert_into_swipes schema_sql 10 1 1 true) empty_db
  = (empty_db, Some check_violation)
  /\ execute (insert_into_swipes fix_matches_sql 10 1 1 true) empty_db
     = (Database [Swipe 1 1 1 true 10] [] [check_violation], None).
Proof. split; reflexivity. Qed.

(** *** Swipes on oneself *)

Lemma self_insert_into_matches_raises c now A s :
  insert_into_matches c now (LEAST A A) (GREATEST A A) s = Raised check_violation.
Proof. apply insert_into_matches_check. unfold LEAST, GREATEST. lia. Qed.

Lemma self_swipe_adds_no_match d now A l s :
  matches (fst (execute (insert_into_swipes d now A A l) s)) = matches s.
Proof.
  unfold execute.
  destruct (insert_into_swipes d now A A l s) as [s'|e] eqn:E; [|reflexivity].
  simpl. revert E. unfold insert_into_swipes.
  destruct (existsb _ _); [discriminate|].
  destruct (existsb _ _); [discriminate|].
  set (NEW := Swipe _ A A l now). set (s1 := Database _ _ _).
  destruct d; simpl.
  - unfold Schema.create_match_on_mutual_like.
    destruct (is_like NEW), (reverse_like_exists NEW s1); try (now intros [= <-]).
    simpl. now rewrite self_insert_into_matches_raises.
  - unfold FixMatches.create_match_on_mutual_like,
      FixMatches.exception_when_others, FixMatches.body.
    destruct (is_like NEW), (reverse_like_exists NEW s1); try (now intros [= <-]).
    destruct (existsb _ _); simpl; [now intros [= <-]|].
    rewrite self_insert_into_matches_raises. now intros [= <-].
Qed.

(** *** The scenarios of the specification, as the owner's statements *)

Example X_then_Y (d : deployment) :
  matches (run d [InsertSwipe 1 0x11111111111111111111111111111111
                                0x22222222222222222222222222222222 true;
                  InsertSwipe 2 0x22222222222222222222222222222222
                                0x11111111111111111111111111111111 true]
             empty_db)
  = [Match 1 0x11111111111111111111111111111111
             0x22222222222222222222222222222222 2].
Proof. destruct d; reflexivity. Qed.

Example Y_then_X (d : deployment) :
  matches (run d [InsertSwipe 1 0x22222222222222222222222222222222
                                0x11111111111111111111111111111111 true;
                  InsertSwipe 2 0x11111111111111111111111111111111
                                0x22222222222222222222222222222222 true]
             empty_db)
  = [Match 1 0x11111111111111111111111111111111
             0x22222222222222222222222222222222 2].
Proof. destruct d; reflexivity. Qed.

Example one_sided_or_passed (d : deployment) :
  matches (run d [InsertSwipe 1 1 2 true; InsertSwipe 2 2 1 false;
                  InsertSwipe 3 3 4 false; InsertSwipe 4 4 3 false;
                  InsertSwipe 5 5 6 true]
             empty_db)
  = [].
Proof. destruct d; reflexivity. Qed.

(** A direct insert into [matches] is not deduplicated on the pair: the
    table has no unique constraint ON CONFLICT could react to. *)
Example direct_inserts_repeat_a_pair (d : deployment) :
  matches (run d [InsertMatch 1 1 2; InsertMatch 2 1 2; InsertMatch 3 2 1] empty_db)
  = [Match 1 1 2 1; Match 2 1 2 2].
Proof. destruct d; reflexivity. Qed.

End DbFacts.

(** ** ORDER BY *)

Module OrderFacts.
Import Client.

Section Order.
Context {A : Type} (le : A -> A -> bool).
Hypothesis le_total : forall a b, le a b = true \/ le b a = true.

Lemma insert_by_perm (x : A) (l : list A) : Permutation (insert_by le x l) (x :: l).
Proof.
  induction l as [|y l IH]; simpl; [reflexivity|].
  destruct (le x y); [reflexivity|].
  rewrite IH. apply perm_swap.
Qed.

Lemma order_by_perm (l : list A) : Permutation (order_by le l) l.
Proof.
  induction l as [|x l IH]; simpl; [reflexivity|].
  unfold order_by in *. simpl. rewrite insert_by_perm. now constructor.
Qed.

Lemma insert_by_HdRel (a x : A) (l : list A) :
  le a x = true ->
  HdRel (fun a b => le a b = true) a l ->
  HdRel (fun a b => le a b = true) a (insert_by le x l).
Proof.
  intros Hax Hl. destruct l as [|y l]; simpl; [now constructor|].
  destruct (le x y); constructor; [exact Hax|].
  now inversion Hl.
Qed.

Lemma insert_by_sorted (x : A) (l : list A) :
  Sorted (fun a b => le a b = true) l ->
  Sorted (fun a b => le a b = true) (insert_by le x l).
Proof.
  induction 1 as [|y l Hs IH Hhd]; simpl; [repeat constructor|].
  destruct (le x y) eqn:E.
  - constructor; [now constructor|]. now constructor.
  - constructor; [exact IH|].
    apply insert_by_HdRel; [|exact Hhd].
    destruct (le_total x y) as [H|H]; [congruence|exact H].
Qed.

Lemma order_by_sorted (l : list A) :
  Sorted (fun a b => le a b = true) (order_by le l).
Proof.
  induction l as [|x l IH]; simpl; [constructor|].
  now apply insert_by_sorted.
Qed.

End Order.

End OrderFacts.

(** ** The Chat screen *)

Module ChatFacts.
Import Client Chat.

(** *** Deduplication of realtime events *)

Lemma known_spec newMsg st :
  existsb (fun m => String.eqb (message_id m) (message_id newMsg)) (messages st) = true
  <-> known newMsg st.
Proof.
  unfold known. rewrite existsb_exists.
  split; intros (m & Hm & H); exists m; (split; [exact Hm|]);
    now apply String.eqb_eq.
Qed.

Lemma on_insert_known newMsg st : known newMsg st -> on_insert newMsg st = st.
Proof.
  intros H. apply known_spec in H. unfold on_insert. rewrite H.
  now destruct st.
Qed.

Lemma on_insert_new newMsg st :
  ~ known newMsg st -> messages (on_insert newMsg st) = messages st ++ [newMsg].
Proof.
  intros H. unfold on_insert. simpl.
  destruct (existsb _ _) eqn:E; [|reflexivity].
  apply known_spec in E. contradiction.
Qed.

(** The ids of the list stay pairwise distinct. *)
Lemma on_insert_NoDup newMsg st :
  List.NoDup (List.map message_id (messages st)) ->
  List.NoDup (List.map message_id (messages (on_insert newMsg st))).
Proof.
  intros Hnd. destruct (existsb (fun m => String.eqb (message_id m) (message_id newMsg))
                          (messages st)) eqn:E.
  - apply known_spec in E. now rewrite on_insert_known.
  - rewrite on_insert_new.
    + rewrite List.map_app. simpl.
      apply List.NoDup_app; repeat split; [exact Hnd|repeat constructor; now intros []|].
      intros x Hx [<-|[]]. apply in_map_iff in Hx as (m & Hm & Hin).
      assert (known newMsg st) as Hk by (exists m; auto).
      apply known_spec in Hk. congruence.
    + intros Hk. apply known_spec in Hk. congruence.
Qed.

(** C6.  An event whose id is already in the list leaves the session as
    it is; an event with a new id is appended at the end; and after a
    fetch of m1, m2, an event for m2 once more and an event for a new m3,
    the list is m1, m2, m3. *)
Theorem realtime_events_deduplicated :
  (forall newMsg st,
      (exists m, In m (messages st) /\ message_id m = message_id newMsg) ->
      on_insert newMsg st = st)
  /\ (forall newMsg st,
        (forall m, In m (messages st) -> message_id m <> message_id newMsg) ->
        messages (on_insert newMsg st) = messages st ++ [newMsg])
  /\ (forall st m1 m2 again m3,
        message_id again = message_id m2 ->
        message_id m3 <> message_id m1 ->
        message_id m3 <> message_id m2 ->
        messages (on_insert m3 (on_insert again (fetchMessages (Some [m1; m2]) st)))
        = [m1; m2; m3]).
Proof.
  split; [|split].
  - intros newMsg st H. now apply on_insert_known.
  - intros newMsg st H. apply on_insert_new. intros (m & Hm & He).
    exact (H m Hm He).
  - intros st m1 m2 again m3 Ha H1 H2.
    rewrite (on_insert_known again).
    + rewrite on_insert_new; [reflexivity|].
      intros (m & [<-|[<-|[]]] & He); simpl in *; congruence.
    + exists m2. simpl. auto.
Qed.

Lemma realtime_events_deduplicated_witness :
  on_insert (msg "m2" 2) (fetchMessages (Some [msg "m1" 1; msg "m2" 2]) idle)
  = fetchMessages (Some [msg "m1" 1; msg "m2" 2]) idle
  /\ messages (on_insert (msg "m3" 3) (fetchMessages (Some [msg "m1" 1; msg "m2" 2]) idle))
     = [msg "m1" 1; msg "m2" 2] ++ [msg "m3" 3]
  /\ messages (on_insert (msg "m3" 3)
                (on_insert (msg "m2" 2)
                   (fetchMessages (Some [msg "m1" 1; msg "m2" 2]) idle)))
     = [msg "m1" 1; msg "m2" 2; msg "m3" 3].
Proof.
  destruct realtime_events_deduplicated as (Hknown & Hnew & Hscenario).
  split; [|split].
  - apply Hknown. exists (msg "m2" 2). simpl. auto.
  - apply (Hnew (msg "m3" 3)). simpl. intros m [<-|[<-|[]]]; discriminate.
  - apply Hscenario; [reflexivity|discriminate|discriminate].
Defined.

(** *** Order of the displayed list *)

Lemma Sorted_weaken {A} (R R' : A -> A -> Prop) (l : list A) :
  (forall a b, R a b -> R' a b) -> Sorted R l -> Sorted R' l.
Proof.
  intros HR. induction 1 as [|x l Hs IH Hhd]; constructor; [exact IH|].
  destruct Hhd; constructor. now apply HR.
Qed.

Lemma Sorted_snoc {A} (R : A -> A -> Prop) (l : list A) (x : A) :
  Sorted R l -> (forall y, In y l -> R y x) -> Sorted R (l ++ [x]).
Proof.
  induction 1 as [|y l Hs IH Hhd]; intros Hx; simpl; [repeat constructor|].
  constructor.
  - apply IH. intros z Hz. apply Hx. now right.
  - destruct Hhd; simpl; constructor; [|assumption]. apply Hx. now left.
Qed.

Lemma select_messages_sorted id table : Sorted not_later (select_messages id table).
Proof.
  unfold select_messages.
  eapply Sorted_weaken; [|apply OrderFacts.order_by_sorted].
  - intros a b H. simpl in H. now apply N.leb_le in H.
  - intros a b. simpl. rewrite !N.leb_le. lia.
Qed.

(** C7, as the code has it.  The fetched list is in ascending order of
    [created_at]; an event with a new id goes to the end of the list
    whatever its timestamp; the list is still in ascending order of
    [created_at] afterwards if no displayed message is later than the new
    one. *)
Theorem displayed_order_by_design :
  (forall id table st,
      Sorted not_later
        (messages (fetchMessages (Some (select_messages id table)) st)))
  /\ (forall newMsg st,
        (forall m, In m (messages st) -> message_id m <> message_id newMsg) ->
        messages (on_insert newMsg st) = messages st ++ [newMsg])
  /\ (forall newMsg st,
        Sorted not_later (messages st) ->
        (forall m, In m (messages st) -> created_at m <= created_at newMsg) ->
        Sorted not_later (messages (on_insert newMsg st))).
Proof.
  split; [|split].
  - intros id table st. simpl. apply select_messages_sorted.
  - intros newMsg st H. apply on_insert_new. intros (m & Hm & He).
    exact (H m Hm He).
  - intros newMsg st Hs Hle. unfold on_insert. simpl.
    destruct (existsb _ _); [exact Hs|].
    apply Sorted_snoc; [exact Hs|]. intros y Hy. apply Hle, Hy.
Qed.

Lemma displayed_order_by_design_witness :
  let st := fetchMessages (Some (select_messages "m" [msg "b" 5; msg "a" 3])) idle in
  messages st = [msg "a" 3; msg "b" 5]
  /\ messages (on_insert (msg "c" 5) st) = messages st ++ [msg "c" 5]
  /\ Sorted not_later (messages (on_insert (msg "c" 5) st)).
Proof.
  intros st. destruct displayed_order_by_design as (Hfetch & Hnew & Hlive).
  split; [reflexivity|]. split.
  - apply Hnew. simpl. intros m [<-|[<-|[]]]; discriminate.
  - apply Hlive.
    + apply (Hfetch "m" [msg "b" 5; msg "a" 3] idle).
    + simpl. intros m [<-|[<-|[]]]; simpl; lia.
Defined.

(** The claim C7 itself fails: an event carrying the timestamp of the last
    displayed message and a smaller id ends up after it, and an event
    older than the last displayed message ends up after it as well. *)
Lemma live_event_breaks_order :
  let st := fetchMessages (Some [msg "b" 5]) idle in
  ~ Sorted before (messages (on_insert (msg "a" 5) st))
  /\ ~ Sorted before (messages (on_insert (msg "c" 4) st))
  /\ ~ Sorted not_later (messages (on_insert (msg "c" 4) st)).
Proof.
  simpl. repeat split; intros H; inversion H as [|? ? _ Hhd]; subst;
    inversion Hhd as [|? ? Hr]; subst; unfold before, not_later in Hr; simpl in Hr.
  - destruct Hr as [Hr|[_ Hr]]; [lia|]. exact Hr.
  - destruct Hr as [Hr|[Hr _]]; lia.
  - lia.
Qed.

(** *** Sending *)

Lemma trimStart_prefix s :
  exists pre, s = (pre ++ trimStart s)%string /\ all_white_space pre.
Proof.
  induction s as [|c s (pre & Hs & Hpre)]; simpl.
  - exists EmptyString. split; [reflexivity|]. intros c [].
  - destruct (is_white_space c) eqn:E.
    + exists (String c pre). split;
        [change (String c s = String c (pre +:+ trimStart s)); now f_equal|].
      intros c' [<-|H]; [exact E|now apply Hpre].
    + exists EmptyString. split; [reflexivity|]. intros c' [].
Qed.

Lemma trimEnd_suffix s :
  exists post, s = (trimEnd s ++ post)%string /\ all_white_space post.
Proof.
  induction s as [|c s (post & Hs & Hpost)]; simpl.
  - exists EmptyString. split; [reflexivity|]. intros c [].
  - destruct (trimEnd s) as [|c' r] eqn:E.
    + change (s = post) in Hs. subst post. destruct (is_white_space c) eqn:Ec.
      * exists (String c s). split; [reflexivity|].
        intros c' [<-|H]; [exact Ec|now apply Hpost].
      * exists s. split; [reflexivity|exact Hpost].
    + exists post. split; [|exact Hpost].
      change (String c s = String c (String c' r +:+ post)). now f_equal.
Qed.

(** [trim] drops white space at the two ends and nothing else. *)
Lemma trim_only_strips s :
  exists pre post,
    s = (pre ++ trim s ++ post)%string
    /\ all_white_space pre /\ all_white_space post.
Proof.
  destruct (trimStart_prefix s) as (pre & Hs & Hpre).
  destruct (trimEnd_suffix (trimStart s)) as (post & Ht & Hpost).
  exists pre, post. unfold trim. now rewrite <- Ht.
Qed.

(** Only validated content is ever sent: it is the trimmed draft, it has
    between 1 and 500 characters, and the match id has the uuid format. *)
Lemma sendMessage_sends_valid (uuid_format : string -> bool) user id now reply st
    (limits : gmap string RateLimiter.RateLimitEntry) m sender c :
  In (InsertIntoMessages m sender c)
     (sendMessage uuid_format user id now reply st limits).2 ->
  m = id
  /\ user = Some {| user_id := sender |}
  /\ c = trim (newMessage st)
  /\ (1 <= String.length c <= 500)%nat
  /\ uuid_format id = true.
Proof.
  unfold sendMessage. destruct user as [[uid]|]; [|intros []].
  destruct (sending st); [intros []|].
  destruct (String.eqb _ _); [intros []|].
  destruct (messageSchema _ _ _) eqn:Ev; simpl; [|intros [?|[]]; discriminate].
  destruct (RateLimiter.check _ _ _ _) as [limits1 rateLimit].
  destruct (RateLimiter.allowed rateLimit); simpl; [|intros [?|[]]; discriminate].
  unfold messageSchema in Ev.
  apply andb_true_iff in Ev as [Ev Hu]. apply andb_true_iff in Ev as [H1 H2].
  apply Nat.leb_le in H1, H2.
  destruct reply; simpl; intros H;
    repeat match type of H with _ \/ _ => destruct H as [H|H] end;
    try discriminate; try contradiction;
    injection H as <- <- <-; repeat split; auto.
Qed.

(** The 501-character message of the specification's scenario is turned
    down before any insert, and the draft stays in the input field. *)
Example too_long_is_not_sent :
  let st := {| messages := []; newMessage := letters 501;
               loading := false; sending := false |} in
  sendMessage (fun _ => true) (Some {| user_id := "x" |}) "match" 7 InsertOk st ∅
  = (st, ∅, [LoggerWarn "Invalid message format"]).
Proof. vm_compute. reflexivity. Qed.

Example hello_is_sent :
  let st := {| messages := []; newMessage := "hello";
               loading := false; sending := false |} in
  (sendMessage (fun _ => true) (Some {| user_id := "x" |}) "match" 7 InsertOk st ∅).2
  = [LoggerInfo "Sending message"; InsertIntoMessages "match" "x" "hello"].
Proof. reflexivity. Qed.

(** C8.  When [sendMessage] has issued its insert and the insert fails,
    by an error in the reply or by a rejection, the input field holds the
    submitted content again, which is the draft without the white space
    around it; the failure is logged and passed to [captureException];
    the message list is untouched and the session is ready to send
    again. *)
Theorem failed_send_restores_draft (uuid_format : string -> bool)
    (user : option User) (id : string) (now : N) (reply : insert_reply)
    (st st' : ChatState)
    (limits limits' : gmap string RateLimiter.RateLimitEntry)
    (effects : list effect) :
  sendMessage uuid_format user id now reply st limits = (st', limits', effects) ->
  (exists sender content, In (InsertIntoMessages id sender content) effects) ->
  reply <> InsertOk ->
  newMessage st' = trim (newMessage st)
  /\ (exists pre post,
        newMessage st = (pre ++ newMessage st' ++ post)%string
        /\ all_white_space pre /\ all_white_space post)
  /\ messages st' = messages st
  /\ sending st' = false
  /\ loading st' = loading st
  /\ In (LoggerError "Failed to send message") effects
  /\ In (CaptureException "send-message") effects.
Proof.
  intros H (sender & content & Hins) Hfail.
  assert (Hnone : forall w, ~ In (InsertIntoMessages id sender content) [LoggerWarn w])
    by (intros w [?|[]]; discriminate).
  unfold sendMessage in H.
  destruct user as [u|]; [|injection H as <- <- <-; destruct Hins].
  destruct (sending st); [injection H as <- <- <-; destruct Hins|].
  destruct (String.eqb _ _); [injection H as <- <- <-; destruct Hins|].
  destruct (messageSchema _ _ _); simpl in H;
    [|injection H as <- <- <-; now apply Hnone in Hins].
  destruct (RateLimiter.check _ _ _ _) as [limits1 rateLimit].
  destruct (RateLimiter.allowed rateLimit); simpl in H;
    [|injection H as <- <- <-; now apply Hnone in Hins].
  destruct reply as [|e|e]; [contradiction| |];
    injection H as <- <- <-; simpl;
    (split; [reflexivity|]); (split; [apply trim_only_strips|]);
    repeat split; auto.
Qed.

Lemma failed_send_restores_draft_witness :
  let st := {| messages := [msg "m1" 1]; newMessage := "  hello ";
               loading := false; sending := false |} in
  let r := sendMessage (fun _ => true) (Some {| user_id := "x" |}) "match"
             7 (InsertError "denied") st ∅ in
  r.1.1 = {| messages := [msg "m1" 1]; newMessage := "hello";
             loading := false; sending := false |}
  /\ newMessage r.1.1 = trim (newMessage st)
  /\ In (CaptureException "send-message") r.2.
Proof.
  intros st r. split; [reflexivity|].
  destruct (failed_send_restores_draft (fun _ => true) (Some {| user_id := "x" |})
              "match" 7 (InsertError "denied") st r.1.1 ∅ r.1.2 r.2)
    as (Hdraft & _ & _ & _ & _ & _ & Hreport).
  - reflexivity.
  - exists "x", "hello". vm_compute. auto.
  - discriminate.
  - split; assumption.
Defined.

End ChatFacts.

(** ** The Matches screen *)

Module MatchesFacts.
Import Client Matches.

Lemma group_unread uid rows acc msg k :
  default 0%nat ((group uid rows acc msg).2 !! k) =
  (default 0%nat (acc.2 !! k) + if counted uid rows k msg then 1 else 0)%nat.
Proof.
  unfold group, counted. simpl.
  destruct (otherUserId uid _) as [other|];
    [destruct (String.eqb (msg_sender_id msg) other)|];
    destruct (String.eqb_spec (msg_match_id msg) k) as [<-|Hk]; simpl;
    rewrite ?lookup_insert_eq, ?lookup_insert_ne by exact Hk; simpl; lia.
Qed.

Lemma fold_group_unread uid rows msgs acc k :
  default 0%nat ((fold_left (group uid rows) msgs acc).2 !! k) =
  (default 0%nat (acc.2 !! k) + length (List.filter (counted uid rows k) msgs))%nat.
Proof.
  revert acc. induction msgs as [|msg msgs IH]; intros acc; simpl; [lia|].
  rewrite IH, group_unread. destruct (counted uid rows k msg); simpl; lia.
Qed.

Lemma find_by_id rows m :
  List.NoDup (List.map match_id rows) -> In m rows ->
  find (fun r => String.eqb (match_id r) (match_id m)) rows = Some m.
Proof.
  induction rows as [|r rows IH]; simpl; [intros _ []|].
  intros Hnd Hin. inversion Hnd as [|? ? Hr Hnd']; subst.
  destruct Hin as [->|Hin]; [now rewrite String.eqb_refl|].
  destruct (String.eqb_spec (match_id r) (match_id m)) as [E|_]; [|now apply IH].
  exfalso. apply Hr. rewrite E. now apply in_map.
Qed.

Lemma counted_sent_in uid rows m peer msg :
  List.NoDup (List.map match_id rows) -> In m rows ->
  uid = user1_id m \/ uid = user2_id m ->
  peer = user1_id m \/ peer = user2_id m ->
  peer <> uid ->
  counted uid rows (match_id m) msg = sent_in (match_id m) peer msg.
Proof.
  intros Hnd Hin Hu Hp Hne. unfold counted, sent_in.
  destruct (String.eqb_spec (msg_match_id msg) (match_id m)) as [->|_];
    [|reflexivity].
  rewrite (find_by_id rows m Hnd Hin). simpl. f_equal.
  destruct (String.eqb_spec (user1_id m) uid) as [E|E]; f_equal;
    destruct Hu, Hp; congruence.
Qed.

Lemma filter_length_perm {A} (f : A -> bool) (l l' : list A) :
  Permutation l l' -> length (List.filter f l) = length (List.filter f l').
Proof.
  induction 1 as [|x l l' _ IH|x y l|l l' l'' _ IH1 _ IH2]; simpl.
  - reflexivity.
  - destruct (f x); simpl; now rewrite IH.
  - destruct (f x), (f y); reflexivity.
  - now rewrite IH1.
Qed.

Lemma filter_filter_narrow {A} (f g : A -> bool) (l : list A) :
  (forall x, f x = true -> g x = true) ->
  List.filter f (List.filter g l) = List.filter f l.
Proof.
  intros Hfg. induction l as [|x l IH]; simpl; [reflexivity|].
  destruct (g x) eqn:Eg; simpl; destruct (f x) eqn:Ef; try now rewrite IH.
  apply Hfg in Ef. congruence.
Qed.

Lemma filter_length_le {A} (f g : A -> bool) (l : list A) :
  (forall x, f x = true -> g x = true) ->
  (length (List.filter f l) <= length (List.filter g l))%nat.
Proof.
  intros Hfg. induction l as [|x l IH]; simpl; [lia|].
  destruct (f x) eqn:Ef.
  - rewrite (Hfg x Ef). simpl. lia.
  - destruct (g x); simpl; lia.
Qed.

Lemma select_matches_rows uid table m :
  List.NoDup (List.map match_id table) ->
  In m (select_matches uid table) ->
  List.NoDup (List.map match_id (select_matches uid table))
  /\ (uid = user1_id m \/ uid = user2_id m).
Proof.
  intros Hnd Hin. unfold select_matches in *.
  set (le := fun a b => created_at b <=? created_at a) in *.
  set (rows := List.filter _ table) in *.
  pose proof (OrderFacts.order_by_perm le rows) as Hp.
  split.
  - eapply Permutation_NoDup; [symmetry; apply Permutation_map, Hp|].
    unfold rows. clear -Hnd. induction table as [|r table IH]; simpl; [constructor|].
    inversion Hnd as [|? ? Hr Hnd']; subst.
    destruct (_ || _); [|now apply IH]. simpl. constructor; [|now apply IH].
    intros Hin. apply Hr. apply in_map_iff in Hin as (x & <- & Hx).
    apply filter_In in Hx as [Hx _]. now apply in_map.
  - apply (Permutation_in _ Hp) in Hin. apply filter_In in Hin as [_ Hin].
    apply orb_true_iff in Hin as [Hin|Hin]; apply String.eqb_eq in Hin; auto.
Qed.

Lemma select_messages_count ids table k sender :
  In k ids ->
  length (List.filter (sent_in k sender) (select_messages ids table)) =
  length (List.filter (sent_in k sender) table).
Proof.
  intros Hk. unfold select_messages.
  rewrite (filter_length_perm _ _ _ (OrderFacts.order_by_perm _ _)).
  rewrite filter_filter_narrow; [reflexivity|].
  intros x Hx. unfold sent_in in Hx. apply andb_true_iff in Hx as [Hx _].
  apply existsb_exists. exists k. auto.
Qed.

(** C10.  For each entry of the list [fetchMatches] builds from the two
    tables, the unread count is the number of rows of [messages] that
    belong to that match and were sent by the other participant; rows
    sent by the user are not in it, and nothing is ever taken off. *)
Theorem unread_count_is_total_from_peer (u : User)
    (matches_table : list MatchRow) (messages_table : list MessageRow)
    (st : MatchesState) (e : Match) (peer : string) :
  List.NoDup (List.map match_id matches_table) ->
  In e (matches (fst (fetchMatches (Some u)
                        (Response (Some (select_matches (user_id u) matches_table)) None)
                        (fun matchIds => Some (select_messages matchIds messages_table))
                        st))) ->
  peer = user1_id (row e) \/ peer = user2_id (row e) ->
  peer <> user_id u ->
  unreadCount e =
    length (List.filter (sent_in (match_id (row e)) peer) messages_table)
  /\ (unreadCount e <=
      length (List.filter
                (fun x => String.eqb (msg_match_id x) (match_id (row e))
                          && negb (String.eqb (msg_sender_id x) (user_id u)))
                messages_table))%nat.
Proof.
  intros Hnd Hin Hpeer Hne. simpl in Hin. unfold aggregate in Hin.
  apply in_map_iff in Hin as (m & <- & Hm). simpl.
  destruct (select_matches_rows _ _ _ Hnd Hm) as [Hrows Hu].
  rewrite fold_group_unread. simpl.
  rewrite (List.filter_ext _ _ (fun msg => counted_sent_in _ _ m peer msg Hrows Hm Hu Hpeer Hne)).
  rewrite select_messages_count by now apply in_map.
  split; [reflexivity|].
  apply filter_length_le. intros x Hx. unfold sent_in in Hx.
  apply andb_true_iff in Hx as [H1 H2]. rewrite H1. simpl.
  apply String.eqb_eq in H2. apply negb_true_iff, String.eqb_neq. congruence.
Qed.

Lemma unread_count_is_total_from_peer_witness :
  let shown :=
    matches (fst (fetchMatches (Some {| user_id := "me" |})
                    (Response (Some (select_matches "me" sample_matches)) None)
                    (fun matchIds => Some (select_messages matchIds sample_messages))
                    {| matches := []; loading := true |})) in
  List.map (fun e => (match_id (row e), unreadCount e)) shown = [("k2", 0%nat); ("k1", 2%nat)]
  /\ forall e, In e shown -> match_id (row e) = "k1" ->
       unreadCount e = length (List.filter (sent_in "k1" "ann") sample_messages).
Proof.
  intros shown. split; [reflexivity|].
  intros e He Hk.
  destruct (unread_count_is_total_from_peer {| user_id := "me" |}
              sample_matches sample_messages {| matches := []; loading := true |}
              e "ann") as [Hcount _].
  - repeat constructor; simpl; intuition discriminate.
  - exact He.
  - simpl in He. destruct He as [<-|[<-|[]]]; [discriminate Hk|]. now left.
  - discriminate.
  - now rewrite <- Hk.
Defined.

End MatchesFacts.

(** ** The Discover screen and swipes on oneself *)

Module DiscoverFacts.
Import Client Discover.

Lemma in_firstn {A} (n : nat) (l : list A) (x : A) : In x (firstn n l) -> In x l.
Proof.
  revert l. induction n as [|n IH]; intros [|y l]; simpl; try tauto.
  intros [->|H]; auto.
Qed.

Lemma select_candidates_excludes_self uid excluded table p :
  In p (select_candidates uid excluded table) -> profile_id p <> uid.
Proof.
  unfold select_candidates. intros H. apply in_firstn, filter_In in H as [_ H].
  apply andb_true_iff in H as [H _]. now apply negb_true_iff, String.eqb_neq in H.
Qed.

Lemma fetchProfiles_no_self u swipedUsers table st :
  no_self u st ->
  no_self u (fst (fetchProfiles (Some u) swipedUsers
                    (candidates_from (user_id u) table) st)).
Proof.
  intros Hst. unfold fetchProfiles.
  destruct (error swipedUsers); [exact Hst|].
  destruct table as [rows|]; simpl; [|exact Hst].
  intros p Hp. eapply select_candidates_excludes_self, Hp.
Qed.

Lemma fetchProfiles_no_insert u swipedUsers candidates st actor target l :
  ~ In (InsertIntoSwipes actor target l)
       (snd (fetchProfiles (Some u) swipedUsers candidates st)).
Proof.
  unfold fetchProfiles.
  destruct (error swipedUsers); simpl; [intros [?|[?|[]]]; discriminate|].
  destruct (error (candidates _)); simpl; [intros [?|[?|[]]]; discriminate|].
  destruct (data (candidates _)); simpl; tauto.
Qed.

Lemma handleSwipe_profiles u isLike now reply st limits :
  profiles (handleSwipe (Some u) isLike now reply st limits).1.1 = profiles st.
Proof.
  unfold handleSwipe. destruct (swiping st); [reflexivity|].
  destruct (profiles st !! currentIndex st); [|reflexivity].
  destruct (RateLimiter.check _ _ _ _) as [limits1 rateLimit].
  destruct (RateLimiter.allowed rateLimit); simpl; [|reflexivity].
  destruct reply; reflexivity.
Qed.

Lemma handleSwipe_target u isLike now reply st limits actor target l :
  In (InsertIntoSwipes actor target l)
     (handleSwipe (Some u) isLike now reply st limits).2 ->
  actor = user_id u
  /\ l = isLike
  /\ exists p, profiles st !! currentIndex st = Some p /\ target = profile_id p.
Proof.
  unfold handleSwipe. destruct (swiping st); [intros []|].
  destruct (profiles st !! currentIndex st) as [p|] eqn:E; [|intros []].
  destruct (RateLimiter.check _ _ _ _) as [limits1 rateLimit].
  destruct (RateLimiter.allowed rateLimit); simpl;
    [|intros [?|[]]; discriminate].
  destruct reply; simpl; intros H;
    repeat match type of H with _ \/ _ => destruct H as [H|H] end;
    try discriminate; try contradiction;
    injection H as <- <- <-; eauto.
Qed.

Lemma act_invariant u x a :
  no_self u x.1.1 /\ only_others u x.2 ->
  no_self u (act u x a).1.1 /\ only_others u (act u x a).2.
Proof.
  destruct x as [[st limits] log]. intros [Hst Hlog]. cbn [fst snd] in Hst, Hlog.
  destruct a as [swipedUsers table|isLike now reply]; unfold act.
  - pose proof (fetchProfiles_no_self u swipedUsers table st Hst) as Hst'.
    pose proof (fetchProfiles_no_insert u swipedUsers
                  (candidates_from (user_id u) table) st) as Hno.
    destruct (fetchProfiles _ _ _ _) as [st' done]. simpl in *.
    split; [exact Hst'|]. intros actor target l Hin.
    apply in_app_iff in Hin as [Hin|Hin]; [exact (Hlog _ _ _ Hin)|].
    now apply Hno in Hin.
  - pose proof (handleSwipe_profiles u isLike now reply st limits) as Hp.
    pose proof (handleSwipe_target u isLike now reply st limits) as Ht.
    destruct (handleSwipe _ _ _ _ _ _) as [[st' limits'] done]. simpl in *.
    split.
    + intros p Hin. apply Hst. now rewrite <- Hp.
    + intros actor target l Hin.
      apply in_app_iff in Hin as [Hin|Hin]; [exact (Hlog _ _ _ Hin)|].
      apply Ht in Hin as (-> & _ & p & Hp' & ->). split; [reflexivity|].
      apply Hst. apply list_elem_of_In. eapply list_elem_of_lookup_2, Hp'.
Qed.

Lemma session_invariant u actions :
  no_self u (session u actions).1.1 /\ only_others u (session u actions).2.
Proof.
  unfold session.
  assert (H : no_self u (initial, (∅ : gmap string RateLimiter.RateLimitEntry),
                         ([] : list effect)).1.1
              /\ only_others u (initial, (∅ : gmap string RateLimiter.RateLimitEntry),
                               ([] : list effect)).2)
    by (split; [intros p []|intros a t l []]).
  revert H. generalize (initial, (∅ : gmap string RateLimiter.RateLimitEntry),
                        ([] : list effect)).
  induction actions as [|a actions IH]; intros x Hx; simpl; [exact Hx|].
  apply IH, act_invariant, Hx.
Qed.

(** On a failed insert the screen stays on the same profile and reports
    the failure. *)
Lemma handleSwipe_failed u isLike now reply st limits p :
  swiping st = false ->
  profiles st !! currentIndex st = Some p ->
  RateLimiter.allowed
    (RateLimiter.check ("swipe:" +:+ user_id u) RateLimiter.SWIPE now limits).2 = true ->
  reply <> InsertOk ->
  let r := handleSwipe (Some u) isLike now reply st limits in
  currentIndex r.1.1 = currentIndex st
  /\ swiping r.1.1 = false
  /\ In (CaptureException "swipe") r.2.
Proof.
  intros Hs Hp Ha Hr. unfold handleSwipe. rewrite Hs, Hp.
  destruct (RateLimiter.check _ _ _ _) as [limits1 rateLimit]. simpl in Ha.
  rewrite Ha. simpl. destruct reply; [contradiction| |]; simpl; auto 10.
Qed.

(** C4, as the code has it.  A swipe on oneself never adds a match row,
    whichever trigger function is installed; and in a session of the
    Discover screen every insert into [swipes] that [handleSwipe] issues
    has the user as actor and somebody else as target. *)
Theorem self_swipe_by_design :
  (forall d now A l s,
      Db.matches (fst (Db.execute (Db.insert_into_swipes d now A A l) s))
      = Db.matches s)
  /\ (forall u actions actor target l,
        In (InsertIntoSwipes actor target l) (session u actions).2 ->
        actor = user_id u /\ target <> actor).
Proof.
  split.
  - apply DbFacts.self_swipe_adds_no_match.
  - intros u actions. apply session_invariant.
Qed.

(** The claim C4 itself fails: the table takes a pass on oneself. *)
Lemma self_pass_is_stored :
  Db.execute (Db.insert_into_swipes Db.schema_sql 7 1 1 false) Db.empty_db
  = (Db.Database [Db.Swipe 1 1 1 false 7] [] [], None)
  /\ Db.execute (Db.insert_into_swipes Db.fix_matches_sql 7 1 1 false) Db.empty_db
     = (Db.Database [Db.Swipe 1 1 1 false 7] [] [], None).
Proof. split; reflexivity. Qed.

Lemma self_swipe_by_design_witness :
  let log := (session {| user_id := "me" |}
                [FetchProfiles (Response (Some []) None)
                               (Some [person "me"; person "ann"]);
                 HandleSwipe true 5 InsertOk]).2 in
  log = [LoggerInfo "Swipe action"; InsertIntoSwipes "me" "ann" true]
  /\ "me" = user_id {| user_id := "me" |}
  /\ "ann" <> "me".
Proof.
  intros log. split; [reflexivity|].
  destruct self_swipe_by_design as [_ H].
  apply (H {| user_id := "me" |}
           [FetchProfiles (Response (Some []) None)
                          (Some [person "me"; person "ann"]);
            HandleSwipe true 5 InsertOk]
           "me" "ann" true).
  right. left. reflexivity.
Defined.

End DiscoverFacts.

(** ** The database as the server runs it: roles, policies, foreign keys *)

Module SecuredFacts.
Import Db DbFacts.

(** *** Where the owner's statements are what runs *)

Lemma references_min profiles u t :
  references profiles u = true -> references profiles t = true ->
  references profiles (LEAST u t) = true /\ references profiles (GREATEST u t) = true.
Proof.
  intros Hu Ht. unfold LEAST, GREATEST.
  destruct (N.min_spec u t) as [[_ ->]|[_ ->]], (N.max_spec u t) as [[_ ->]|[_ ->]];
    auto.
Qed.

Lemma secured_insert_into_matches r d profiles c now u1 u2 s :
  matches_with_check d r = true ->
  references profiles u1 = true -> references profiles u2 = true ->
  Secured.insert_into_matches r d profiles c now u1 u2 s
  = insert_into_matches c now u1 u2 s.
Proof.
  intros Hr H1 H2. unfold Secured.insert_into_matches, insert_into_matches.
  rewrite Hr, H1, H2, gen_random_uuid_fresh. reflexivity.
Qed.

Lemma secured_insert_into_matches_denied r d profiles c now u1 u2 s :
  matches_with_check d r = false ->
  Secured.insert_into_matches r d profiles c now u1 u2 s
  = Raised insufficient_privilege.
Proof. intros Hr. unfold Secured.insert_into_matches. now rewrite Hr. Qed.

Lemma secured_schema_trigger_owner profiles now NEW s :
  references profiles (user_id NEW) = true ->
  references profiles (target_user_id NEW) = true ->
  Secured.Schema.create_match_on_mutual_like postgres profiles now NEW s
  = Schema.create_match_on_mutual_like now NEW s.
Proof.
  intros Hu Ht. destruct (references_min _ _ _ Hu Ht) as [H1 H2].
  unfold Secured.Schema.create_match_on_mutual_like,
    Schema.create_match_on_mutual_like.
  change (Secured.reverse_like_exists postgres NEW s) with (reverse_like_exists NEW s).
  destruct (is_like NEW), (reverse_like_exists NEW s); try reflexivity.
  now apply secured_insert_into_matches.
Qed.

Lemma secured_fix_matches_trigger profiles now NEW s :
  references profiles (user_id NEW) = true ->
  references profiles (target_user_id NEW) = true ->
  Secured.FixMatches.create_match_on_mutual_like profiles now NEW s
  = FixMatches.create_match_on_mutual_like now NEW s.
Proof.
  intros Hu Ht. destruct (references_min _ _ _ Hu Ht) as [H1 H2].
  unfold Secured.FixMatches.create_match_on_mutual_like,
    FixMatches.create_match_on_mutual_like, FixMatches.exception_when_others.
  replace (Secured.FixMatches.body postgres profiles now NEW s)
    with (FixMatches.body now NEW s); [reflexivity|].
  unfold Secured.FixMatches.body, FixMatches.body.
  change (Secured.reverse_like_exists postgres NEW s) with (reverse_like_exists NEW s).
  change (select_matches postgres s) with (matches s).
  destruct (is_like NEW), (reverse_like_exists NEW s); try reflexivity.
  destruct (negb _); [|reflexivity].
  symmetry. now apply secured_insert_into_matches.
Qed.

(** The schema's function as a signed-in user's insert fires it: of the
    stored swipes it sees the user's own only, so it finds a reverse like
    only in a like of oneself, and then its insert into [matches] is
    turned down by row-level security. *)
Lemma secured_schema_trigger_client profiles now id u t l s :
  swiped s u t = false ->
  Secured.Schema.create_match_on_mutual_like (authenticated u) profiles now
    (Swipe id u t l now)
    (Database (swipes s ++ [Swipe id u t l now]) (matches s) (notices s))
  = if (u =? t) && l then Raised insufficient_privilege
    else Done (Database (swipes s ++ [Swipe id u t l now]) (matches s) (notices s)).
Proof.
  intros Hsw. unfold Secured.Schema.create_match_on_mutual_like. cbn [is_like].
  destruct l; [|now rewrite andb_false_r]. rewrite andb_true_r.
  assert (Hrev : Secured.reverse_like_exists (authenticated u) (Swipe id u t true now)
                   (Database (swipes s ++ [Swipe id u t true now]) (matches s) (notices s))
                 = (u =? t)).
  { unfold Secured.reverse_like_exists, select_swipes. cbn [swipes user_id target_user_id].
    rewrite List.filter_app, existsb_app. cbn [List.filter user_id].
    rewrite N.eqb_refl. cbn [existsb user_id target_user_id is_like].
    rewrite (N.eqb_sym t u), orb_false_r, andb_true_r, andb_diag.
    replace (existsb _ (List.filter _ (swipes s))) with false; [reflexivity|].
    symmetry. apply not_true_is_false. intros H.
    apply existsb_exists in H as (w & Hw & Hp).
    apply filter_In in Hw as [Hw Hq].
    apply andb_true_iff in Hp as [Hp _]. apply andb_true_iff in Hp as [H1 H2].
    apply N.eqb_eq in Hq, H1, H2.
    assert (swiped s u t = true); [|congruence].
    apply existsb_exists. exists w. split; [exact Hw|].
    apply andb_true_iff. split; apply N.eqb_eq; congruence. }
  rewrite Hrev. destruct (u =? t); [|reflexivity].
  now apply secured_insert_into_matches_denied.
Qed.

(** A request that passes the policy and the foreign keys runs the
    owner's statement whenever the trigger function has the owner's
    rights: always under fix-matches.sql, and for the owner's own
    requests under the schema. *)
Lemma secured_insert_into_swipes_owner_rights r d profiles now u t l s :
  swipes_with_check r u = true ->
  references profiles u = true -> references profiles t = true ->
  d = fix_matches_sql \/ r = postgres ->
  Secured.insert_into_swipes r d profiles now u t l s
  = insert_into_swipes d now u t l s.
Proof.
  intros Hr Hu Ht Hd. unfold Secured.insert_into_swipes, insert_into_swipes.
  rewrite Hr, Hu, Ht. cbn [negb andb].
  destruct (existsb _ (swipes s)); [reflexivity|].
  destruct (existsb _ (swipes s)); [reflexivity|].
  destruct d; cbn [Secured.trigger_create_match_on_mutual_like
                   trigger_create_match_on_mutual_like].
  - destruct Hd as [Hd| ->]; [discriminate|].
    now apply secured_schema_trigger_owner.
  - now apply secured_fix_matches_trigger.
Qed.

Lemma secured_insert_into_swipes_client profiles now uid u t l s :
  Secured.insert_into_swipes (authenticated uid) schema_sql profiles now u t l s
  = if negb (uid =? u) then Raised insufficient_privilege
    else if swiped s u t then Raised unique_violation
    else if negb (references profiles u && references profiles t)
    then Raised foreign_key_violation
    else if (u =? t) && l then Raised insufficient_privilege
    else Done (Database
                 (swipes s ++ [Swipe (gen_random_uuid (List.map swipe_id (swipes s)))
                                     u t l now])
                 (matches s) (notices s)).
Proof.
  unfold Secured.insert_into_swipes. cbn [swipes_with_check].
  destruct (N.eqb_spec uid u) as [->|Hne]; [|reflexivity]. cbn [negb].
  fold (swiped s u t). destruct (swiped s u t) eqn:Hsw; [reflexivity|].
  rewrite gen_random_uuid_fresh.
  destruct (references profiles u && references profiles t); [|reflexivity].
  cbn [negb Secured.trigger_create_match_on_mutual_like].
  now apply secured_schema_trigger_client.
Qed.

Lemma secured_insert_into_swipes_cases r d profiles now u t l s :
  d = fix_matches_sql \/ r = postgres ->
  Secured.insert_into_swipes r d profiles now u t l s
  = insert_into_swipes d now u t l s
  \/ exists e, Secured.insert_into_swipes r d profiles now u t l s = Raised e.
Proof.
  intros Hd.
  destruct (swipes_with_check r u) eqn:Hr, (references profiles u) eqn:Hu,
    (references profiles t) eqn:Ht;
    try (left; now apply secured_insert_into_swipes_owner_rights);
    right; unfold Secured.insert_into_swipes; rewrite Hr, ?Hu, ?Ht;
    cbn [negb andb]; eauto;
    destruct (existsb _ (swipes s)); eauto;
    destruct (existsb _ (swipes s)); eauto.
Qed.

(** *** With fix-matches.sql installed *)

Lemma serve_fix_matches_cases profiles s q :
  is_swipe_request q = true ->
  serve fix_matches_sql profiles s q = s
  \/ serve fix_matches_sql profiles s q = step fix_matches_sql s (query q).
Proof.
  destruct q as [r [now u t l|now u1 u2]]; [intros _|discriminate].
  unfold serve. cbn [query issuer step]. unfold execute.
  destruct (secured_insert_into_swipes_cases r fix_matches_sql profiles now u t l s)
    as [->|[e ->]]; auto.
Qed.

Lemma serve_all_fix_matches_invariant profiles h s :
  forallb is_swipe_request h = true ->
  ordered s /\ derived s ->
  ordered (serve_all fix_matches_sql profiles h s)
  /\ derived (serve_all fix_matches_sql profiles h s).
Proof.
  revert s. induction h as [|q h IH]; intros s Hh Hs; [exact Hs|].
  simpl in Hh. apply andb_true_iff in Hh as [Hq Hh].
  unfold serve_all. simpl. apply (IH _ Hh).
  destruct (serve_fix_matches_cases profiles s q Hq) as [->| ->]; [exact Hs|].
  destruct Hs as [Ho Hd]. split; [now apply step_ordered|now apply step_derived].
Qed.

(** *** With the schema's function installed *)

Lemma serve_schema_client profiles s q :
  from_client q = true ->
  matches (serve schema_sql profiles s q) = matches s.
Proof.
  destruct q as [r [now u t l|now u1 u2]]; unfold from_client, serve;
    cbn [issuer query]; intros Hr; unfold execute.
  - destruct r as [|uid|]; [discriminate| |reflexivity].
    rewrite secured_insert_into_swipes_client.
    destruct (negb _); [reflexivity|]. destruct (swiped s u t); [reflexivity|].
    destruct (negb _); [reflexivity|]. now destruct (_ && l).
  - rewrite secured_insert_into_matches_denied; [reflexivity|].
    now destruct r.
Qed.

(** *** Every role's requests keep what the owner's statements keep *)

Lemma secured_insert_into_matches_cases r d profiles c now u1 u2 s :
  Secured.insert_into_matches r d profiles c now u1 u2 s
  = insert_into_matches c now u1 u2 s
  \/ exists e, Secured.insert_into_matches r d profiles c now u1 u2 s = Raised e.
Proof.
  destruct (matches_with_check d r) eqn:Hr, (references profiles u1) eqn:H1,
    (references profiles u2) eqn:H2;
    try (left; now apply secured_insert_into_matches);
    right; unfold Secured.insert_into_matches; rewrite Hr, ?H1, ?H2;
    cbn [negb andb]; eauto;
    destruct (u1 <? u2); cbn [negb]; eauto;
    rewrite gen_random_uuid_fresh; eauto.
Qed.

(** A request is turned down, or runs the owner's statement, or (a
    signed-in user's swipe under the schema's function) stores the swipe
    and nothing else. *)
Lemma serve_cases d profiles s q :
  serve d profiles s q = s
  \/ serve d profiles s q = step d s (query q)
  \/ exists w, serve d profiles s q
               = Database (swipes s ++ [w]) (matches s) (notices s).
Proof.
  destruct q as [r [now u t l|now u1 u2]]; unfold serve; cbn [query issuer step];
    unfold execute.
  - destruct d.
    + destruct r as [|uid|].
      * destruct (secured_insert_into_swipes_cases postgres schema_sql profiles
                    now u t l s) as [->|[e ->]]; auto.
      * rewrite secured_insert_into_swipes_client.
        destruct (negb _); [now left|]. destruct (swiped s u t); [now left|].
        destruct (negb _); [now left|]. destruct (_ && l); [now left|].
        right. right. eauto.
      * now left.
    + destruct (secured_insert_into_swipes_cases r fix_matches_sql profiles
                  now u t l s) as [->|[e ->]]; auto.
  - destruct (secured_insert_into_matches_cases r d profiles true now u1 u2 s)
      as [->|[e ->]]; auto.
Qed.

(** The CHECK constraint of [matches] holds after any requests of any
    roles. *)
Lemma serve_all_ordered d profiles h s :
  ordered s -> ordered (serve_all d profiles h s).
Proof.
  revert s. induction h as [|q h IH]; intros s Hs; [exact Hs|].
  unfold serve_all. simpl. apply IH.
  destruct (serve_cases d profiles s q) as [->|[->|[w ->]]];
    [exact Hs|now apply step_ordered|exact Hs].
Qed.

(** *** Two users who like each other *)

Lemma first_like d profiles A B now :
  A <> B -> references profiles A = true -> references profiles B = true ->
  serve d profiles empty_db (Request (authenticated A) (InsertSwipe now A B true))
  = Database [Swipe 1 A B true now] [] [].
Proof.
  intros HAB HA HB. apply N.eqb_neq in HAB.
  unfold serve. cbn [query issuer]. unfold execute. destruct d.
  - rewrite secured_insert_into_swipes_client, N.eqb_refl, HA, HB, HAB. reflexivity.
  - rewrite secured_insert_into_swipes_owner_rights;
      [|apply N.eqb_refl|exact HA|exact HB|now left].
    unfold insert_into_swipes. cbn.
    unfold FixMatches.create_match_on_mutual_like, FixMatches.exception_when_others,
      FixMatches.body, reverse_like_exists. cbn.
    rewrite HAB. reflexivity.
Qed.

Lemma second_like_schema profiles A B now1 now2 :
  A <> B -> references profiles A = true -> references profiles B = true ->
  serve schema_sql profiles (Database [Swipe 1 A B true now1] [] [])
    (Request (authenticated B) (InsertSwipe now2 B A true))
  = Database [Swipe 1 A B true now1; Swipe 2 B A true now2] [] [].
Proof.
  intros HAB HA HB. apply N.eqb_neq in HAB.
  unfold serve. cbn [query issuer]. unfold execute.
  rewrite secured_insert_into_swipes_client, N.eqb_refl, HA, HB.
  unfold swiped. cbn. rewrite HAB, (N.eqb_sym B A), HAB. reflexivity.
Qed.

Lemma second_like_fix_matches profiles A B now1 now2 :
  A <> B -> references profiles A = true -> references profiles B = true ->
  serve fix_matches_sql profiles (Database [Swipe 1 A B true now1] [] [])
    (Request (authenticated B) (InsertSwipe now2 B A true))
  = Database [Swipe 1 A B true now1; Swipe 2 B A true now2]
             [Match 1 (N.min A B) (N.max A B) now2] [].
Proof.
  intros HAB HA HB. pose proof HAB as Hne. apply N.eqb_neq in HAB.
  unfold serve. cbn [query issuer]. unfold execute.
  rewrite secured_insert_into_swipes_owner_rights;
    [|apply N.eqb_refl|exact HB|exact HA|now left].
  unfold insert_into_swipes. cbn. rewrite HAB. cbn.
  unfold FixMatches.create_match_on_mutual_like, FixMatches.exception_when_others,
    FixMatches.body, reverse_like_exists. cbn.
  rewrite !N.eqb_refl. cbn.
  rewrite insert_into_matches_ok by (apply LEAST_lt_GREATEST; congruence).
  unfold LEAST, GREATEST. rewrite (N.min_comm B A), (N.max_comm B A). reflexivity.
Qed.

(** C2.  Two distinct users A and B with profiles, signed in, like each
    other, A first.  With the schema's trigger function installed both
    swipes are stored and no match row is made: the function runs with
    the rights of the inserting user, who cannot see the other's swipe.
    With the function of fix-matches.sql installed the same two requests
    leave one match row, with the key (min, max). *)
Theorem schema_trigger_misses_mutual_like (profiles : list uuid) (A B : uuid)
    (now1 now2 : timestamptz) :
  A <> B ->
  references profiles A = true ->
  references profiles B = true ->
  let h := [Request (authenticated A) (InsertSwipe now1 A B true);
            Request (authenticated B) (InsertSwipe now2 B A true)] in
  let s := serve_all schema_sql profiles h empty_db in
  let s' := serve_all fix_matches_sql profiles h empty_db in
  (directed_like s A B /\ directed_like s B A /\ matches s = [])
  /\ (directed_like s' A B /\ directed_like s' B A
      /\ matches s' = [Match 1 (N.min A B) (N.max A B) now2]).
Proof.
  intros HAB HA HB h s s'.
  assert (Hs : s = Database [Swipe 1 A B true now1; Swipe 2 B A true now2] [] []).
  { subst s h. unfold serve_all. cbn [fold_left].
    rewrite first_like by assumption. now apply second_like_schema. }
  assert (Hs' : s' = Database [Swipe 1 A B true now1; Swipe 2 B A true now2]
                              [Match 1 (N.min A B) (N.max A B) now2] []).
  { subst s' h. unfold serve_all. cbn [fold_left].
    rewrite first_like by assumption. now apply second_like_fix_matches. }
  rewrite Hs, Hs'. unfold directed_like. cbn [swipes matches].
  split; (split; [|split]); try reflexivity.
  - exists (Swipe 1 A B true now1). split; [now left|auto].
  - exists (Swipe 2 B A true now2). split; [right; now left|auto].
  - exists (Swipe 1 A B true now1). split; [now left|auto].
  - exists (Swipe 2 B A true now2). split; [right; now left|auto].
Qed.

Lemma schema_trigger_misses_mutual_like_witness :
  let h := [Request (authenticated 1) (InsertSwipe 10 1 2 true);
            Request (authenticated 2) (InsertSwipe 11 2 1 true)] in
  let s := serve_all schema_sql [1; 2] h empty_db in
  let s' := serve_all fix_matches_sql [1; 2] h empty_db in
  (directed_like s 1 2 /\ directed_like s 2 1 /\ matches s = [])
  /\ (directed_like s' 1 2 /\ directed_like s' 2 1
      /\ matches s' = [Match 1 1 2 11]).
Proof.
  apply (schema_trigger_misses_mutual_like [1; 2] 1 2 10 11);
    [discriminate|reflexivity|reflexivity].
Defined.

(** X29.  With the trigger function of fix-matches.sql installed, after
    any sequence of swipe inserts, whoever sends them and whether they
    are accepted or turned down, and for two distinct users A and B: a
    match row for the pair {A, B} exists exactly when both directed likes
    are stored; there is at most one such row, and it carries the key
    (min, max). *)
Theorem fix_matches_match_iff_mutual_like (profiles : list uuid)
    (h : list request) (A B : uuid) :
  forallb is_swipe_request h = true ->
  A <> B ->
  let s := serve_all fix_matches_sql profiles h empty_db in
  ((exists m, In m (matches s) /\ of_pair A B m = true)
   <-> (directed_like s A B /\ directed_like s B A))
  /\ (length (List.filter (of_pair A B) (matches s)) <= 1)%nat
  /\ (forall m, In m (matches s) -> of_pair A B m = true ->
        user1_id m = N.min A B /\ user2_id m = N.max A B).
Proof.
  intros Hh HAB s.
  destruct (serve_all_fix_matches_invariant profiles h empty_db Hh) as [Ho Hd];
    [split; [apply empty_db_ordered|apply empty_db_derived]|].
  now apply derived_match_iff_mutual_like.
Qed.

Lemma fix_matches_match_iff_mutual_like_witness :
  let h := [Request (authenticated 2) (InsertSwipe 10 2 1 true);
            Request (authenticated 3) (InsertSwipe 11 3 1 true);
            Request (authenticated 3) (InsertSwipe 12 1 3 true);
            Request (authenticated 1) (InsertSwipe 13 1 4 true);
            Request (authenticated 1) (InsertSwipe 14 1 3 false);
            Request (authenticated 1) (InsertSwipe 20 1 2 true)] in
  let s := serve_all fix_matches_sql [1; 2; 3] h empty_db in
  matches s = [Match 1 1 2 20]
  /\ ((exists m, In m (matches s) /\ of_pair 1 2 m = true)
       <-> (directed_like s 1 2 /\ directed_like s 2 1))
  /\ ((exists m, In m (matches s) /\ of_pair 1 3 m = true)
       <-> (directed_like s 1 3 /\ directed_like s 3 1)).
Proof.
  intros h s. split; [reflexivity|]. split.
  - apply (fix_matches_match_iff_mutual_like [1; 2; 3] h 1 2);
      [reflexivity|discriminate].
  - apply (fix_matches_match_iff_mutual_like [1; 2; 3] h 1 3);
      [reflexivity|discriminate].
Defined.

(** X30.  Who can add a match row.  With the schema alone no request of
    a client, signed in or not, ever does: its swipes run the trigger
    function with its own rights, and [matches] has no INSERT policy.
    Once fix-matches.sql has added the policy "System can create
    matches", any signed-in user can insert a row for any two users with
    profiles directly, whether or not that user is one of the two. *)
Theorem clients_and_match_rows (profiles : list uuid) :
  (forall h s, forallb from_client h = true ->
     matches (serve_all schema_sql profiles h s) = matches s)
  /\ (forall uid now u1 u2 s,
        u1 < u2 ->
        references profiles u1 = true -> references profiles u2 = true ->
        matches (serve fix_matches_sql profiles s
                   (Request (authenticated uid) (InsertMatch now u1 u2)))
        = matches s
          ++ [Match (gen_random_uuid (List.map match_id (matches s))) u1 u2 now]).
Proof.
  split.
  - intros h. induction h as [|q h IH]; intros s Hh; [reflexivity|].
    simpl in Hh. apply andb_true_iff in Hh as [Hq Hh].
    unfold serve_all in *. simpl. rewrite (IH _ Hh).
    now apply serve_schema_client.
  - intros uid now u1 u2 s Hlt H1 H2. unfold serve. cbn [query issuer].
    unfold execute. rewrite secured_insert_into_matches by auto.
    now rewrite insert_into_matches_ok.
Qed.

Lemma clients_and_match_rows_witness :
  matches (serve_all schema_sql [1; 2]
             [Request (authenticated 1) (InsertSwipe 10 1 2 true);
              Request (authenticated 2) (InsertSwipe 11 2 1 true);
              Request (authenticated 2) (InsertMatch 12 1 2);
              Request anon (InsertMatch 13 1 2)]
             empty_db) = []
  /\ matches (serve fix_matches_sql [1; 2; 3] empty_db
                (Request (authenticated 3) (InsertMatch 12 1 2)))
     = [Match 1 1 2 12].
Proof.
  destruct (clients_and_match_rows [1; 2]) as [H _].
  destruct (clients_and_match_rows [1; 2; 3]) as [_ H'].
  split.
  - apply (H _ empty_db). reflexivity.
  - apply (H' 3 12 1 2 empty_db); [lia|reflexivity|reflexivity].
Defined.

End SecuredFacts.

(** ** More on the database *)

Module DbMore.
Import Db DbFacts SecuredFacts.

(** *** Rows are only ever added *)

Lemma insert_into_matches_prefix c now u1 u2 s s' :
  insert_into_matches c now u1 u2 s = Done s' ->
  swipes s' = swipes s /\ matches s `prefix_of` matches s' /\ notices s' = notices s.
Proof.
  unfold insert_into_matches.
  destruct (u1 <? u2); simpl; [|discriminate].
  destruct (existsb _ _); [destruct c; [|discriminate]|]; intros [= <-]; simpl;
    repeat split; try reflexivity. now eexists.
Qed.

Lemma trigger_matches_prefix d now NEW s s' :
  trigger_create_match_on_mutual_like d now NEW s = Done s' ->
  matches s `prefix_of` matches s'.
Proof.
  destruct d; simpl.
  - unfold Schema.create_match_on_mutual_like.
    destruct (is_like NEW), (reverse_like_exists NEW s);
      try (now intros [= <-]).
    intros H. now apply insert_into_matches_prefix in H.
  - unfold FixMatches.create_match_on_mutual_like,
      FixMatches.exception_when_others.
    destruct (FixMatches.body now NEW s) as [s1|e] eqn:Hb;
      intros [= <-]; [|reflexivity].
    revert Hb. unfold FixMatches.body.
    destruct (is_like NEW), (reverse_like_exists NEW s);
      try (now intros [= <-]).
    destruct (existsb _ _); simpl; [now intros [= <-]|].
    intros H. now apply insert_into_matches_prefix in H.
Qed.

Lemma step_append_only d s q :
  swipes s `prefix_of` swipes (step d s q)
  /\ matches s `prefix_of` matches (step d s q).
Proof.
  destruct q as [now u t l|now u1 u2]; simpl; unfold execute.
  - destruct (insert_into_swipes d now u t l s) as [s'|e] eqn:E; simpl; [|done].
    pose proof (committed_swipe_is_stored _ _ _ _ _ _ _ E) as [_ Hs].
    split; [rewrite Hs; now eexists|].
    revert E. unfold insert_into_swipes.
    destruct (existsb _ _); [discriminate|].
    destruct (existsb _ _); [discriminate|].
    intros H. now apply trigger_matches_prefix in H.
  - destruct (insert_into_matches true now u1 u2 s) as [s'|e] eqn:E; simpl; [|done].
    apply insert_into_matches_prefix in E as (-> & H & _). done.
Qed.

(** X1.  No statement ever changes or removes a row: after any sequence
    of swipe inserts and direct match inserts, from any state and under
    either trigger function, the old [swipes] and [matches] rows are
    still there, in place, before whatever was added. *)
Theorem tables_are_append_only (d : deployment) (h : list statement) (s : db) :
  swipes s `prefix_of` swipes (run d h s)
  /\ matches s `prefix_of` matches (run d h s).
Proof.
  revert s. induction h as [|q h IH]; intros s; simpl; [done|].
  destruct (step_append_only d s q) as [H1 H2].
  destruct (IH (step d s q)) as [H3 H4].
  split; etrans; eassumption.
Qed.

(** *** Keys stay unique *)

Lemma gen_random_uuid_not_in (l : list uuid) : ~ In (gen_random_uuid l) l.
Proof.
  intros H. apply fold_max_bound in H. unfold gen_random_uuid in H. lia.
Qed.

Lemma NoDup_snoc {A} (l : list A) (x : A) :
  List.NoDup l -> ~ In x l -> List.NoDup (l ++ [x]).
Proof.
  induction l as [|y l IH]; simpl; intros Hl Hx; [repeat constructor; tauto|].
  inversion Hl as [|? ? Hy Hl']; subst. constructor.
  - rewrite in_app_iff. simpl. intros [H|[H|[]]]; [tauto|]. subst. tauto.
  - apply IH; tauto.
Qed.

Lemma insert_into_matches_cases c now u1 u2 s s' :
  insert_into_matches c now u1 u2 s = Done s' ->
  u1 < u2
  /\ matches s' =
     matches s ++ [Match (gen_random_uuid (List.map match_id (matches s))) u1 u2 now].
Proof.
  unfold insert_into_matches.
  destruct (u1 <? u2) eqn:E; simpl; [|discriminate].
  rewrite gen_random_uuid_fresh. intros [= <-]. split; [now apply N.ltb_lt|reflexivity].
Qed.

Lemma trigger_matches_cases d now NEW s s' :
  trigger_create_match_on_mutual_like d now NEW s = Done s' ->
  matches s' = matches s
  \/ exists u1 u2,
       matches s' =
       matches s ++ [Match (gen_random_uuid (List.map match_id (matches s))) u1 u2 now].
Proof.
  destruct d; simpl.
  - unfold Schema.create_match_on_mutual_like.
    destruct (is_like NEW), (reverse_like_exists NEW s);
      try (intros [= <-]; now left).
    intros H. apply insert_into_matches_cases in H as [_ H]. eauto.
  - unfold FixMatches.create_match_on_mutual_like,
      FixMatches.exception_when_others.
    destruct (FixMatches.body now NEW s) as [s1|e] eqn:Hb;
      intros [= <-]; [|now left].
    revert Hb. unfold FixMatches.body.
    destruct (is_like NEW), (reverse_like_exists NEW s);
      try (intros [= <-]; now left).
    destruct (existsb _ _); simpl; [intros [= <-]; now left|].
    intros H. apply insert_into_matches_cases in H as [_ H]. eauto.
Qed.

Lemma match_ids_after_append ms id u1 u2 now :
  List.NoDup (List.map match_id ms) ->
  id = gen_random_uuid (List.map match_id ms) ->
  List.NoDup (List.map match_id (ms ++ [Match id u1 u2 now])).
Proof.
  intros Hnd ->. rewrite List.map_app. simpl.
  apply NoDup_snoc; [exact Hnd|apply gen_random_uuid_not_in].
Qed.

Lemma step_keys_unique d s q :
  List.NoDup (List.map pair_of (swipes s))
  /\ List.NoDup (List.map swipe_id (swipes s))
  /\ List.NoDup (List.map match_id (matches s)) ->
  List.NoDup (List.map pair_of (swipes (step d s q)))
  /\ List.NoDup (List.map swipe_id (swipes (step d s q)))
  /\ List.NoDup (List.map match_id (matches (step d s q))).
Proof.
  intros (Hp & Hi & Hm).
  destruct q as [now u t l|now u1 u2]; simpl; unfold execute.
  - destruct (insert_into_swipes d now u t l s) as [s'|e] eqn:E; simpl; [|auto].
    pose proof (committed_swipe_is_stored _ _ _ _ _ _ _ E) as [Hsw Hs].
    rewrite Hs, !List.map_app. simpl. split; [|split].
    + apply NoDup_snoc; [exact Hp|]. intros Hin.
      apply in_map_iff in Hin as (w & Hw & Hin). injection Hw as Hu Ht.
      assert (swiped s u t = true); [|congruence].
      apply existsb_exists. exists w. split; [exact Hin|].
      rewrite Hu, Ht, !N.eqb_refl. reflexivity.
    + apply NoDup_snoc; [exact Hi|apply gen_random_uuid_not_in].
    + revert E. unfold insert_into_swipes.
      destruct (existsb _ _); [discriminate|].
      destruct (existsb _ _); [discriminate|].
      intros H. apply trigger_matches_cases in H as [->|(a & b & ->)];
        [exact Hm|]. now apply match_ids_after_append.
  - destruct (insert_into_matches true now u1 u2 s) as [s'|e] eqn:E; simpl; [|auto].
    pose proof (insert_into_matches_prefix _ _ _ _ _ _ E) as (-> & _ & _).
    apply insert_into_matches_cases in E as [_ ->].
    repeat split; try assumption. now apply match_ids_after_append.
Qed.

(** X2.  In every state reached from the empty database the uniqueness
    constraints hold: no two swipe rows share their (user_id,
    target_user_id) pair, and the ids of the swipe rows and of the match
    rows are pairwise distinct. *)
Theorem keys_stay_unique (d : deployment) (h : list statement) :
  List.NoDup (List.map pair_of (swipes (run d h empty_db)))
  /\ List.NoDup (List.map swipe_id (swipes (run d h empty_db)))
  /\ List.NoDup (List.map match_id (matches (run d h empty_db))).
Proof.
  unfold run.
  assert (H : List.NoDup (List.map pair_of (swipes empty_db))
              /\ List.NoDup (List.map swipe_id (swipes empty_db))
              /\ List.NoDup (List.map match_id (matches empty_db)))
    by (repeat split; constructor).
  revert H. generalize empty_db.
  induction h as [|q h IH]; intros s Hs; simpl; [exact Hs|].
  apply IH, step_keys_unique, Hs.
Qed.

(** *** When a swipe is turned down *)

Lemma reverse_like_of_new s id u t l now :
  reverse_like_exists (Swipe id u t l now)
    (Database (swipes s ++ [Swipe id u t l now]) (matches s) (notices s))
  = likes s t u || ((u =? t) && l).
Proof.
  rewrite reverse_like_exists_likes, likes_snoc. simpl.
  rewrite (likes_swipes_only s (Database (swipes s) (matches s) (notices s)))
    by reflexivity.
  rewrite (N.eqb_sym t u). now destruct (u =? t), l.
Qed.

(** The swipe insert as the owner's statement: it fails on a row for the
    pair, or under the schema's function on a like of oneself. *)
Lemma owner_swipe_outcome (d : deployment) (now : timestamptz) (u t : uuid)
    (l : bool) (s : db) :
  snd (execute (insert_into_swipes d now u t l) s) =
  if swiped s u t then Some unique_violation
  else match d with
       | schema_sql => if (u =? t) && l then Some check_violation else None
       | fix_matches_sql => None
       end.
Proof.
  unfold execute, insert_into_swipes. fold (swiped s u t).
  destruct (swiped s u t); [reflexivity|].
  rewrite gen_random_uuid_fresh. destruct d; simpl.
  - unfold Schema.create_match_on_mutual_like. simpl.
    rewrite reverse_like_of_new.
    destruct l; simpl; [|now rewrite andb_false_r].
    destruct (N.eqb_spec u t) as [->|Hne]; simpl.
    + rewrite orb_true_r. now rewrite self_insert_into_matches_raises.
    + rewrite orb_false_r. destruct (likes s t u); [|reflexivity].
      now rewrite insert_into_matches_ok by now apply LEAST_lt_GREATEST.
  - unfold FixMatches.create_match_on_mutual_like.
    match goal with
    | |- context [FixMatches.exception_when_others ?b ?x] =>
        destruct (exception_when_others_returns b x) as [s' ->]
    end.
    reflexivity.
Qed.

(** X3.  What a swipe insert comes back with, for any role, state and
    set of profiles.  It is turned down when the role may not insert the
    row (the policy's WITH CHECK), when the pair has a row already
    (unique violation), when actor or target has no profile (foreign
    key), and, with the schema's trigger function installed, when it is a
    like of oneself: the match insert of the trigger then fails, on the
    CHECK constraint for the owner and on row-level security for a
    signed-in user.  Every other swipe insert is committed. *)
Theorem swipe_rejected_iff (r : role) (d : deployment) (profiles : list uuid)
    (now : timestamptz) (u t : uuid) (l : bool) (s : db) :
  snd (execute (Secured.insert_into_swipes r d profiles now u t l) s) =
  if negb (swipes_with_check r u) then Some insufficient_privilege
  else if swiped s u t then Some unique_violation
  else if negb (references profiles u && references profiles t)
  then Some foreign_key_violation
  else match d with
       | schema_sql =>
           if (u =? t) && l
           then Some match r with
                     | postgres => check_violation
                     | authenticated _ | anon => insufficient_privilege
                     end
           else None
       | fix_matches_sql => None
       end.
Proof.
  destruct (swipes_with_check r u) eqn:Hr; cbn [negb];
    [|unfold execute, Secured.insert_into_swipes; now rewrite Hr].
  destruct (swiped s u t) eqn:Hsw;
    [unfold execute, Secured.insert_into_swipes; rewrite Hr; cbn [negb];
     fold (swiped s u t); now rewrite Hsw|].
  destruct (references profiles u && references profiles t) eqn:Href; cbn [negb];
    [|unfold execute, Secured.insert_into_swipes; rewrite Hr; cbn [negb];
      fold (swiped s u t); now rewrite Hsw, gen_random_uuid_fresh, Href].
  apply andb_true_iff in Href as [Hu Ht].
  pose proof (owner_swipe_outcome d now u t l s) as Ho. rewrite Hsw in Ho.
  unfold execute in *.
  destruct d.
  - destruct r as [|uid|]; [| |discriminate].
    + rewrite secured_insert_into_swipes_owner_rights by auto. exact Ho.
    + rewrite secured_insert_into_swipes_client. cbn [swipes_with_check] in Hr.
      rewrite Hr, Hsw, Hu, Ht. cbn [negb andb].
      now destruct ((u =? t) && l).
  - rewrite secured_insert_into_swipes_owner_rights by auto. exact Ho.
Qed.

(** *** Warnings *)

Lemma step_notices d s q :
  d = schema_sql \/ is_self_like q = false ->
  notices (step d s q) = notices s.
Proof.
  intros Hq. destruct q as [now u t l|now u1 u2]; simpl; unfold execute.
  - destruct (insert_into_swipes d now u t l s) as [s'|e] eqn:E; [|reflexivity].
    simpl. revert E. unfold insert_into_swipes.
    destruct (existsb _ _); [discriminate|].
    destruct (existsb _ _); [discriminate|].
    destruct d; simpl.
    + unfold Schema.create_match_on_mutual_like. simpl.
      destruct l; [|now intros [= <-]].
      destruct (reverse_like_exists _ _); [|now intros [= <-]].
      intros H. now apply insert_into_matches_prefix in H as (_ & _ & ->).
    + destruct Hq as [Hq|Hq]; [discriminate|]. simpl in Hq.
      unfold FixMatches.create_match_on_mutual_like,
        FixMatches.exception_when_others, FixMatches.body. simpl.
      destruct l; [|now intros [= <-]].
      rewrite andb_true_r in Hq. apply N.eqb_neq in Hq.
      destruct (reverse_like_exists _ _); [|now intros [= <-]].
      destruct (existsb _ _); simpl; [now intros [= <-]|].
      rewrite insert_into_matches_ok by now apply LEAST_lt_GREATEST.
      now intros [= <-].
  - destruct (insert_into_matches true now u1 u2 s) as [s'|e] eqn:E; [|reflexivity].
    simpl. now apply insert_into_matches_prefix in E as (_ & _ & ->).
Qed.

(** X4.  The exception handler of fix-matches.sql is only ever reached by
    a like of oneself: a history without such a swipe raises no warning,
    and under the schema's function no history raises one. *)
Theorem warnings_only_for_self_likes (d : deployment) (h : list statement) (s : db) :
  d = schema_sql \/ forallb (fun q => negb (is_self_like q)) h = true ->
  notices (run d h s) = notices s.
Proof.
  revert s. induction h as [|q h IH]; intros s Hh; simpl; [reflexivity|].
  rewrite IH.
  - apply step_notices. destruct Hh as [Hh|Hh]; [now left|right].
    simpl in Hh. apply andb_true_iff in Hh as [Hq _]. now apply negb_true_iff.
  - destruct Hh as [Hh|Hh]; [now left|right].
    simpl in Hh. now apply andb_true_iff in Hh as [_ Hh].
Qed.

Lemma warnings_only_for_self_likes_witness :
  let h := [InsertSwipe 1 1 2 true; InsertSwipe 2 2 1 true; InsertMatch 3 4 5;
            InsertSwipe 4 3 3 false] in
  forallb (fun q => negb (is_self_like q)) h = true
  /\ notices (run fix_matches_sql h empty_db) = []
  /\ notices (run fix_matches_sql (h ++ [InsertSwipe 5 6 6 true]) empty_db)
     = [check_violation].
Proof.
  intros h. split; [reflexivity|]. split; [|reflexivity].
  apply (warnings_only_for_self_likes fix_matches_sql h empty_db).
  right. reflexivity.
Defined.

(** *** A pair that already has a row *)

(** X5.  ON CONFLICT DO NOTHING never holds back a direct insert into
    [matches]: with user1_id < user2_id the statement adds one more row
    for the pair, also when the pair has a row already; otherwise it is
    rejected by the CHECK constraint and changes nothing. *)
Theorem direct_insert_is_never_skipped (d : deployment) (s : db)
    (now : timestamptz) (u1 u2 : uuid) :
  (u1 < u2 ->
   count_key u1 u2 (step d s (InsertMatch now u1 u2)) = S (count_key u1 u2 s))
  /\ (u2 <= u1 -> step d s (InsertMatch now u1 u2) = s).
Proof.
  split; intros H; simpl; unfold execute.
  - rewrite insert_into_matches_ok by exact H. simpl.
    destruct s as [sw ms ns]. simpl. rewrite count_key_snoc.
    unfold has_key. simpl. rewrite !N.eqb_refl. simpl. lia.
  - now rewrite insert_into_matches_check by lia.
Qed.

Lemma direct_insert_is_never_skipped_witness :
  let s := step schema_sql empty_db (InsertMatch 1 1 2) in
  count_key 1 2 s = 1%nat
  /\ count_key 1 2 (step schema_sql s (InsertMatch 2 1 2)) = 2%nat
  /\ step schema_sql s (InsertMatch 3 2 1) = s.
Proof.
  intros s. split; [reflexivity|].
  destruct (direct_insert_is_never_skipped schema_sql s 2 1 2) as [H1 _].
  destruct (direct_insert_is_never_skipped schema_sql s 3 2 1) as [_ H2].
  split; [apply H1; lia|apply H2; lia].
Defined.

(** X6.  When the pair of a completing like has a match row already (one
    inserted by hand, say), the trigger function of fix-matches.sql adds
    nothing, whoever sends the like.  The schema's function adds a second
    row for the pair when the owner of the tables sends the like; for a
    signed-in user it does not see the reverse like and adds nothing. *)
Theorem completing_like_on_existing_match (r : role) (profiles : list uuid)
    (now : timestamptz) (u t : uuid) (s : db) :
  u <> t ->
  swipes_with_check r u = true ->
  references profiles u = true ->
  references profiles t = true ->
  swiped s u t = false ->
  likes s t u = true ->
  existsb (has_key (LEAST u t) (GREATEST u t)) (matches s) = true ->
  matches (fst (execute (Secured.insert_into_swipes r fix_matches_sql profiles
                           now u t true) s))
  = matches s
  /\ matches (fst (execute (Secured.insert_into_swipes r schema_sql profiles
                              now u t true) s))
     = match r with
       | postgres =>
           matches s ++ [Match (gen_random_uuid (List.map match_id (matches s)))
                               (LEAST u t) (GREATEST u t) now]
       | authenticated _ | anon => matches s
       end.
Proof.
  intros Hne Hr Hu Ht Hsw Hrev Hex. unfold execute. split.
  - rewrite secured_insert_into_swipes_owner_rights by auto.
    unfold insert_into_swipes. fold (swiped s u t).
    rewrite Hsw, gen_random_uuid_fresh. simpl.
    unfold FixMatches.create_match_on_mutual_like,
      FixMatches.exception_when_others, FixMatches.body. simpl.
    rewrite reverse_like_of_new, Hrev. simpl.
    change (existsb _ (matches s)) with
      (existsb (has_key (LEAST u t) (GREATEST u t)) (matches s)).
    now rewrite Hex.
  - destruct r as [|uid|]; [| |discriminate].
    + rewrite secured_insert_into_swipes_owner_rights by auto.
      unfold insert_into_swipes. fold (swiped s u t).
      rewrite Hsw, gen_random_uuid_fresh. simpl.
      unfold Schema.create_match_on_mutual_like. simpl.
      rewrite reverse_like_of_new, Hrev. simpl.
      now rewrite insert_into_matches_ok by now apply LEAST_lt_GREATEST.
    + rewrite secured_insert_into_swipes_client. cbn [swipes_with_check] in Hr.
      rewrite Hr, Hsw, Hu, Ht. cbn [negb andb].
      apply N.eqb_neq in Hne. now rewrite Hne.
Qed.

Lemma completing_like_on_existing_match_witness :
  let s := serve_all schema_sql [1; 2]
             [Request postgres (InsertMatch 1 1 2);
              Request (authenticated 2) (InsertSwipe 2 2 1 true)] empty_db in
  matches (fst (execute (Secured.insert_into_swipes (authenticated 1) fix_matches_sql
                           [1; 2] 3 1 2 true) s))
  = [Match 1 1 2 1]
  /\ matches (fst (execute (Secured.insert_into_swipes postgres schema_sql
                              [1; 2] 3 1 2 true) s))
     = [Match 1 1 2 1; Match 2 1 2 3]
  /\ matches (fst (execute (Secured.insert_into_swipes (authenticated 1) schema_sql
                              [1; 2] 3 1 2 true) s))
     = [Match 1 1 2 1].
Proof.
  intros s.
  destruct (completing_like_on_existing_match (authenticated 1) [1; 2] 3 1 2 s)
    as [Hfix Happ]; [discriminate|reflexivity..|].
  destruct (completing_like_on_existing_match postgres [1; 2] 3 1 2 s)
    as [_ Howner]; [discriminate|reflexivity..|].
  split; [exact Hfix|]. split; [exact Howner|exact Happ].
Defined.

(** *** When a match was made *)

Lemma step_stamped d s q :
  is_swipe_insert q = true ->
  derived s ->
  (forall m, In m (matches s) ->
     exists w, In w (swipes s) /\ is_like w = true
               /\ swipe_created_at w = match_created_at m
               /\ LEAST (user_id w) (target_user_id w) = user1_id m
               /\ GREATEST (user_id w) (target_user_id w) = user2_id m) ->
  forall m, In m (matches (step d s q)) ->
    exists w, In w (swipes (step d s q)) /\ is_like w = true
              /\ swipe_created_at w = match_created_at m
              /\ LEAST (user_id w) (target_user_id w) = user1_id m
              /\ GREATEST (user_id w) (target_user_id w) = user2_id m.
Proof.
  destruct q as [now u t l|]; [intros _ Hd Hs|discriminate]. simpl. unfold execute.
  destruct (insert_into_swipes d now u t l s) as [s'|e] eqn:E; simpl; [|exact Hs].
  destruct (insert_into_swipes_effect _ _ _ _ _ _ _ Hd E) as (_ & Hsw & Hm).
  intros m. rewrite Hm, Hsw, in_app_iff. intros [Hin|Hin].
  - destruct (Hs m Hin) as (w & Hw & H). exists w. rewrite in_app_iff. auto.
  - destruct l; simpl in Hin; [|destruct Hin].
    destruct (likes s t u && negb (u =? t)); simpl in Hin; [|destruct Hin].
    destruct Hin as [<-|[]]. eexists. rewrite in_app_iff.
    split; [right; left; reflexivity|]. simpl. auto.
Qed.

(** X7.  After any sequence of swipe inserts, every match row carries the
    timestamp of a like between its two users, the one whose insert
    created it, and its key is the ordered pair of that like. *)
Theorem match_is_stamped_by_a_like (d : deployment) (h : list statement) (m : match_row) :
  forallb is_swipe_insert h = true ->
  In m (matches (run d h empty_db)) ->
  exists w, In w (swipes (run d h empty_db))
            /\ is_like w = true
            /\ swipe_created_at w = match_created_at m
            /\ N.min (user_id w) (target_user_id w) = user1_id m
            /\ N.max (user_id w) (target_user_id w) = user2_id m.
Proof.
  intros Hh. unfold run. revert m.
  assert (H : derived empty_db
              /\ forall m, In m (matches empty_db) ->
                   exists w, In w (swipes empty_db) /\ is_like w = true
                     /\ swipe_created_at w = match_created_at m
                     /\ LEAST (user_id w) (target_user_id w) = user1_id m
                     /\ GREATEST (user_id w) (target_user_id w) = user2_id m)
    by (split; [apply empty_db_derived|intros m []]).
  revert H. generalize empty_db.
  induction h as [|q h IH]; intros s [Hd Hs]; simpl; [exact Hs|].
  simpl in Hh. apply andb_true_iff in Hh as [Hq Hh].
  apply (IH Hh). split; [now apply step_derived|now apply step_stamped].
Qed.

Lemma match_is_stamped_by_a_like_witness :
  let h := [InsertSwipe 10 2 1 true; InsertSwipe 20 1 2 true] in
  forallb is_swipe_insert h = true
  /\ matches (run schema_sql h empty_db) = [Match 1 1 2 20]
  /\ exists w, In w (swipes (run schema_sql h empty_db))
               /\ is_like w = true
               /\ swipe_created_at w = 20
               /\ N.min (user_id w) (target_user_id w) = 1
               /\ N.max (user_id w) (target_user_id w) = 2.
Proof.
  intros h. split; [reflexivity|]. split; [reflexivity|].
  apply (match_is_stamped_by_a_like schema_sql h (Match 1 1 2 20));
    [reflexivity|now left].
Defined.

(** *** Who may see a matched profile *)

Lemma likes_swiped_target s a b :
  likes s a b = true -> existsb (N.eqb b) (Policies.swiped_targets a s) = true.
Proof.
  intros H. apply likes_spec in H as (w & Hw & Hu & Ht & _).
  apply existsb_exists. exists b. split; [|apply N.eqb_refl].
  unfold Policies.swiped_targets. rewrite <- Ht. apply in_map.
  apply filter_In. split; [exact Hw|]. now apply N.eqb_eq.
Qed.

(** X8.  Under the schema's policy "Users can view profiles they haven't
    swiped on", neither user of a match can see the other's profile, in
    any state reached by swipe inserts: to be matched each has swiped on
    the other.  Under the policy "Users can view profiles" both can. *)
Theorem matched_profile_visibility (d : deployment) (h : list statement) (m : match_row) :
  forallb is_swipe_insert h = true ->
  let s := run d h empty_db in
  In m (matches s) ->
  Policies.view_unswiped (user1_id m) (user2_id m) s = false
  /\ Policies.view_unswiped (user2_id m) (user1_id m) s = false
  /\ Policies.view_profiles (user1_id m) (user2_id m) s = true
  /\ Policies.view_profiles (user2_id m) (user1_id m) s = true.
Proof.
  intros Hh s Hm.
  assert (Ho : ordered s) by (apply run_ordered, empty_db_ordered).
  assert (Hd : derived s) by (apply run_derived; [exact Hh|apply empty_db_derived]).
  pose proof (proj1 (List.Forall_forall _ _) Ho m Hm) as Hlt. simpl in Hlt.
  specialize (Hd _ _ Hlt).
  assert (Hb : both_like s (user1_id m) (user2_id m) = true).
  { destruct (both_like s (user1_id m) (user2_id m)); [reflexivity|].
    assert (In m (List.filter (has_key (user1_id m) (user2_id m)) (matches s))) as Hin
      by (apply filter_In; split; [exact Hm|]; unfold has_key; now rewrite !N.eqb_refl).
    unfold count_key in Hd.
    destruct (List.filter _ (matches s)); [destruct Hin|discriminate]. }
  apply andb_true_iff in Hb as [H12 H21].
  apply likes_swiped_target in H12, H21.
  unfold Policies.view_unswiped, Policies.view_profiles. rewrite H12, H21. simpl.
  replace (user2_id m =? user1_id m) with false by (symmetry; apply N.eqb_neq; lia).
  replace (user1_id m =? user2_id m) with false by (symmetry; apply N.eqb_neq; lia).
  simpl. repeat split; apply existsb_exists.
  - exists (user2_id m). split; [|apply N.eqb_refl].
    unfold Policies.matched_ids. apply in_app_iff. right. apply in_map.
    apply filter_In. split; [exact Hm|apply N.eqb_refl].
  - exists (user1_id m). split; [|apply N.eqb_refl].
    unfold Policies.matched_ids. apply in_app_iff. left. apply in_map.
    apply filter_In. split; [exact Hm|apply N.eqb_refl].
Qed.

Lemma matched_profile_visibility_witness :
  let h := [InsertSwipe 10 2 1 true; InsertSwipe 20 1 2 true] in
  let s := run fix_matches_sql h empty_db in
  forallb is_swipe_insert h = true
  /\ In (Match 1 1 2 20) (matches s)
  /\ Policies.view_unswiped 1 2 s = false
  /\ Policies.view_unswiped 2 1 s = false
  /\ Policies.view_profiles 1 2 s = true
  /\ Policies.view_profiles 2 1 s = true.
Proof.
  intros h s. split; [reflexivity|]. split; [now left|].
  apply (matched_profile_visibility fix_matches_sql h (Match 1 1 2 20));
    [reflexivity|now left].
Defined.

End DbMore.

(** ** The rate limiter *)

Module RateLimiterFacts.
Import RateLimiter.

Lemma check_opens_window key config now limits :
  no_window key now limits ->
  check key config now limits =
  (<[key := {| count := 1; resetTime := now + windowMs config |}]> (delete key limits),
   {| allowed := true; retryAfter := None |}).
Proof.
  unfold no_window, check. destruct (limits !! key) as [entry|] eqn:E.
  - intros H. apply N.leb_le in H. rewrite H. now rewrite lookup_delete_eq.
  - intros _. rewrite E. now rewrite delete_id.
Qed.

Lemma check_in_window key config now limits c r :
  limits !! key = Some {| count := c; resetTime := r |} ->
  now < r ->
  check key config now limits =
  if maxAttempts config <=? c
  then (limits, {| allowed := false; retryAfter := Some ((r - now + 999) / 1000) |})
  else (<[key := {| count := c + 1; resetTime := r |}]> limits,
        {| allowed := true; retryAfter := None |}).
Proof.
  intros E H. unfold check. rewrite E. simpl.
  apply N.leb_gt in H. rewrite H, E. reflexivity.
Qed.

Lemma attempts_in_window key config times limits c r :
  limits !! key = Some {| count := c; resetTime := r |} ->
  Forall (fun now => now < r) times ->
  (attempts key config times limits).2 =
  List.map (fun i => c + N.of_nat i <? maxAttempts config) (seq 0 (length times)).
Proof.
  revert limits c. induction times as [|now times IH]; intros limits c E Ht;
    [reflexivity|].
  inversion Ht as [|? ? Hnow Ht']; subst. simpl.
  rewrite (check_in_window _ _ _ _ _ _ E Hnow).
  rewrite <- seq_shift, List.map_map.
  destruct (maxAttempts config <=? c) eqn:Hc.
  - specialize (IH limits c E Ht').
    destruct (attempts key config times limits) as [l2 flags]. simpl in *.
    apply N.leb_le in Hc. f_equal.
    + symmetry. apply N.ltb_ge. lia.
    + rewrite IH. apply List.map_ext_in. intros i _.
      transitivity false; [|symmetry]; apply N.ltb_ge; lia.
  - specialize (IH (<[key := {| count := c + 1; resetTime := r |}]> limits) (c + 1)
                  (lookup_insert_eq _ _ _) Ht').
    destruct (attempts key config times _) as [l2 flags]. simpl in *.
    apply N.leb_gt in Hc. f_equal.
    + symmetry. apply N.ltb_lt. lia.
    + rewrite IH. apply List.map_ext. intros i. f_equal. lia.
Qed.

Lemma attempts_from_start (key : string) (config : RateLimitConfig)
    (start : N) (times : list N) (limits : gmap string RateLimitEntry) :
  no_window key start limits ->
  Forall (fun now => now < start + windowMs config) times ->
  (attempts key config (start :: times) limits).2 =
  true :: List.map (fun i => N.of_nat (S i) <? maxAttempts config)
                   (seq 0 (length times)).
Proof.
  intros Hw Ht. simpl. rewrite (check_opens_window _ _ _ _ Hw).
  pose proof (attempts_in_window key config times
                (<[key := {| count := 1; resetTime := start + windowMs config |}]>
                   (delete key limits))
                1 (start + windowMs config) (lookup_insert_eq _ _ _) Ht) as H.
  destruct (attempts key config times _) as [l2 flags]. simpl in *.
  f_equal. rewrite H. apply List.map_ext. intros i. f_equal. lia.
Qed.

(** X9.  When no window is open for a key, the attempt that opens one is
    allowed whatever the limit is, and of the attempts that follow
    before the window ends, in whatever order their times come, the
    i-th is allowed exactly when i + 1 < maxAttempts: a window admits
    maxAttempts attempts, and one if maxAttempts is 0. *)
Theorem window_admits_maxAttempts (key : string) (config : RateLimitConfig)
    (start : N) (times : list N) (limits : gmap string RateLimitEntry) :
  no_window key start limits ->
  Forall (fun now => now < start + windowMs config) times ->
  (attempts key config (start :: times) limits).2 =
  true :: List.map (fun i => N.of_nat (S i) <? maxAttempts config)
                   (seq 0 (length times)).
Proof. apply attempts_from_start. Qed.

Lemma window_admits_maxAttempts_witness :
  no_window "login:a@b.c" 1000 ∅
  /\ Forall (fun now => now < 1000 + windowMs LOGIN) [2000; 1500; 3000; 4000; 5000; 900000]
  /\ (attempts "login:a@b.c" LOGIN [1000; 2000; 1500; 3000; 4000; 5000; 900000] ∅).2
     = [true; true; true; true; true; false; false].
Proof.
  split; [exact I|].
  assert (H : Forall (fun now => now < 1000 + windowMs LOGIN)
                [2000; 1500; 3000; 4000; 5000; 900000])
    by (repeat constructor).
  split; [exact H|].
  exact (window_admits_maxAttempts "login:a@b.c" LOGIN 1000 _ ∅ I H).
Defined.

(** X10.  A check that is not allowed leaves the limiter as it was, and
    its retryAfter is the time left in the window in seconds, rounded up,
    so at least 1; a check that is allowed carries no retryAfter. *)
Theorem denied_check_changes_nothing (key : string) (config : RateLimitConfig)
    (now : N) (limits : gmap string RateLimitEntry) :
  let r := check key config now limits in
  (allowed r.2 = true -> retryAfter r.2 = None)
  /\ (allowed r.2 = false ->
      r.1 = limits
      /\ exists entry after,
           limits !! key = Some entry
           /\ now < resetTime entry
           /\ maxAttempts config <= count entry
           /\ retryAfter r.2 = Some after
           /\ 1 <= after
           /\ 1000 * (after - 1) < resetTime entry - now <= 1000 * after).
Proof.
  unfold check. destruct (limits !! key) as [[c r]|] eqn:E; simpl.
  - destruct (r <=? now) eqn:Hr.
    + rewrite lookup_delete_eq. simpl. split; [reflexivity|discriminate].
    + rewrite E. simpl. apply N.leb_gt in Hr.
      destruct (maxAttempts config <=? c) eqn:Hc; simpl;
        (split; [try reflexivity; discriminate|try discriminate]).
      intros _. split; [reflexivity|].
      exists {| count := c; resetTime := r |}, ((r - now + 999) / 1000).
      apply N.leb_le in Hc. cbn [count resetTime].
      pose proof (N.mod_lt (r - now + 999) 1000 ltac:(lia)) as Hm.
      pose proof (N.div_mod (r - now + 999) 1000 ltac:(lia)) as Hq.
      set (q := (r - now + 999) / 1000) in *.
      set (m := (r - now + 999) mod 1000) in *. clearbody q m.
      repeat split; try assumption; try reflexivity; lia.
  - rewrite E. simpl. split; [reflexivity|discriminate].
Qed.

Lemma denied_check_changes_nothing_witness :
  let limits : gmap string RateLimitEntry :=
    {[ "swipe:x" := {| count := 100; resetTime := 61000 |} ]} in
  let r := check "swipe:x" SWIPE 58500 limits in
  allowed r.2 = false
  /\ r.1 = limits
  /\ retryAfter r.2 = Some 3.
Proof.
  intros limits r. split; [reflexivity|].
  destruct (denied_check_changes_nothing "swipe:x" SWIPE 58500 limits) as [_ H].
  destruct (H eq_refl) as (Hsame & _). split; [exact Hsame|reflexivity].
Defined.

(** X11.  A check or a reset for one key never touches the entry of
    another key. *)
Theorem other_keys_untouched (key other : string) (config : RateLimitConfig)
    (now : N) (limits : gmap string RateLimitEntry) :
  other <> key ->
  (check key config now limits).1 !! other = limits !! other
  /\ reset key limits !! other = limits !! other.
Proof.
  intros Hne. split; [|unfold reset; now rewrite lookup_delete_ne].
  unfold check. destruct (limits !! key) as [[c r]|] eqn:E; simpl.
  - destruct (r <=? now).
    + rewrite lookup_delete_eq. simpl.
      now rewrite lookup_insert_ne, lookup_delete_ne.
    + rewrite E. simpl. destruct (maxAttempts config <=? c); simpl;
        [reflexivity|now rewrite lookup_insert_ne].
  - rewrite E. simpl. now rewrite lookup_insert_ne.
Qed.

Lemma other_keys_untouched_witness :
  let limits : gmap string RateLimitEntry :=
    {[ "message:y" := {| count := 7; resetTime := 61000 |} ]} in
  "message:y" <> "message:x"
  /\ (check "message:x" MESSAGE 58500 limits).1 !! "message:y"
     = Some {| count := 7; resetTime := 61000 |}
  /\ reset "message:x" limits !! "message:y"
     = Some {| count := 7; resetTime := 61000 |}.
Proof.
  intros limits. split; [discriminate|].
  destruct (other_keys_untouched "message:x" "message:y" MESSAGE 58500 limits)
    as [H1 H2]; [discriminate|].
  rewrite H1, H2. split; reflexivity.
Defined.

End RateLimiterFacts.

(** ** More on the Chat screen *)

Module ChatMore.
Import Client Chat ChatFacts.

Lemma on_insert_cases newMsg st :
  messages (on_insert newMsg st) = messages st
  \/ (~ known newMsg st /\ messages (on_insert newMsg st) = messages st ++ [newMsg]).
Proof.
  destruct (existsb (fun m => String.eqb (message_id m) (message_id newMsg))
              (messages st)) eqn:E.
  - left. apply known_spec in E. now rewrite on_insert_known.
  - right. assert (~ known newMsg st) as H
      by (intros Hk; apply known_spec in Hk; congruence).
    split; [exact H|now apply on_insert_new].
Qed.

Lemma known_after_on_insert newMsg st : known newMsg (on_insert newMsg st).
Proof.
  destruct (on_insert_cases newMsg st) as [H|[Hk H]].
  - unfold known. rewrite H.
    destruct (existsb (fun m => String.eqb (message_id m) (message_id newMsg))
                (messages st)) eqn:E; [now apply known_spec in E|].
    unfold on_insert in H. simpl in H. rewrite E in H.
    exfalso. revert H. clear. generalize (messages st). intros l H.
    apply (f_equal (@length _)) in H. rewrite length_app in H. simpl in H. lia.
  - exists newMsg. rewrite H, in_app_iff. simpl. auto.
Qed.

Lemma known_mono e newMsg st : known e st -> known e (on_insert newMsg st).
Proof.
  intros (m & Hm & He). exists m. split; [|exact He].
  destruct (on_insert_cases newMsg st) as [->|[_ ->]]; [exact Hm|].
  apply in_app_iff. now left.
Qed.

(** X12.  However many realtime events arrive, and however often the
    feed repeats one, the list keeps what it had, in place; it holds
    every event's id afterwards; it holds nothing but old messages and
    events; and if its ids were pairwise distinct they still are. *)
Theorem events_are_merged_once (events : list Message) (st : ChatState) :
  messages st `prefix_of` messages (receive events st)
  /\ (forall e, In e events -> known e (receive events st))
  /\ (forall m, In m (messages (receive events st)) ->
        In m (messages st) \/ In m events)
  /\ (List.NoDup (List.map message_id (messages st)) ->
      List.NoDup (List.map message_id (messages (receive events st)))).
Proof.
  unfold receive. revert st.
  induction events as [|e events IH]; intros st; simpl.
  - repeat split; [done|intros e []|auto|auto].
  - destruct (IH (on_insert e st)) as (Hp & Hk & Hin & Hnd).
    repeat split.
    + etrans; [|exact Hp].
      destruct (on_insert_cases e st) as [->|[_ ->]]; [done|now eexists].
    + intros e' [<-|He']; [|now apply Hk].
      clear -e. generalize (known_after_on_insert e st).
      generalize (on_insert e st). clear st.
      induction events as [|x events IH]; intros st Hst; simpl; [exact Hst|].
      apply IH. now apply known_mono.
    + intros m Hm. destruct (Hin m Hm) as [H|H]; [|auto].
      destruct (on_insert_cases e st) as [E|[_ E]]; rewrite E in H; [auto|].
      apply in_app_iff in H as [H|[<-|[]]]; auto.
    + intros H. apply Hnd. now apply on_insert_NoDup.
Qed.

Lemma events_are_merged_once_witness :
  let st := fetchMessages (Some [msg "m1" 1; msg "m2" 2]) idle in
  let events := [msg "m2" 2; msg "m3" 3; msg "m3" 3; msg "m1" 1; msg "m4" 4] in
  messages (receive events st) = [msg "m1" 1; msg "m2" 2; msg "m3" 3; msg "m4" 4]
  /\ List.NoDup (List.map message_id (messages (receive events st))).
Proof.
  intros st events. split; [reflexivity|].
  destruct (events_are_merged_once events st) as (_ & _ & _ & H).
  apply H. simpl. repeat constructor; simpl; intuition discriminate.
Defined.

(** X13.  Whatever [sendMessage] inserts has passed its checks: the row
    is for this chat's match and from the signed-in user, and its content
    is the draft without the white space around it, between 1 and 500
    characters long; the match id has passed the uuid test. *)
Theorem only_valid_content_is_sent (uuid_format : string -> bool)
    (user : option User) (id : string) (now : N) (reply : insert_reply)
    (st : ChatState) (limits : gmap string RateLimiter.RateLimitEntry)
    (m sender c : string) :
  In (InsertIntoMessages m sender c)
     (sendMessage uuid_format user id now reply st limits).2 ->
  m = id
  /\ user = Some {| user_id := sender |}
  /\ c = trim (newMessage st)
  /\ (1 <= String.length c <= 500)%nat
  /\ uuid_format id = true.
Proof. apply sendMessage_sends_valid. Qed.

Lemma only_valid_content_is_sent_witness :
  let st := {| messages := []; newMessage := " hello  ";
               loading := false; sending := false |} in
  (sendMessage (fun _ => true) (Some {| user_id := "x" |}) "match" 7 InsertOk st ∅).2
  = [LoggerInfo "Sending message"; InsertIntoMessages "match" "x" "hello"]
  /\ "hello" = trim (newMessage st)
  /\ (1 <= String.length "hello" <= 500)%nat.
Proof.
  intros st. split; [reflexivity|].
  destruct (only_valid_content_is_sent (fun _ => true) (Some {| user_id := "x" |})
              "match" 7 InsertOk st ∅ "match" "x" "hello")
    as (_ & _ & Hc & Hlen & _).
  - right. left. reflexivity.
  - split; assumption.
Defined.

(** X14.  [sendMessage] never changes the message list, [loading] or
    [sending]: a sent message is shown only once its realtime event
    arrives.  When it issues no insert the whole state is as before, the
    draft included; when the insert it issues succeeds the input field is
    empty. *)
Theorem send_only_changes_the_draft (uuid_format : string -> bool)
    (user : option User) (id : string) (now : N) (reply : insert_reply)
    (st : ChatState) (limits : gmap string RateLimiter.RateLimitEntry) :
  let r := sendMessage uuid_format user id now reply st limits in
  messages r.1.1 = messages st
  /\ loading r.1.1 = loading st
  /\ sending r.1.1 = sending st
  /\ ((forall m sender c, ~ In (InsertIntoMessages m sender c) r.2) -> r.1.1 = st)
  /\ ((exists m sender c, In (InsertIntoMessages m sender c) r.2) ->
      reply = InsertOk -> newMessage r.1.1 = "").
Proof.
  unfold sendMessage.
  destruct user as [u|];
    [|simpl; repeat split; auto; intros (? & ? & ? & [])].
  destruct (sending st) eqn:Hs;
    [simpl; repeat split; auto; intros (? & ? & ? & [])|].
  destruct (String.eqb _ _);
    [simpl; repeat split; auto; intros (? & ? & ? & [])|].
  destruct (messageSchema _ _ _); simpl;
    [|repeat split; auto; intros (? & ? & ? & [?|[]]); discriminate].
  destruct (RateLimiter.check _ _ _ _) as [limits1 rateLimit].
  destruct (RateLimiter.allowed rateLimit); simpl;
    [|repeat split; auto; intros (? & ? & ? & [?|[]]); discriminate].
  destruct reply; simpl; repeat split; auto; try discriminate;
    intros H; exfalso; eapply H; right; left; reflexivity.
Qed.

Lemma send_only_changes_the_draft_witness :
  let st := {| messages := [msg "m1" 1]; newMessage := "hello";
               loading := false; sending := false |} in
  let r := sendMessage (fun _ => true) (Some {| user_id := "x" |}) "match" 7
             InsertOk st ∅ in
  r.1.1 = {| messages := [msg "m1" 1]; newMessage := "";
             loading := false; sending := false |}
  /\ newMessage r.1.1 = "".
Proof.
  intros st r. split; [reflexivity|].
  destruct (send_only_changes_the_draft (fun _ => true) (Some {| user_id := "x" |})
              "match" 7 InsertOk st ∅) as (_ & _ & _ & _ & H).
  apply H; [|reflexivity].
  exists "match", "x", "hello". right. left. reflexivity.
Defined.

(** X15.  While the sender's window holds 30 messages or more,
    [sendMessage] inserts nothing and leaves the state and the limiter as
    they are: the draft stays in the input field. *)
Theorem exhausted_budget_blocks_send (uuid_format : string -> bool) (u : User)
    (id : string) (now : N) (reply : insert_reply) (st : ChatState)
    (limits : gmap string RateLimiter.RateLimitEntry)
    (entry : RateLimiter.RateLimitEntry) :
  limits !! ("message:" +:+ user_id u) = Some entry ->
  now < RateLimiter.resetTime entry ->
  30 <= RateLimiter.count entry ->
  let r := sendMessage uuid_format (Some u) id now reply st limits in
  r.1.1 = st
  /\ r.1.2 = limits
  /\ forall m sender c, ~ In (InsertIntoMessages m sender c) r.2.
Proof.
  intros E Hnow Hc. unfold sendMessage.
  destruct (sending st); [simpl; auto|].
  destruct (String.eqb _ _); [simpl; auto|].
  destruct (messageSchema _ _ _); simpl;
    [|repeat split; auto; intros ? ? ? [?|[]]; discriminate].
  destruct entry as [c r]. simpl in *.
  rewrite (RateLimiterFacts.check_in_window _ _ _ _ _ _ E Hnow).
  replace (RateLimiter.maxAttempts RateLimiter.MESSAGE <=? c) with true
    by (symmetry; apply N.leb_le; simpl; lia).
  simpl. repeat split; auto. intros ? ? ? [?|[]]; discriminate.
Qed.

Lemma exhausted_budget_blocks_send_witness :
  let st := {| messages := []; newMessage := "hello";
               loading := false; sending := false |} in
  let limits : gmap string RateLimiter.RateLimitEntry :=
    {[ "message:x" := {| RateLimiter.count := 30; RateLimiter.resetTime := 61000 |} ]} in
  sendMessage (fun _ => true) (Some {| user_id := "x" |}) "match" 59000 InsertOk st limits
  = (st, limits, [LoggerWarn "Message rate limit exceeded"])
  /\ (sendMessage (fun _ => true) (Some {| user_id := "x" |}) "match" 59000
        InsertOk st limits).1.1 = st.
Proof.
  intros st limits. split; [reflexivity|].
  apply (exhausted_budget_blocks_send (fun _ => true) {| user_id := "x" |} "match"
           59000 InsertOk st limits
           {| RateLimiter.count := 30; RateLimiter.resetTime := 61000 |});
    [reflexivity|reflexivity|discriminate].
Defined.

End ChatMore.

(** ** More on the Discover screen *)

Module DiscoverMore.
Import Client Discover DiscoverFacts.

Lemma length_firstn_le {A} (n : nat) (l : list A) : (length (firstn n l) <= n)%nat.
Proof.
  revert l. induction n as [|n IH]; intros [|x l]; simpl; try lia.
  specialize (IH l). lia.
Qed.

Lemma mem_spec x l : mem x l = true <-> In x l.
Proof.
  unfold mem. rewrite existsb_exists. split.
  - intros (y & Hy & E). apply String.eqb_eq in E. now subst.
  - intros H. exists x. split; [exact H|apply String.eqb_refl].
Qed.

(** X16.  When both queries of [fetchProfiles] succeed, the screen shows
    at most 20 profiles of the table, none of them the user's own and
    none already swiped on, starting at index 0; with no swipes yet, the
    profile with the all-zero uuid is left out as well.  When a query
    fails, the profiles and the index stay as they were and the failure
    is passed to [captureException]. *)
Theorem fetched_candidates (u : User) (swipedIds : list string)
    (table : list Profile) (st : DiscoverState) :
  let r := fetchProfiles (Some u) (Response (Some swipedIds) None)
             (candidates_from (user_id u) (Some table)) st in
  (length (profiles r.1) <= 20)%nat
  /\ currentIndex r.1 = 0%nat
  /\ loading r.1 = false
  /\ (forall p, In p (profiles r.1) ->
        In p table
        /\ profile_id p <> user_id u
        /\ ~ In (profile_id p) swipedIds
        /\ (swipedIds = [] -> profile_id p <> nil_uuid))
  /\ (forall (swipedUsers : response (list string)) (message : string),
        let failed := fetchProfiles (Some u) swipedUsers
                        (candidates_from (user_id u) None) st in
        profiles failed.1 = profiles st
        /\ currentIndex failed.1 = currentIndex st
        /\ loading failed.1 = false
        /\ In (CaptureException "fetch-profiles") failed.2).
Proof.
  simpl. split; [apply length_firstn_le|].
  split; [reflexivity|]. split; [reflexivity|]. split.
  - intros p Hp. unfold select_candidates in Hp.
    apply in_firstn, filter_In in Hp as [Hin Hp].
    apply andb_true_iff in Hp as [Hself Hex].
    apply negb_true_iff in Hself, Hex. apply String.eqb_neq in Hself.
    split; [exact Hin|]. split; [exact Hself|]. split.
    + intros Hs. assert (mem (profile_id p) (excluded_ids swipedIds) = true);
        [|congruence].
      apply mem_spec. destruct swipedIds; [destruct Hs|exact Hs].
    + intros -> E. simpl in Hex. rewrite E in Hex. discriminate.
  - intros swipedUsers _. unfold fetchProfiles.
    destruct (error swipedUsers); simpl; repeat split; auto.
Qed.

Lemma fetched_candidates_witness :
  let table := [person "me"; person "ann"; person nil_uuid; person "bob"] in
  let r := fetchProfiles (Some {| user_id := "me" |}) (Response (Some []) None)
             (candidates_from "me" (Some table)) initial in
  profiles r.1 = [person "ann"; person "bob"]
  /\ In (person "bob") table
  /\ profile_id (person "bob") <> "me"
  /\ ~ In (profile_id (person "bob")) [].
Proof.
  intros table r. split; [reflexivity|].
  destruct (fetched_candidates {| user_id := "me" |} [] table initial)
    as (_ & _ & _ & H & _).
  destruct (H (person "bob")) as (H1 & H2 & H3 & _); [right; left; reflexivity|].
  auto.
Defined.

(** X17.  [handleSwipe] leaves the profiles, [loading] and [swiping] as
    they are.  Without an insert the whole state is unchanged; an insert
    is always for the profile at the current index; after a successful
    insert the index is one further, after a failed one it stays and the
    failure is passed to [captureException]. *)
Theorem swipe_moves_on_only_on_success (user : option User) (isLike : bool)
    (now : N) (reply : insert_reply) (st : DiscoverState)
    (limits : gmap string RateLimiter.RateLimitEntry) :
  let r := handleSwipe user isLike now reply st limits in
  profiles r.1.1 = profiles st
  /\ loading r.1.1 = loading st
  /\ swiping r.1.1 = swiping st
  /\ ((forall a t l, ~ In (InsertIntoSwipes a t l) r.2) -> r.1.1 = st)
  /\ (forall a t l, In (InsertIntoSwipes a t l) r.2 ->
        (exists p, profiles st !! currentIndex st = Some p /\ t = profile_id p)
        /\ l = isLike
        /\ (reply = InsertOk -> currentIndex r.1.1 = S (currentIndex st))
        /\ (reply <> InsertOk ->
            currentIndex r.1.1 = currentIndex st
            /\ In (CaptureException "swipe") r.2)).
Proof.
  cbv zeta. unfold handleSwipe.
  destruct user as [u|]; [|simpl; by repeat split].
  destruct (swiping st) eqn:Hs; [simpl; by repeat split|].
  destruct (profiles st !! currentIndex st) as [p|] eqn:Hp;
    [|simpl; by repeat split].
  destruct (RateLimiter.check _ _ _ _) as [limits1 rateLimit].
  destruct (RateLimiter.allowed rateLimit); simpl.
  2: { split; [done|]. split; [done|]. split; [done|].
       split; [done|]. intros a t l [?|[]]; discriminate. }
  split; [now destruct reply|]. split; [now destruct reply|].
  split; [now destruct reply|]. split.
  - intros H; exfalso; destruct reply; eapply H; right; left; reflexivity.
  - intros a t l H.
    assert (t = profile_id p /\ l = isLike) as [-> ->].
    { destruct reply; simpl in H;
        repeat match type of H with _ \/ _ => destruct H as [H|H] end;
        try discriminate; try contradiction; now injection H as <- <- <-. }
    split; [eauto|]. split; [reflexivity|]. split.
    + now intros ->.
    + intros Hr. destruct reply; [contradiction| |]; simpl; auto 10.
Qed.

Lemma swipe_moves_on_only_on_success_witness :
  let st := {| profiles := [person "ann"; person "bob"]; currentIndex := 1;
               loading := false; swiping := false |} in
  let ok := handleSwipe (Some {| user_id := "me" |}) true 5 InsertOk st ∅ in
  let failed := handleSwipe (Some {| user_id := "me" |}) true 5
                  (InsertError "duplicate key") st ∅ in
  In (InsertIntoSwipes "me" "bob" true) ok.2
  /\ currentIndex ok.1.1 = 2%nat
  /\ currentIndex failed.1.1 = 1%nat
  /\ In (CaptureException "swipe") failed.2.
Proof.
  intros st ok failed.
  assert (Hin : In (InsertIntoSwipes "me" "bob" true) ok.2) by (right; left; reflexivity).
  assert (Hin' : In (InsertIntoSwipes "me" "bob" true) failed.2)
    by (right; left; reflexivity).
  destruct (swipe_moves_on_only_on_success (Some {| user_id := "me" |}) true 5
              InsertOk st ∅) as (_ & _ & _ & _ & H).
  destruct (H _ _ _ Hin) as (_ & _ & Hok & _).
  destruct (swipe_moves_on_only_on_success (Some {| user_id := "me" |}) true 5
              (InsertError "duplicate key") st ∅) as (_ & _ & _ & _ & H').
  destruct (H' _ _ _ Hin') as (_ & _ & _ & Hfail).
  destruct Hfail as [H1 H2]; [discriminate|].
  split; [exact Hin|]. split; [now apply Hok|]. split; assumption.
Defined.

End DiscoverMore.

(** ** More on the Matches screen *)

Module MatchesMore.
Import Client Matches MatchesFacts.

Lemma fold_group_first uid rows msgs acc k :
  (fold_left (group uid rows) msgs acc).1 !! k =
  match acc.1 !! k with
  | Some x => Some x
  | None => find (fun x => String.eqb (msg_match_id x) k) msgs
  end.
Proof.
  revert acc. induction msgs as [|msg msgs IH]; intros acc; simpl.
  - now destruct (acc.1 !! k).
  - rewrite IH. unfold group. simpl.
    destruct (String.eqb_spec (msg_match_id msg) k) as [<-|Hk].
    + destruct (acc.1 !! msg_match_id msg) eqn:E; [now rewrite E|].
      now rewrite lookup_insert_eq.
    + destruct (acc.1 !! msg_match_id msg);
        [reflexivity|now rewrite lookup_insert_ne].
Qed.

Lemma newest_first_find (P : MessageRow -> bool) (l : list MessageRow) :
  Sorted (fun a b => (msg_created_at b <=? msg_created_at a) = true) l ->
  match find P l with
  | Some x => In x l /\ P x = true
              /\ forall y, In y l -> P y = true -> msg_created_at y <= msg_created_at x
  | None => forall y, In y l -> P y = false
  end.
Proof.
  intros Hs. induction l as [|a l IH]; simpl; [intros y []|].
  assert (Htrans : Transitive (fun a b : MessageRow =>
                                 (msg_created_at b <=? msg_created_at a) = true))
    by (intros x y z Hxy Hyz; apply N.leb_le in Hxy, Hyz; apply N.leb_le; lia).
  pose proof (Sorted_extends Htrans Hs) as Hall.
  apply Sorted_inv in Hs as [Hs _]. specialize (IH Hs).
  destruct (P a) eqn:Pa.
  - split; [now left|]. split; [exact Pa|].
    intros y [<-|Hy] _; [lia|].
    apply N.leb_le. exact (proj1 (List.Forall_forall _ _) Hall y Hy).
  - destruct (find P l) as [x|].
    + destruct IH as (Hx & Px & Hmax). split; [now right|]. split; [exact Px|].
      intros y [<-|Hy] Py; [congruence|now apply Hmax].
    + intros y [<-|Hy]; [exact Pa|now apply IH].
Qed.

Lemma select_messages_newest_first ids table :
  Sorted (fun a b => (msg_created_at b <=? msg_created_at a) = true)
         (select_messages ids table).
Proof.
  unfold select_messages. apply OrderFacts.order_by_sorted.
  intros a b. rewrite !N.leb_le. lia.
Qed.

Lemma select_messages_in ids table x :
  In x (select_messages ids table) <->
  In x table /\ In (msg_match_id x) ids.
Proof.
  unfold select_messages. split.
  - intros H. apply (Permutation_in _ (OrderFacts.order_by_perm _ _)) in H.
    apply filter_In in H as [H1 H2]. split; [exact H1|].
    apply existsb_exists in H2 as (k & Hk & E). apply String.eqb_eq in E.
    now rewrite E.
  - intros [H1 H2].
    apply (Permutation_in _ (Permutation_sym (OrderFacts.order_by_perm _ _))).
    apply filter_In. split; [exact H1|]. apply existsb_exists.
    exists (msg_match_id x). split; [exact H2|apply String.eqb_refl].
Qed.

(** X18.  For each entry of the list [fetchMatches] builds from the two
    tables, the last message shown is a message of that match that no
    other message of the match is later than; and no last message is
    shown exactly when the match has no messages. *)
Theorem last_message_is_newest (u : User)
    (matches_table : list MatchRow) (messages_table : list MessageRow)
    (st : MatchesState) (e : Match) :
  In e (matches (fst (fetchMatches (Some u)
                        (Response (Some (select_matches (user_id u) matches_table)) None)
                        (fun matchIds => Some (select_messages matchIds messages_table))
                        st))) ->
  match lastMessage e with
  | Some last =>
      (exists x, In x messages_table
                 /\ msg_match_id x = match_id (row e)
                 /\ msg_content x = last_content last
                 /\ msg_created_at x = last_created_at last)
      /\ (forall y, In y messages_table ->
            msg_match_id y = match_id (row e) ->
            msg_created_at y <= last_created_at last)
  | None =>
      forall y, In y messages_table -> msg_match_id y <> match_id (row e)
  end.
Proof.
  simpl. unfold aggregate. intros Hin.
  apply in_map_iff in Hin as (m & <- & Hm). simpl.
  set (rows := select_matches (user_id u) matches_table) in *.
  set (ids := List.map match_id rows).
  assert (Hid : In (match_id m) ids) by now apply in_map.
  rewrite fold_group_first. simpl. rewrite lookup_empty.
  pose proof (newest_first_find (fun x => String.eqb (msg_match_id x) (match_id m))
                _ (select_messages_newest_first ids messages_table)) as H.
  destruct (find _ (select_messages ids messages_table)) as [x|].
  - destruct H as (Hx & Px & Hmax). apply String.eqb_eq in Px.
    apply select_messages_in in Hx as [Hx _]. simpl. split; [eauto|].
    intros y Hy Ey. apply Hmax; [|now apply String.eqb_eq].
    apply select_messages_in. split; [exact Hy|now rewrite Ey].
  - intros y Hy Ey. assert (In y (select_messages ids messages_table)) as Hy'
      by (apply select_messages_in; split; [exact Hy|now rewrite Ey]).
    apply H in Hy'. apply String.eqb_neq in Hy'. contradiction.
Qed.

Lemma last_message_is_newest_witness :
  let shown :=
    matches (fst (fetchMatches (Some {| user_id := "me" |})
                    (Response (Some (select_matches "me" sample_matches)) None)
                    (fun matchIds => Some (select_messages matchIds sample_messages))
                    {| matches := []; loading := true |})) in
  List.map (fun e => (match_id (row e), lastMessage e)) shown
  = [("k2", Some {| last_content := "hey"; last_created_at := 21 |});
     ("k1", Some {| last_content := "project?"; last_created_at := 13 |})]
  /\ forall e, In e shown -> match_id (row e) = "k1" ->
       forall last, lastMessage e = Some last ->
       forall y, In y sample_messages -> msg_match_id y = "k1" ->
       msg_created_at y <= last_created_at last.
Proof.
  intros shown. split; [reflexivity|].
  intros e He Hk last Hlast y Hy Ey.
  pose proof (last_message_is_newest {| user_id := "me" |} sample_matches
                sample_messages {| matches := []; loading := true |} e He) as H.
  rewrite Hlast in H. destruct H as [_ H]. apply H; [exact Hy|].
  now rewrite Hk.
Defined.

Lemma select_matches_in uid table m :
  In m (select_matches uid table) <->
  In m table /\ (user1_id m = uid \/ user2_id m = uid).
Proof.
  unfold select_matches. split.
  - intros H. apply (Permutation_in _ (OrderFacts.order_by_perm _ _)) in H.
    apply filter_In in H as [H1 H2]. split; [exact H1|].
    apply orb_true_iff in H2 as [H2|H2]; apply String.eqb_eq in H2; auto.
  - intros [H1 H2].
    apply (Permutation_in _ (Permutation_sym (OrderFacts.order_by_perm _ _))).
    apply filter_In. split; [exact H1|]. apply orb_true_iff.
    destruct H2 as [<-|<-]; rewrite String.eqb_refl; auto.
Qed.

(** X19.  The list [fetchMatches] builds has one entry for each match row
    the user takes part in and for no other row, the latest match
    first. *)
Theorem match_list_is_newest_first (u : User)
    (matches_table : list MatchRow)
    (second : list string -> option (list MessageRow)) (st : MatchesState) :
  let shown :=
    matches (fst (fetchMatches (Some u)
                    (Response (Some (select_matches (user_id u) matches_table)) None)
                    second st)) in
  Permutation (List.map row shown)
    (List.filter (fun m => String.eqb (user1_id m) (user_id u)
                           || String.eqb (user2_id m) (user_id u)) matches_table)
  /\ Sorted (fun a b => created_at b <= created_at a) (List.map row shown)
  /\ (forall m, In m (List.map row shown) <->
        In m matches_table /\ (user1_id m = user_id u \/ user2_id m = user_id u)).
Proof.
  simpl. unfold aggregate. rewrite List.map_map. simpl. rewrite List.map_id.
  split; [apply OrderFacts.order_by_perm|]. split.
  - unfold select_matches.
    eapply ChatFacts.Sorted_weaken; [|apply OrderFacts.order_by_sorted].
    + intros a b H. simpl in H. now apply N.leb_le in H.
    + intros a b. simpl. rewrite !N.leb_le. lia.
  - intros m. apply select_matches_in.
Qed.

End MatchesMore.

(** ** lib/error-handler.ts *)

Module ErrorHandlerFacts.
Import ErrorHandler.

(** X20.  [handleError] always logs the error and passes it to
    [captureException], once each and in that order, with the code of an
    [AppError] and no code otherwise; when asked to alert, the text it
    shows is the very text [getErrorMessage] gives for the same value. *)
Theorem handleError_shows_getErrorMessage (error : thrown) (context : string)
    (showAlert : bool) :
  let errorCode := match error with AppError _ c _ => c | _ => None end in
  handleError error context showAlert =
  [LoggerError ("Error in " +:+ context) context errorCode;
   CaptureException context errorCode]
  ++ (if showAlert then [Alert "Error" (getErrorMessage error)] else []).
Proof. destruct error; reflexivity. Qed.

End ErrorHandlerFacts.

(** ** Choosing skills and interests *)

Module OnboardingFacts.
Import Onboarding.

Lemma existsb_toggle (y x : string) (prev : list string) :
  existsb (String.eqb y) (toggle x prev) =
  xorb (existsb (String.eqb y) prev) (String.eqb y x).
Proof.
  unfold toggle. destruct (existsb (String.eqb x) prev) eqn:Hx.
  - destruct (String.eqb_spec y x) as [->|Hne].
    + rewrite Hx. simpl. apply not_true_is_false. intros H.
      apply existsb_exists in H as (z & Hz & E). apply String.eqb_eq in E. subst z.
      apply filter_In in Hz as [_ Hz]. now rewrite String.eqb_refl in Hz.
    + rewrite xorb_false_r. induction prev as [|z prev IH]; [reflexivity|].
      simpl in *. destruct (String.eqb_spec z x) as [->|Hz]; simpl.
      * replace (String.eqb y x) with false by (symmetry; now apply String.eqb_neq).
        simpl. destruct (existsb (String.eqb x) prev) eqn:E; [now apply IH|].
        clear IH Hx. induction prev as [|w prev IH]; [reflexivity|]. simpl in *.
        apply orb_false_iff in E as [Ew E].
        rewrite String.eqb_sym in Ew. rewrite Ew. simpl. now rewrite IH.
      * destruct (String.eqb y z); [reflexivity|]. simpl.
        apply IH. rewrite String.eqb_sym in Hx.
        replace (String.eqb z x) with false in Hx
          by (symmetry; now apply String.eqb_neq).
        exact Hx.
  - rewrite existsb_app. simpl. rewrite orb_false_r.
    destruct (String.eqb_spec y x) as [->|Hne]; [rewrite Hx|]; simpl;
      [reflexivity|]. now rewrite orb_false_r, xorb_false_r.
Qed.

Lemma toggle_NoDup (x : string) (prev : list string) :
  List.NoDup prev -> List.NoDup (toggle x prev).
Proof.
  intros H. unfold toggle. destruct (existsb (String.eqb x) prev) eqn:Hx.
  - now apply List.NoDup_filter.
  - apply DbMore.NoDup_snoc; [exact H|]. intros Hin.
    assert (existsb (String.eqb x) prev = true); [|congruence].
    apply existsb_exists. exists x. split; [exact Hin|apply String.eqb_refl].
Qed.

Lemma fold_toggle (y : string) (xs prev : list string) :
  existsb (String.eqb y) (fold_left (fun prev x => toggle x prev) xs prev) =
  xorb (existsb (String.eqb y) prev)
       (Nat.odd (length (List.filter (String.eqb y) xs))).
Proof.
  revert prev. induction xs as [|x xs IH]; intros prev; simpl.
  - now rewrite xorb_false_r.
  - rewrite IH, existsb_toggle. destruct (String.eqb y x); simpl.
    + rewrite Nat.odd_succ, <- Nat.negb_odd.
      now destruct (existsb _ prev), (Nat.odd _).
    + now rewrite xorb_false_r.
Qed.

Lemma fold_toggle_NoDup (xs prev : list string) :
  List.NoDup prev ->
  List.NoDup (fold_left (fun prev x => toggle x prev) xs prev).
Proof.
  revert prev. induction xs as [|x xs IH]; intros prev H; simpl; [exact H|].
  now apply IH, toggle_NoDup.
Qed.

Lemma odd_filter_in (y : string) (xs : list string) :
  Nat.odd (length (List.filter (String.eqb y) xs)) = true -> In y xs.
Proof.
  destruct (List.filter (String.eqb y) xs) as [|z l] eqn:E; [discriminate|].
  intros _. assert (In z (List.filter (String.eqb y) xs)) as H
    by (rewrite E; now left).
  apply filter_In in H as [H Hz]. apply String.eqb_eq in Hz. now subst.
Qed.

(** X21.  After any series of taps on skills (or interests), starting
    with nothing selected, the selection holds each item at most once,
    and it holds exactly the items tapped an odd number of times.  So
    taps on the twelve skill options can never select more than twelve,
    nor taps on the ten interest options more than ten. *)
Theorem selection_after_taps (xs : list string) :
  List.NoDup (taps xs)
  /\ (forall y, In y (taps xs) <->
        Nat.odd (length (List.filter (String.eqb y) xs)) = true)
  /\ (Forall (fun x => In x SKILL_OPTIONS) xs -> (length (taps xs) <= 12)%nat)
  /\ (Forall (fun x => In x INTEREST_OPTIONS) xs -> (length (taps xs) <= 10)%nat).
Proof.
  assert (Hnd : List.NoDup (taps xs)) by (apply fold_toggle_NoDup; constructor).
  assert (Hin : forall y, In y (taps xs) <->
                  Nat.odd (length (List.filter (String.eqb y) xs)) = true).
  { intros y. unfold taps. pose proof (fold_toggle y xs []) as E.
    simpl in E. rewrite <- E, existsb_exists. split.
    - intros H. exists y. split; [exact H|apply String.eqb_refl].
    - intros (z & Hz & Ez). apply String.eqb_eq in Ez. now subst. }
  assert (Hbound : forall options,
             Forall (fun x => In x options) xs ->
             (length (taps xs) <= length options)%nat).
  { intros options Hxs. apply List.NoDup_incl_length; [exact Hnd|].
    intros y Hy. apply Hin, odd_filter_in in Hy.
    exact (proj1 (List.Forall_forall _ _) Hxs y Hy). }
  split; [exact Hnd|]. split; [exact Hin|].
  split; intros H; apply (Hbound _ H).
Qed.

Lemma selection_after_taps_witness :
  let xs := ["Go"; "Rust"; "Go"; "Design"; "Rust"; "Rust"] in
  taps xs = ["Design"; "Rust"]
  /\ Forall (fun x => In x SKILL_OPTIONS) xs
  /\ (length (taps xs) <= 12)%nat
  /\ In "Rust" (taps xs).
Proof.
  intros xs. split; [reflexivity|].
  assert (H : Forall (fun x => In x SKILL_OPTIONS) xs)
    by (subst xs; repeat (apply List.Forall_cons; [simpl; auto 20|]);
        apply List.Forall_nil).
  destruct (selection_after_taps xs) as (_ & Hin & Hskills & _).
  split; [exact H|]. split; [exact (Hskills H)|].
  apply Hin. reflexivity.
Defined.

End OnboardingFacts.

(** ** The Login and Signup screens *)

Module AuthFacts.
Import Validators Auth.

Lemma flags_below (k n : nat) :
  List.map (fun i => (i <? k)%nat) (seq 0 n) =
  repeat true (Nat.min k n) ++ repeat false (n - k).
Proof.
  induction n as [|n IH]; [now rewrite Nat.min_0_r|].
  rewrite seq_S, List.map_app, IH. simpl.
  destruct (Nat.ltb_spec n k) as [H|H].
  - replace (Nat.min k (S n)) with (S (Nat.min k n)) by lia.
    replace (S n - k)%nat with 0%nat by lia.
    replace (n - k)%nat with 0%nat by lia.
    simpl. rewrite !app_nil_r.
    change (repeat true (Nat.min k n) ++ [true])
      with (repeat true (Nat.min k n) ++ repeat true 1).
    rewrite <- repeat_app. now rewrite Nat.add_1_r.
  - replace (Nat.min k (S n)) with (Nat.min k n) by lia.
    replace (S n - k)%nat with (S (n - k)) by lia.
    rewrite <- List.app_assoc. f_equal.
    change [false] with (repeat false 1).
    rewrite <- repeat_app. now rewrite Nat.add_1_r.
Qed.

Lemma handleLogin_asks_server email_format email password now reply lookup
    loading limits :
  asks_server (handleLogin email_format email password now reply lookup loading limits).2 =
  loginSchema email_format email password
  && RateLimiter.allowed
       (RateLimiter.check ("login:" +:+ email) RateLimiter.LOGIN now limits).2.
Proof.
  unfold handleLogin. destruct (loginSchema _ _ _); [|reflexivity]. cbn [negb].
  destruct (RateLimiter.check _ _ _ _) as [l [a r]].
  cbn [RateLimiter.allowed snd andb].
  destruct a; [|reflexivity]. cbn [negb].
  destruct reply as [m|id| |]; try reflexivity.
  destruct lookup as [found failed|]; reflexivity.
Qed.

Lemma failed_logins_attempts email_format email password tries limits :
  loginSchema email_format email password = true ->
  failed_logins email_format email password tries limits =
  (RateLimiter.attempts ("login:" +:+ email) RateLimiter.LOGIN
     (List.map fst tries) limits).2.
Proof.
  intros Hv. revert limits. induction tries as [|[now m] tries IH]; intros limits;
    [reflexivity|].
  cbn [failed_logins RateLimiter.attempts List.map fst].
  unfold handleLogin. rewrite Hv. cbn [negb].
  destruct (RateLimiter.check _ _ _ _) as [l [a r]]. cbn [RateLimiter.allowed].
  destruct a; cbn [negb app snd asks_server existsb orb]; rewrite IH;
    destruct (RateLimiter.attempts _ _ _ _) as [l2 flags]; reflexivity.
Qed.

(** X22.  Logins with credentials that pass [loginSchema], each answered
    by a sign-in error: when no window is open for the email at the
    first one, then of that one and those that follow it within fifteen
    minutes exactly the first five reach the server; every later one is
    turned away by the limiter without a request. *)
Theorem login_lockout_after_five (email_format : string -> bool)
    (email password : string) (start : N) (message : string)
    (tries : list (N * string)) (limits : gmap string RateLimiter.RateLimitEntry) :
  loginSchema email_format email password = true ->
  RateLimiter.no_window ("login:" +:+ email) start limits ->
  Forall (fun t => t.1 < start + 15 * 60 * 1000) tries ->
  failed_logins email_format email password ((start, message) :: tries) limits =
  repeat true (Nat.min 5 (S (length tries)))
  ++ repeat false (S (length tries) - 5).
Proof.
  intros Hv Hw Ht. rewrite (failed_logins_attempts _ _ _ _ _ Hv).
  cbn [List.map fst].
  rewrite (RateLimiterFacts.attempts_from_start _ RateLimiter.LOGIN _ _ _ Hw).
  2:{ rewrite List.Forall_map. exact Ht. }
  rewrite length_map.
  transitivity (List.map (fun i => (i <? 5)%nat) (seq 0 (S (length tries)))).
  - cbn [seq List.map]. f_equal. rewrite <- seq_shift, List.map_map.
    apply List.map_ext. intros i. cbn [RateLimiter.maxAttempts RateLimiter.LOGIN].
    destruct (N.ltb_spec (N.of_nat (S i)) 5), (Nat.ltb_spec (S i) 5);
      try reflexivity; lia.
  - apply flags_below.
Qed.

Lemma login_lockout_after_five_witness :
  failed_logins (fun _ => true) "a@b.c" "secret1"
    [(0, "no"); (1, "no"); (2, "no"); (3, "no"); (4, "no"); (5, "no"); (899999, "no")] ∅
  = [true; true; true; true; true; false; false].
Proof.
  apply (login_lockout_after_five (fun _ => true) "a@b.c" "secret1" 0 "no"
           [(1, "no"); (2, "no"); (3, "no"); (4, "no"); (5, "no"); (899999, "no")] ∅).
  - reflexivity.
  - exact I.
  - repeat constructor.
Defined.

(** X23.  [handleLogin] sends credentials to the server exactly when
    they pass [loginSchema] and the limiter allows the attempt, and then
    once, and the credentials sent are the ones entered; whenever it
    does, [loading] is false again at the end, whatever the replies. *)
Theorem credentials_sent_iff_valid_and_allowed (email_format : string -> bool)
    (email password : string) (now : N) (reply : sign_in_reply)
    (lookup : profile_reply) (loading : bool)
    (limits : gmap string RateLimiter.RateLimitEntry) :
  let '(loading', _, done) :=
    handleLogin email_format email password now reply lookup loading limits in
  let go := loginSchema email_format email password
            && RateLimiter.allowed
                 (RateLimiter.check ("login:" +:+ email) RateLimiter.LOGIN now limits).2 in
  List.filter (fun e => match e with SignInWithPassword _ _ => true | _ => false end)
    done
  = (if go then [SignInWithPassword email password] else [])
  /\ loading' = (if go then false else loading).
Proof.
  unfold handleLogin. destruct (loginSchema _ _ _); [|now split]. cbn [negb].
  destruct (RateLimiter.check _ _ _ _) as [l [a r]].
  cbn [RateLimiter.allowed snd andb].
  destruct a; [|now split]. cbn [negb].
  destruct reply as [m|id| |]; try (split; reflexivity).
  destruct lookup as [found failed|]; [|split; reflexivity].
  destruct failed; split; reflexivity.
Qed.

(** X24.  A login that succeeds and whose profile lookup returns clears
    the limiter's entry for the email: whatever was counted before, the
    next five logins with these credentials reach the server whenever
    they come. *)
Theorem successful_login_clears_lockout (email_format : string -> bool)
    (email password id : string) (now : N) (found failed loading : bool)
    (limits : gmap string RateLimiter.RateLimitEntry) :
  loginSchema email_format email password = true ->
  RateLimiter.allowed
    (RateLimiter.check ("login:" +:+ email) RateLimiter.LOGIN now limits).2 = true ->
  let limits' :=
    (handleLogin email_format email password now (SignedIn id)
       (ProfileReply found failed) loading limits).1.2 in
  limits' !! ("login:" +:+ email) = None
  /\ forall now' reply lookup loading',
       asks_server (handleLogin email_format email password now' reply lookup
                      loading' limits').2 = true.
Proof.
  intros Hv Ha limits'.
  assert (E : limits' !! ("login:" +:+ email) = None).
  { subst limits'. unfold handleLogin. rewrite Hv. cbn [negb].
    destruct (RateLimiter.check _ _ _ _) as [l [a r]].
    cbn [RateLimiter.allowed snd] in Ha. subst a.
    cbn [negb fst snd]. apply lookup_delete_eq. }
  split; [exact E|]. intros now' reply lookup loading'.
  rewrite handleLogin_asks_server, Hv.
  rewrite RateLimiterFacts.check_opens_window; [reflexivity|].
  unfold RateLimiter.no_window. now rewrite E.
Qed.

Lemma successful_login_clears_lockout_witness :
  let stale : gmap string RateLimiter.RateLimitEntry :=
    {[ "login:a@b.c" := {| RateLimiter.count := 4; RateLimiter.resetTime := 900000 |} ]} in
  let limits' :=
    (handleLogin (fun _ => true) "a@b.c" "secret1" 10 (SignedIn "u1")
       (ProfileReply true false) false stale).1.2 in
  limits' !! "login:a@b.c" = None
  /\ forall now' reply lookup loading',
       asks_server (handleLogin (fun _ => true) "a@b.c" "secret1" now' reply lookup
                      loading' limits').2 = true.
Proof.
  intros stale.
  apply (successful_login_clears_lockout (fun _ => true) "a@b.c" "secret1" "u1"
           10 true false false stale); reflexivity.
Defined.

Lemma length_nonempty (s : string) : (1 <= String.length s)%nat <-> s <> "".
Proof. destruct s; simpl; split; try congruence; lia. Qed.

(** X25.  [handleSignup] asks the server to create an account exactly
    when the email is not empty and the password has six characters or
    more, and then once, with the values entered; it applies none of the
    other rules of [signupSchema].  Every password [signupSchema]
    accepts passes this check, and every account created this way has a
    password that [loginSchema] accepts. *)
Theorem signup_request_rule (email_format : string -> bool)
    (email password confirmPassword : string) (reply : sign_up_reply)
    (loading : bool) :
  let done := (handleSignup email password reply loading).2 in
  let go := negb (String.eqb email "") && (6 <=? String.length password)%nat in
  List.filter (fun e => match e with SignUp _ _ => true | _ => false end) done
  = (if go then [SignUp email password] else [])
  /\ (go = true -> email_format email = true ->
      loginSchema email_format email password = true)
  /\ (signupSchema email_format email password confirmPassword = true ->
      email <> "" -> go = true).
Proof.
  cbv zeta. split; [|split].
  - unfold handleSignup.
    destruct (Nat.leb_spec 6 (String.length password)) as [H|H].
    + replace (String.length password <? 6)%nat with false
        by (symmetry; apply Nat.ltb_ge; lia).
      destruct (String.eqb_spec email "") as [->|He]; [reflexivity|].
      destruct (String.eqb_spec password "") as [->|Hp]; [simpl in H; lia|].
      destruct reply as [m|[|]]; reflexivity.
    + replace (String.length password <? 6)%nat with true
        by (symmetry; apply Nat.ltb_lt; lia).
      rewrite andb_false_r.
      destruct (String.eqb email "" || String.eqb password ""); reflexivity.
  - intros Hgo He. apply andb_true_iff in Hgo as [_ Hgo].
    unfold loginSchema. now rewrite He, Hgo.
  - unfold signupSchema. intros H He.
    repeat (apply andb_true_iff in H as [H ?]).
    apply andb_true_iff. split.
    + apply negb_true_iff. now apply String.eqb_neq.
    + apply Nat.leb_le. match goal with H8 : (8 <=? _)%nat = true |- _ =>
        apply Nat.leb_le in H8 end. lia.
Qed.

Lemma signup_request_rule_witness :
  List.filter (fun e => match e with SignUp _ _ => true | _ => false end)
    (handleSignup "a@b.c" "Secret12" (SignedUp true) false).2
  = [SignUp "a@b.c" "Secret12"]
  /\ loginSchema (fun _ => true) "a@b.c" "Secret12" = true.
Proof.
  destruct (signup_request_rule (fun _ => true) "a@b.c" "Secret12" "Secret12"
              (SignedUp true) false) as (Hsent & Hlogin & Hsignup).
  split; [exact Hsent|].
  apply Hlogin; [|reflexivity].
  apply Hsignup; [reflexivity|discriminate].
Defined.

End AuthFacts.

(** ** The Profile screen *)

Module ProfileFacts.
Import Client ProfileScreen.

Lemma loaded_written (d : ProfileData) : loaded (written d) = d.
Proof. now destruct d. Qed.

Lemma uploadImage_profile user now stamp manipulated uploadError publicUrl st limits :
  profile (uploadImage user now stamp manipulated uploadError publicUrl st limits).1.1
  = profile st.
Proof.
  unfold uploadImage. destruct user as [u|]; [|reflexivity].
  destruct (RateLimiter.check _ _ _ _) as [l [a r]].
  cbn [RateLimiter.allowed]. destruct a; [|reflexivity]. cbn [negb].
  destruct manipulated as [uri|]; [|reflexivity]. cbn [optimizeImage].
  destruct uri; [reflexivity|]. now destruct uploadError.
Qed.

Lemma handleSave_outcome url_format profile_issues user now updateError refetch
    st limits :
  let go :=
    match user with
    | Some u =>
        profileSchema url_format (edit st)
        && RateLimiter.allowed
             (RateLimiter.check ("profile-update:" +:+ user_id u)
                RateLimiter.PROFILE_UPDATE now limits).2
    | None => false
    end in
  (handleSave url_format profile_issues user now updateError refetch st limits).1.1 =
  if go then
    if updateError then setSaving false st
    else setSaving false (fetchProfile user refetch (setIsEditing false st))
  else st.
Proof.
  unfold handleSave. destruct user as [u|]; [|reflexivity].
  destruct (profileSchema _ _); [|reflexivity]. cbn [negb andb].
  destruct (RateLimiter.check _ _ _ _) as [l [a r]].
  cbn [RateLimiter.allowed snd]. destruct a; [|reflexivity]. cbn [negb].
  now destruct updateError.
Qed.

Lemma react_unsaved url_format profile_issues user e s :
  unsaved e = true ->
  profile (react url_format profile_issues user e s).1 = profile s.1.
Proof.
  destruct s as [st limits].
  destruct e as [reply| | |i|now stamp m ue url|now ue refetch]; try discriminate;
    intros H; cbn [react fst]; try reflexivity.
  - apply uploadImage_profile.
  - simpl in H. subst ue. rewrite handleSave_outcome.
    now destruct user as [u|]; [destruct (_ && _)|].
Qed.

Lemma session_unsaved url_format profile_issues user events s :
  forallb unsaved events = true ->
  profile (session url_format profile_issues user events s).1 = profile s.1.
Proof.
  revert s. induction events as [|e events IH]; intros s H; [reflexivity|].
  simpl in H. apply andb_true_iff in H as [He H]. unfold session in *. simpl.
  rewrite (IH _ H). now apply react_unsaved.
Qed.

(** X26.  After a profile has been fetched, whatever is then typed or
    toggled in the form, whatever photos are uploaded, and however many
    saves are turned away or fail, Cancel puts every field of the form
    back to the fetched values (null columns as empty) and leaves edit
    mode; an uploaded photo's address is dropped with the rest.  When
    no profile was ever fetched, Cancel keeps the form as it is. *)
Theorem cancel_discards_unsaved_edits (url_format : string -> bool)
    (profile_issues : ProfileData -> string) (user : User) (data : ProfileRow)
    (events : list event)
    (s : ProfileState * gmap string RateLimiter.RateLimitEntry) :
  forallb unsaved events = true ->
  let session := session url_format profile_issues (Some user) in
  (let st := handleCancel
               (session (Fetch (FetchReply false (Some data)) :: events) s).1 in
   edit st = loaded data /\ profile st = Some data /\ isEditing st = false)
  /\ (profile s.1 = None ->
      edit (handleCancel (session events s).1) = edit (session events s).1).
Proof.
  intros H. cbv zeta. split.
  - set (s1 := react url_format profile_issues (Some user)
                 (Fetch (FetchReply false (Some data))) s).
    change (session url_format profile_issues (Some user)
              (Fetch (FetchReply false (Some data)) :: events) s)
      with (session url_format profile_issues (Some user) events s1).
    pose proof (session_unsaved url_format profile_issues (Some user) events s1 H)
      as E.
    assert (E1 : profile s1.1 = Some data) by (subst s1; now destruct s).
    rewrite E1 in E. unfold handleCancel. rewrite E.
    split; [reflexivity|]. split; [exact E|reflexivity].
  - intros Hn. unfold handleCancel.
    rewrite (session_unsaved _ _ _ _ _ H), Hn. reflexivity.
Qed.

Lemma cancel_discards_unsaved_edits_witness :
  let data := {| row_name := "Ana"; row_bio := None; row_skills := Some ["Go"];
                 row_interests := None; row_github_url := None;
                 row_portfolio_url := None; row_photo_url := Some "p.jpg" |} in
  let st := handleCancel
              (session (fun _ => true) (fun _ => "") (Some {| user_id := "u1" |})
                 [Fetch (FetchReply false (Some data)); Edit;
                  Input (SetEditName ""); Input (ToggleSkill "Go");
                  Upload 0 7 (Some "file:a.jpg") false "https://x/u1-7.jpg";
                  Save 1 true FetchThrows]
                 (initial, ∅)).1 in
  edit st = loaded data /\ photo_url (edit st) = "p.jpg" /\ isEditing st = false.
Proof.
  intros data st.
  destruct (cancel_discards_unsaved_edits (fun _ => true) (fun _ => "")
              {| user_id := "u1" |} data
              [Edit; Input (SetEditName ""); Input (ToggleSkill "Go");
               Upload 0 7 (Some "file:a.jpg") false "https://x/u1-7.jpg";
               Save 1 true FetchThrows]
              (initial, ∅) eq_refl) as [(Hedit & _ & Hmode) _].
  fold st in Hedit, Hmode. split; [exact Hedit|]. split; [|exact Hmode].
  now rewrite Hedit.
Defined.

(** X27.  [handleSave] writes to the table exactly when a user is
    signed in, the form passes [profileSchema] and the limiter allows
    the update, and then once, the row of the user, with the form as it
    stands.  A save that is turned away or whose update fails leaves
    the form, the edit mode and the stored profile as they were. *)
Theorem update_sent_iff_valid_and_allowed (url_format : string -> bool)
    (profile_issues : ProfileData -> string) (user : option User) (now : N)
    (updateError : bool) (refetch : fetch_reply) (st : ProfileState)
    (limits : gmap string RateLimiter.RateLimitEntry) :
  let '(st', _, done) :=
    handleSave url_format profile_issues user now updateError refetch st limits in
  let go :=
    match user with
    | Some u =>
        profileSchema url_format (edit st)
        && RateLimiter.allowed
             (RateLimiter.check ("profile-update:" +:+ user_id u)
                RateLimiter.PROFILE_UPDATE now limits).2
    | None => false
    end in
  List.filter (fun e => match e with UpdateProfile _ _ => true | _ => false end) done
  = match user with
    | Some u => if go then [UpdateProfile (user_id u) (edit st)] else []
    | None => []
    end
  /\ (go && negb updateError = false ->
      edit st' = edit st /\ isEditing st' = isEditing st
      /\ profile st' = profile st /\ saving st' = (if go then false else saving st)).
Proof.
  unfold handleSave. destruct user as [u|]; [|now repeat split].
  destruct (profileSchema _ _); [|now repeat split]. cbn [negb andb].
  destruct (RateLimiter.check _ _ _ _) as [l [a r]].
  cbn [RateLimiter.allowed snd]. destruct a; [|now repeat split]. cbn [negb].
  destruct updateError; [now repeat split|].
  split; [reflexivity|]. discriminate.
Qed.

Lemma update_sent_iff_valid_and_allowed_witness :
  let st := setEdit {| name := "Ana"; bio := ""; skills := ["Go"]; interests := [];
                       github_url := ""; portfolio_url := ""; photo_url := "" |}
              (setIsEditing true initial) in
  let '(st', _, done) :=
    handleSave (fun _ => true) (fun _ => "interests: At least one interest required")
      (Some {| user_id := "u1" |}) 0 false FetchThrows st ∅ in
  done = [Alert "Validation Error" "interests: At least one interest required"]
  /\ edit st' = edit st /\ isEditing st' = true.
Proof.
  intros st.
  pose proof (update_sent_iff_valid_and_allowed (fun _ => true)
                (fun _ => "interests: At least one interest required")
                (Some {| user_id := "u1" |}) 0 false FetchThrows st ∅) as H.
  destruct (handleSave _ _ _ _ _ _ _ _) as [[st' l] done] eqn:E.
  destruct H as [_ H]. destruct (H eq_refl) as (Hedit & Hmode & _).
  split; [|split; [exact Hedit|exact Hmode]].
  vm_compute in E. congruence.
Defined.

(** X28.  A save that goes through, followed by a refetch that returns
    the row just written, leaves the form showing exactly what was
    saved, with edit mode off; Cancel then changes nothing. *)
Theorem saved_form_round_trip (url_format : string -> bool)
    (profile_issues : ProfileData -> string) (user : User) (now : N)
    (st : ProfileState) (limits : gmap string RateLimiter.RateLimitEntry) :
  profileSchema url_format (edit st) = true ->
  RateLimiter.allowed
    (RateLimiter.check ("profile-update:" +:+ user_id user)
       RateLimiter.PROFILE_UPDATE now limits).2 = true ->
  let st' :=
    (handleSave url_format profile_issues (Some user) now false
       (FetchReply false (Some (written (edit st)))) st limits).1.1 in
  edit st' = edit st
  /\ profile st' = Some (written (edit st))
  /\ isEditing st' = false /\ saving st' = false /\ loading st' = false
  /\ handleCancel st' = st'.
Proof.
  intros Hv Ha st'. subst st'. rewrite handleSave_outcome. rewrite Hv, Ha.
  cbn [andb fetchProfile]. unfold handleCancel. cbn.
  rewrite loaded_written. repeat split.
Qed.

Lemma saved_form_round_trip_witness :
  let st := setEdit {| name := "Ana"; bio := ""; skills := ["Go"];
                       interests := ["SaaS"]; github_url := "";
                       portfolio_url := ""; photo_url := "" |}
              (setIsEditing true initial) in
  let st' :=
    (handleSave (fun _ => false) (fun _ => "") (Some {| user_id := "u1" |}) 0 false
       (FetchReply false (Some (written (edit st)))) st ∅).1.1 in
  edit st' = edit st /\ isEditing st' = false /\ handleCancel st' = st'.
Proof.
  intros st.
  pose proof (saved_form_round_trip (fun _ => false) (fun _ => "")
                {| user_id := "u1" |} 0 st ∅) as H.
  destruct H as (Hedit & _ & Hmode & _ & _ & Hcancel); [reflexivity..|].
  split; [exact Hedit|]. split; [exact Hmode|exact Hcancel].
Defined.

End ProfileFacts.
